(** * sharkissa: a shallow embedding of the iSSA design pipeline

    The development follows the Python package [sharkissa]:

    - [regularize.py]  : resampling of fixes onto a time grid and kinematics;
    - [steps.py]       : used / available choice sets ([build_used_available]);
    - [covariates/social.py] : the per-timestamp neighbour index;
    - [design.py]      : [_zscore] and the missing-value policy of [add_social];
    - [validate.py]    : fold labels and the cross-validation loop.

    Python floats are IEEE binary64 numbers and are modelled by Rocq's
    primitive floats.  Data frames are lists of row records; a pandas index
    label is a field of the row where the code reads it.  The routines of
    libm, numpy and pandas that the package calls (sin, cos, hypot, nanmean,
    the Generator, the statsmodels fit) are operations of explicit
    interfaces: every theorem holds for any implementation of them. *)

From Stdlib Require Import ZArith List Floats Lia Bool Ascii String Reals Lra.
From Stdlib Require Import Sorting.Permutation Sorting.Sorted.
From stdpp Require Import base option list gmap.
Import ListNotations.

Local Open Scope Z_scope.

(* ===================================================================== *)
(** * Part I.  Definitions                                                *)
(* ===================================================================== *)

(** ** Binary64 numbers as numpy uses them *)

Module Num.

Definition nan : float := PrimFloat.nan.
Definition zero : float := 0%float.
Definition one : float := 1%float.
Definition two : float := 2%float.

(** [np.pi] (and [math.pi]). *)
Definition pi : float := 0x1.921fb54442d18p+1%float.
(** [2*np.pi]. *)
Definition two_pi : float := PrimFloat.mul two pi.

(** [np.isnan], [np.isfinite], [Series.isna] on a float column. *)
Definition isnan (x : float) : bool := PrimFloat.is_nan x.
Definition isfinite (x : float) : bool := PrimFloat.is_finite x.

(** [Series.fillna(v)] on one cell. *)
Definition fillna (v x : float) : float := if isnan x then v else x.

(** [np.radians] and [math.radians]: multiplication by pi/180. *)
Definition radians (x : float) : float :=
  PrimFloat.mul x (PrimFloat.div pi 180%float).

(** C's [fmod]: the exact remainder of the truncated quotient, with the
    sign of the dividend.  The result is always representable, so it is
    computed on the integer significands. *)
Definition sf_fmod (x y : spec_float) : spec_float :=
  match x, y with
  | S754_nan, _ | _, S754_nan => S754_nan
  | S754_infinity _, _ => S754_nan
  | _, S754_zero _ => S754_nan
  | S754_zero _, _ => x
  | S754_finite _ _ _, S754_infinity _ => x
  | S754_finite sx mx ex, S754_finite _ my ey =>
      let e := Z.min ex ey in
      let X := Z.pos mx * 2 ^ (ex - e) in
      let Y := Z.pos my * 2 ^ (ey - e) in
      binary_normalize prec emax (cond_Zopp sx (X mod Y)) e sx
  end.

Definition fmod (x y : float) : float :=
  SF2Prim (sf_fmod (Prim2SF x) (Prim2SF y)).

Definition copysign_zero (b : float) : float :=
  if PrimFloat.ltb b zero then (-0)%float else zero.

(** The [%] of numpy arrays and pandas columns ([np.remainder]): [fmod]
    moved to the sign of the divisor. *)
Definition remainder (a b : float) : float :=
  let m := fmod a b in
  if PrimFloat.eqb b zero then m
  else if negb (PrimFloat.eqb m zero) then
    if xorb (PrimFloat.ltb b zero) (PrimFloat.ltb m zero)
    then PrimFloat.add m b else m
  else copysign_zero b.

(** [np.minimum] and the reduction [np.min]: a NaN on the left wins. *)
Definition minimum (a b : float) : float :=
  if PrimFloat.ltb a b || isnan a then a else b.

Definition np_min (l : list float) : float :=
  match l with
  | [] => nan
  | x :: l' => fold_left minimum l' x
  end.

(** An integer as a float ([float(i)] for the small indices of a grid). *)
Definition of_Z (z : Z) : float := SF2Prim (binary_normalize prec emax z 0 false).

(** The functions of libm behind [np.sin], [math.cos], [np.hypot], ... *)
Class Libm := {
  sin : float -> float;
  cos : float -> float;
  arcsin : float -> float;
  arctan2 : float -> float -> float;
  hypot : float -> float -> float;
  log : float -> float;
  exp : float -> float;
}.

(** The reductions of numpy and pandas whose summation order is theirs. *)
Class Reductions := {
  mean : list float -> float;      (* [.mean()], NaN on an empty list *)
  nanmean : list float -> float;   (* [np.nanmean] *)
  nanstd : list float -> float;    (* [np.nanstd], ddof = 0 *)
  median : list float -> float;    (* [.median()], NaN on an empty list *)
  mode_str : list string -> option string;  (* [Series.mode().iat[0]] *)
  np_mean : list float -> float;   (* [np.mean] of a Python list *)
  nansum : list float -> float;    (* a grouped [sum], NaN skipped *)
  dot : list float -> list float -> float;  (* a row of [X @ params] *)
}.

End Num.

(** ** Angles: the wrap of a heading difference

    [regularize] computes
    [((heading - heading_prev + np.pi) % (2*np.pi)) - np.pi].
    The expression is written once, over the arithmetic it uses, and read
    both on binary64 numbers (what runs) and on real numbers (what it
    means). *)

Class AngleArith (A : Type) := {
  a_add : A -> A -> A;
  a_sub : A -> A -> A;
  a_mod : A -> A -> A;      (* Python's [%] *)
  a_pi : A;
  a_two_pi : A;
}.

#[export] Instance float_angle : AngleArith float := {
  a_add := PrimFloat.add;
  a_sub := PrimFloat.sub;
  a_mod := Num.remainder;
  a_pi := Num.pi;
  a_two_pi := Num.two_pi;
}.

(** Python's [x % y] on real numbers: [x - y * floor (x / y)]. *)
Definition Rpymod (x y : R) : R := (x - y * IZR (Int_part (x / y)))%R.

#[export] Instance real_angle : AngleArith R := {
  a_add := Rplus;
  a_sub := Rminus;
  a_mod := Rpymod;
  a_pi := PI;
  a_two_pi := (2 * PI)%R;
}.

Definition turn_angle {A} `{AngleArith A} (heading heading_prev : A) : A :=
  a_sub (a_mod (a_add (a_sub heading heading_prev) a_pi) a_two_pi) a_pi.

(** ** Tables

    Individuals are identified by integers: the code only compares
    identifiers and sorts by them.  A timestamp is a number of nanoseconds
    (pandas' [datetime64[ns]]). *)

Module Frame.

(** The keys of a [groupby]: distinct, in increasing order. *)
Fixpoint insert_key (k : Z) (ks : list Z) : list Z :=
  match ks with
  | [] => [k]
  | k' :: ks' =>
      if k <? k' then k :: ks
      else if k =? k' then ks
      else k' :: insert_key k ks'
  end.

Definition group_keys (ks : list Z) : list Z := fold_right insert_key [] ks.

Section Groupby.
Context {Row : Type} (key : Row -> Z).

Definition group_at (k : Z) (rows : list Row) : list Row :=
  List.filter (fun r => key r =? k) rows.

(** [for k, g in rows.groupby(key)]: each group keeps the order of the
    table. *)
Definition groupby (rows : list Row) : list (Z * list Row) :=
  List.map (fun k => (k, group_at k rows)) (group_keys (List.map key rows)).
End Groupby.

(** [Series.shift(1)] on a float column. *)
Definition shift1 (l : list float) : list float :=
  match l with
  | [] => []
  | _ => Num.nan :: removelast l
  end.

End Frame.

(** A row of the table [regularize] returns. *)
Record RegRow := {
  r_index : Z;                (* the index label of the row *)
  r_id : Z;
  r_time : Z;
  r_lon : float;
  r_lat : float;
  lon_prev : float;
  lat_prev : float;
  step_len_m : float;
  heading_rad : float;
  heading_prev_rad : float;
  turn_rad : float;
  speed_mps : float;
  x_m : float;
  y_m : float;
  x_prev : float;
  y_prev : float;
  r_sex : option string;
}.

(** The dataclass [Config] (config.py).  [sex_col] is [true] when a sex
    column is configured and present in the input.  [Config] has no
    [covariates] attribute, so the passthrough list that [regularize] and
    [add_social] look up with [getattr] is always empty. *)
Record Config := {
  dt_minutes : Z;
  K_available : Z;
  neighbor_radius_m : float;
  cone_half_angle_deg : float;
  include_cos_turn : bool;
  include_log_l : bool;
  include_log_l2 : bool;
  seed : Z;
  sex_col : bool;
}.

(** ** covariates/social.py *)

Module Social.
Import Num.

Record SocialCovariates := {
  nn_dist : float;
  n_forward : float;
  n_behind : float;
  ahead_any : float;
  behind_any : float;
  mean_align_fwd : float;
  rel_speed_fwd : float;
}.

(** One entry of the arrays kept for a timestamp; the five numpy arrays
    of [time_to_arr[t]] come from the same group and are read in step. *)
Record Point := {
  p_x : float;
  p_y : float;
  p_id : Z;
  p_heading : float;
  p_speed : float;
}.

Definition point_of (r : RegRow) : Point :=
  {| p_x := x_m r; p_y := y_m r; p_id := r_id r;
     p_heading := heading_rad r; p_speed := speed_mps r |}.

(** A [cKDTree] over the points of a timestamp; nothing reads it back. *)
Definition KDTree := list (float * float).

Record TimeNeighborIndex := {
  radius_m : float;
  cone_half_angle : float;   (* [cone_half_angle_deg] *)
  time_to_tree : gmap Z (option KDTree);
  time_to_arr : gmap Z (list Point);
}.

(** [TimeNeighborIndex(radius_m, cone_half_angle_deg)]. *)
Definition init (radius cone : float) : TimeNeighborIndex :=
  {| radius_m := radius; cone_half_angle := cone;
     time_to_tree := ∅; time_to_arr := ∅ |}.

Section Build.
(** Whether scipy's [cKDTree] could be imported. *)
Context (have_kdtree : bool).

Definition build_group (self : TimeNeighborIndex) (tg : Z * list RegRow)
  : TimeNeighborIndex :=
  let '(t, g) := tg in
  let xy := List.map (fun r => (x_m r, y_m r)) g in
  {| radius_m := radius_m self;
     cone_half_angle := cone_half_angle self;
     time_to_tree :=
       <[t := if have_kdtree && (1 <? Z.of_nat (length xy))
              then Some xy else None]> (time_to_tree self);
     time_to_arr := <[t := List.map point_of g]> (time_to_arr self) |}.

Definition build (self : TimeNeighborIndex) (reg : list RegRow)
  : TimeNeighborIndex :=
  fold_left build_group (Frame.groupby r_time reg) self.
End Build.

Definition no_neighbours : SocialCovariates :=
  {| nn_dist := nan; n_forward := 0; n_behind := 0;
     ahead_any := 0; behind_any := 0;
     mean_align_fwd := nan; rel_speed_fwd := nan |}.

(** A candidate neighbour: offsets from the endpoint, distance, and the
    point it comes from. *)
Record Nb := {
  nb_dx : float;
  nb_dy : float;
  nb_dist : float;
  nb_pt : Point;
}.

Section Query.
Context `{Libm} `{Reductions}.

Definition candidate (x_end y_end : float) (p : Point) : Nb :=
  let dx := PrimFloat.sub (p_x p) x_end in
  let dy := PrimFloat.sub (p_y p) y_end in
  {| nb_dx := dx; nb_dy := dy; nb_dist := hypot dx dy; nb_pt := p |}.

(** [mask = (arr["id"] != focal_id) & np.isfinite(dist)]. *)
Definition mask (focal_id : Z) (n : Nb) : bool :=
  negb (p_id (nb_pt n) =? focal_id) && isfinite (nb_dist n).

(** [in_r = dist <= self.radius_m]. *)
Definition in_r (radius : float) (n : Nb) : bool :=
  PrimFloat.leb (nb_dist n) radius.

(** The neighbours that survive both masks, in array order. *)
Definition within_radius (radius : float) (arr : list Point)
    (x_end y_end : float) (focal_id : Z) : list Nb :=
  List.filter (in_r radius)
    (List.filter (mask focal_id) (List.map (candidate x_end y_end) arr)).

(** [((a - step_heading + np.pi) % (2*np.pi)) - np.pi]. *)
Definition wrap_to (step_heading a : float) : float :=
  PrimFloat.sub
    (remainder (PrimFloat.add (PrimFloat.sub a step_heading) pi) two_pi) pi.

Definition proj (step_heading : float) (n : Nb) : float :=
  let ux := sin step_heading in
  let uy := cos step_heading in
  PrimFloat.add (PrimFloat.mul (nb_dx n) ux) (PrimFloat.mul (nb_dy n) uy).

Definition ang_diff (step_heading : float) (n : Nb) : float :=
  PrimFloat.abs (wrap_to step_heading (arctan2 (nb_dx n) (nb_dy n))).

Definition forward (half step_heading : float) (n : Nb) : bool :=
  PrimFloat.ltb 0 (proj step_heading n)
  && PrimFloat.leb (ang_diff step_heading n) half.

Definition behind (half step_heading : float) (n : Nb) : bool :=
  PrimFloat.ltb (proj step_heading n) 0
  && PrimFloat.leb (ang_diff step_heading n) half.

(** [float(np.sum(m))] for a boolean array. *)
Definition count_true (f : Nb -> bool) (l : list Nb) : float :=
  of_Z (Z.of_nat (length (List.filter f l))).

Definition query_social (self : TimeNeighborIndex) (time : Z)
    (x_end y_end step_heading : float) (focal_id : Z) : SocialCovariates :=
  match time_to_arr self !! time with
  | None => no_neighbours
  | Some arr =>
      let nbs := within_radius (radius_m self) arr x_end y_end focal_id in
      match nbs with
      | [] => no_neighbours
      | _ :: _ =>
          let half := radians (cone_half_angle self) in
          let fwd := List.filter (forward half step_heading) nbs in
          let n_fwd := count_true (forward half step_heading) nbs in
          let n_bhd := count_true (behind half step_heading) nbs in
          let has_fwd := PrimFloat.ltb 0 n_fwd in
          {| nn_dist := np_min (List.map nb_dist nbs);
             n_forward := n_fwd;
             n_behind := n_bhd;
             ahead_any := if has_fwd then 1 else 0;
             behind_any := if PrimFloat.ltb 0 n_bhd then 1 else 0;
             mean_align_fwd :=
               if has_fwd
               then nanmean
                      (List.map (fun n => cos (wrap_to step_heading
                                                 (p_heading (nb_pt n)))) fwd)
               else nan;
             rel_speed_fwd :=
               if has_fwd
               then nanmean
                      (List.map (fun n => PrimFloat.sub (p_speed (nb_pt n)) 0)
                                fwd)
               else nan |}
      end
  end.
End Query.

End Social.

(** Python exceptions that the package lets escape. *)
Inductive Error :=
| ValueError (msg : string)
| KeyError (key : string)
| LibraryError (msg : string).   (* raised inside pandas or numpy for an
                                    argument outside their domain *)

(** ** regularize.py *)

Module Regularize.
Import Num.

Definition R_EARTH : float := 6371000%float.

(** A row of the input table.  [None] is a missing identifier, and a
    missing or unparseable timestamp ([NaT] after [pd.to_datetime(...,
    errors="coerce")]); a missing coordinate is NaN. *)
Record Fix := {
  fix_id : option Z;
  fix_time : option Z;
  fix_lon : float;
  fix_lat : float;
  fix_sex : option string;
}.

(** A row of [g]: after both [dropna] calls every field is present. *)
Record Obs := {
  o_id : Z;
  o_time : Z;
  o_lon : float;
  o_lat : float;
}.

Definition usable (f : Fix) : option Obs :=
  match fix_id f, fix_time f with
  | Some i, Some t =>
      if isnan (fix_lon f) || isnan (fix_lat f) then None
      else Some {| o_id := i; o_time := t; o_lon := fix_lon f; o_lat := fix_lat f |}
  | _, _ => None
  end.

(** [sort_values] and [sort_index] by time, keeping the order of ties. *)
Fixpoint insert_by_time (o : Obs) (l : list Obs) : list Obs :=
  match l with
  | [] => [o]
  | o' :: l' =>
      if o_time o <=? o_time o' then o :: l else o' :: insert_by_time o l'
  end.

Definition sort_by_time (l : list Obs) : list Obs :=
  fold_right insert_by_time [] l.

(** *** The grid of [resample(f"{dt}min")]

    Bins are closed on the left and labelled by their left edge; they are
    anchored at midnight of the day of the first timestamp. *)
Definition minute_ns : Z := 60 * 1000000000.
Definition day_ns : Z := 86400 * 1000000000.

Definition normalize (t : Z) : Z := t - t mod day_ns.

Definition grid_start (delta first : Z) : Z :=
  first - (first - normalize first) mod delta.

(** The label of the bin that holds [t]. *)
Definition bin_of (delta first t : Z) : Z :=
  let start := grid_start delta first in
  start + ((t - start) / delta) * delta.

Definition grid_length (delta first last : Z) : nat :=
  Z.to_nat ((last - grid_start delta first) / delta + 1).

Definition grid_labels (delta first last : Z) : list Z :=
  List.map (fun i => grid_start delta first + Z.of_nat i * delta)
           (seq 0 (grid_length delta first last)).

Definition in_bin (delta label : Z) (o : Obs) : bool :=
  (label <=? o_time o) && (o_time o <? label + delta).

(** *** [Series.interpolate(limit_direction="both")]

    Linear in the row position between the nearest defined cells
    ([np.interp]); before the first and after the last defined cell the
    nearest defined value is repeated. *)
Fixpoint last_defined (l : list float) (i : nat) : option (nat * float) :=
  match i with
  | O => None
  | S j =>
      let x := nth j l nan in
      if isnan x then last_defined l j else Some (j, x)
  end.

Fixpoint next_defined (l : list float) (i fuel : nat) : option (nat * float) :=
  match fuel with
  | O => None
  | S fuel' =>
      let x := nth i l nan in
      if isnan x then next_defined l (S i) fuel' else Some (i, x)
  end.

Definition interp (i : nat) (lo hi : nat * float) : float :=
  let slope :=
    PrimFloat.div (PrimFloat.sub (snd hi) (snd lo))
                  (PrimFloat.sub (of_Z (Z.of_nat (fst hi)))
                                 (of_Z (Z.of_nat (fst lo)))) in
  PrimFloat.add
    (PrimFloat.mul slope
       (PrimFloat.sub (of_Z (Z.of_nat i)) (of_Z (Z.of_nat (fst lo)))))
    (snd lo).

Definition interpolate (l : list float) : list float :=
  List.map
    (fun i =>
       let x := nth i l nan in
       if isnan x then
         match last_defined l i, next_defined l i (length l - i) with
         | Some lo, Some hi => interp i lo hi
         | Some lo, None => snd lo
         | None, Some hi => snd hi
         | None, None => nan
         end
       else x)
    (seq 0 (length l)).

Section WithKernels.
Context `{Libm} `{Reductions}.

Definition _haversine (lon1 lat1 lon2 lat2 : float) : float :=
  let lon1 := radians lon1 in
  let lat1 := radians lat1 in
  let lon2 := radians lon2 in
  let lat2 := radians lat2 in
  let dlon := PrimFloat.sub lon2 lon1 in
  let dlat := PrimFloat.sub lat2 lat1 in
  let sq x := PrimFloat.mul x x in
  let a :=
    PrimFloat.add
      (sq (sin (PrimFloat.div dlat 2)))
      (PrimFloat.mul (PrimFloat.mul (cos lat1) (cos lat2))
                     (sq (sin (PrimFloat.div dlon 2)))) in
  PrimFloat.mul (PrimFloat.mul 2 R_EARTH) (arcsin (PrimFloat.sqrt a)).

Definition _bearing (lon1 lat1 lon2 lat2 : float) : float :=
  let lon1 := radians lon1 in
  let lat1 := radians lat1 in
  let lon2 := radians lon2 in
  let lat2 := radians lat2 in
  let dlon := PrimFloat.sub lon2 lon1 in
  let y := PrimFloat.mul (sin dlon) (cos lat2) in
  let x :=
    PrimFloat.sub
      (PrimFloat.mul (cos lat1) (cos lat2))
      (PrimFloat.mul (PrimFloat.mul (sin lat1) (sin lat2)) (cos dlon)) in
  let ang := arctan2 y x in
  remainder (PrimFloat.add ang two_pi) two_pi.

Definition _to_local_xy (lon lat lon0 lat0 : float) : float * float :=
  let lon_r := radians lon in
  let lat_r := radians lat in
  let lon0_r := radians lon0 in
  let lat0_r := radians lat0 in
  (PrimFloat.mul (PrimFloat.mul R_EARTH (PrimFloat.sub lon_r lon0_r))
                 (cos lat0_r),
   PrimFloat.mul R_EARTH (PrimFloat.sub lat_r lat0_r)).

(** The columns of one individual after [resample(...).mean()] and the
    two [interpolate] calls: the grid labels with longitude and
    latitude. *)
Definition resample (delta : Z) (s : list Obs) : list (Z * float * float) :=
  match s with
  | [] => []
  | o0 :: _ =>
      let first := o_time o0 in
      let last := o_time (List.last s o0) in
      let labels := grid_labels delta first last in
      let cell (get : Obs -> float) (label : Z) :=
        mean (List.map get (List.filter (in_bin delta label) s)) in
      let lon := interpolate (List.map (cell o_lon) labels) in
      let lat := interpolate (List.map (cell o_lat) labels) in
      List.map (fun i => (nth i labels 0, nth i lon nan, nth i lat nan))
               (seq 0 (length labels))
  end.

(** The body of the loop over individuals: the grid rows of [sid] with
    their kinematics.  [offset] is the position of the first row in the
    concatenated table. *)
Definition grid_rows (cfg : Config) (lon0 lat0 : float) (offset : nat)
    (sid : Z) (s : list Obs) : list RegRow :=
  let delta := dt_minutes cfg * minute_ns in
  let g := resample delta (sort_by_time s) in
  let time := List.map (fun c => fst (fst c)) g in
  let lon := List.map (fun c => snd (fst c)) g in
  let lat := List.map snd g in
  let lon_prev := Frame.shift1 lon in
  let lat_prev := Frame.shift1 lat in
  let at_ (col : list float) (i : nat) := nth i col nan in
  let step_len :=
    List.map (fun i => _haversine (at_ lon_prev i) (at_ lat_prev i)
                                  (at_ lon i) (at_ lat i))
             (seq 0 (length g)) in
  let heading :=
    List.map (fun i => _bearing (at_ lon_prev i) (at_ lat_prev i)
                                (at_ lon i) (at_ lat i))
             (seq 0 (length g)) in
  let heading_prev := Frame.shift1 heading in
  let x := List.map (fun i => fst (_to_local_xy (at_ lon i) (at_ lat i) lon0 lat0))
                    (seq 0 (length g)) in
  let y := List.map (fun i => snd (_to_local_xy (at_ lon i) (at_ lat i) lon0 lat0))
                    (seq 0 (length g)) in
  let x_prev := Frame.shift1 x in
  let y_prev := Frame.shift1 y in
  List.map
    (fun i =>
       {| r_index := Z.of_nat (offset + i);
          r_id := sid;
          r_time := nth i time 0;
          r_lon := at_ lon i;
          r_lat := at_ lat i;
          lon_prev := at_ lon_prev i;
          lat_prev := at_ lat_prev i;
          step_len_m := at_ step_len i;
          heading_rad := at_ heading i;
          heading_prev_rad := at_ heading_prev i;
          turn_rad := turn_angle (at_ heading i) (at_ heading_prev i);
          speed_mps :=
            PrimFloat.div (at_ step_len i)
              (PrimFloat.mul (of_Z (dt_minutes cfg)) 60);
          x_m := at_ x i;
          y_m := at_ y i;
          x_prev := at_ x_prev i;
          y_prev := at_ y_prev i;
          r_sex := None |})
    (seq 0 (length g)).

(** [pd.concat(out, ignore_index=True)] over the groups, in key order. *)
Fixpoint concat_groups (cfg : Config) (lon0 lat0 : float) (offset : nat)
    (groups : list (Z * list Obs)) : list RegRow :=
  match groups with
  | [] => []
  | (sid, s) :: rest =>
      let rows := grid_rows cfg lon0 lat0 offset sid s in
      rows ++ concat_groups cfg lon0 lat0 (offset + length rows) rest
  end.

(** The sex carried by identifier: the mode of the known values. *)
Definition sex_of (df : list Fix) (i : Z) : option string :=
  mode_str
    (omap fix_sex
       (List.filter
          (fun f => match fix_id f with Some j => j =? i | None => false end)
          df)).

Definition with_sex (df : list Fix) (r : RegRow) : RegRow :=
  {| r_index := r_index r; r_id := r_id r; r_time := r_time r;
     r_lon := r_lon r; r_lat := r_lat r;
     lon_prev := lon_prev r; lat_prev := lat_prev r;
     step_len_m := step_len_m r; heading_rad := heading_rad r;
     heading_prev_rad := heading_prev_rad r; turn_rad := turn_rad r;
     speed_mps := speed_mps r; x_m := x_m r; y_m := y_m r;
     x_prev := x_prev r; y_prev := y_prev r;
     r_sex := sex_of df (r_id r) |}.

(** [dropna(subset=["lon_prev","lat_prev","step_len_m","x_prev","y_prev"])]. *)
Definition complete_prev (r : RegRow) : bool :=
  negb (isnan (lon_prev r)) && negb (isnan (lat_prev r))
  && negb (isnan (step_len_m r))
  && negb (isnan (x_prev r)) && negb (isnan (y_prev r)).

Definition regularize (df : list Fix) (cfg : Config) : Error + list RegRow :=
  let g := omap usable df in
  let lon0 := median (List.map o_lon g) in
  let lat0 := median (List.map o_lat g) in
  let groups := Frame.groupby o_id g in
  match groups with
  | [] => inl (ValueError "No objects to concatenate")
  | _ :: _ =>
      if dt_minutes cfg <=? 0
      then inl (LibraryError "resample: the frequency is not positive")
      else
        let reg := concat_groups cfg lon0 lat0 0 groups in
        let reg := if sex_col cfg then List.map (with_sex df) reg else reg in
        inr (List.filter complete_prev reg)
  end.
End WithKernels.

End Regularize.

(** A row of the used / available table of steps.py.  The column [log_l2]
    exists when [include_log_l2] is set. *)
Record DesignRow := {
  stratum_id : Z;
  d_id : Z;
  d_time : Z;
  x_end : float;
  y_end : float;
  heading_step : float;
  log_l : float;
  cos_turn : float;
  is_used : Z;
  log_l2 : option float;
}.

(** ** steps.py *)

Module Steps.
Import Num.

(** A numpy [Generator]: the stream of raw draws and the number of draws
    consumed so far.  A bounded draw takes the next raw value modulo the
    bound. *)
Record Generator := {
  stream : nat -> nat;
  consumed : nat;
}.

(** [np.random.default_rng(seed)]. *)
Class NumpyRandom := {
  default_rng : Z -> Generator;
}.

(** [rng.choice(pool, size=size, replace=True)] on a non-empty pool. *)
Definition choice (rng : Generator) (pool : list float) (size : nat)
  : list float * Generator :=
  (List.map
     (fun j => nth (stream rng (consumed rng + j) mod length pool)%nat pool nan)
     (seq 0 size),
   {| stream := stream rng; consumed := (consumed rng + size)%nat |}).

(** [Series.dropna().values]. *)
Definition dropna (l : list float) : list float :=
  List.filter (fun x => negb (isnan x)) l.

(** A row of the table [AvailableSampler.sample] returns. *)
Record AvailRow := {
  a_stratum_id : Z;
  a_id : Z;
  a_time : Z;
  a_x_end : float;
  a_y_end : float;
  a_heading_step : float;
  a_is_used : Z;
}.

(** [1e-9]. *)
Definition eps : float := 0x1.12e0be826d695p-30%float.

Section WithKernels.
Context `{Libm} `{NumpyRandom}.

(** The rows appended for one step [r]. *)
Definition sample_row (K : nat) (pool_len pool_turn : list float)
    (rng : Generator) (r : RegRow) : list AvailRow * Generator :=
  let '(lengths, rng1) := choice rng pool_len K in
  let '(turns, rng2) := choice rng1 pool_turn K in
  let h0 := if isfinite (heading_prev_rad r)
            then heading_prev_rad r else heading_rad r in
  let row (k : nat) :=
    let heading :=
      remainder
        (PrimFloat.add (PrimFloat.add h0 (nth k turns nan)) two_pi) two_pi in
    let dx := PrimFloat.mul (nth k lengths nan) (sin heading) in
    let dy := PrimFloat.mul (nth k lengths nan) (cos heading) in
    {| a_stratum_id := r_index r;
       a_id := r_id r;
       a_time := r_time r;
       a_x_end := PrimFloat.add (x_prev r) dx;
       a_y_end := PrimFloat.add (y_prev r) dy;
       a_heading_step := heading;
       a_is_used := 0 |} in
  (List.map row (seq 0 K), rng2).

(** The loop [for idx, r in steps.iterrows()].  A negative [K] makes
    [rng.choice] raise at the first row that reaches it. *)
Fixpoint sample_loop (K : Z) (pool_len pool_turn : list float)
    (rng : Generator) (steps : list RegRow) : Error + list AvailRow :=
  match steps with
  | [] => inr []
  | r :: rest =>
      if negb (isfinite (heading_rad r))
      then sample_loop K pool_len pool_turn rng rest
      else if K <? 0
      then inl (ValueError "negative dimensions are not allowed")
      else
        let '(rows, rng') :=
          sample_row (Z.to_nat K) pool_len pool_turn rng r in
        match sample_loop K pool_len pool_turn rng' rest with
        | inl e => inl e
        | inr more => inr (rows ++ more)
        end
  end.

(** [AvailableSampler(K, seed).sample(steps)]. *)
Definition sample (K seed : Z) (steps : list RegRow) : Error + list AvailRow :=
  let pool_len := dropna (List.map step_len_m steps) in
  let pool_turn := dropna (List.map turn_rad steps) in
  match pool_len, pool_turn with
  | [], _ | _, [] =>
      inl (ValueError "Not enough steps to sample available steps.")
  | _, _ => sample_loop K pool_len pool_turn (default_rng seed) steps
  end.

Definition square_if (b : bool) (x : float) : option float :=
  if b then Some (PrimFloat.mul x x) else None.

Definition used_row (cfg : Config) (r : RegRow) : DesignRow :=
  let ll := log (PrimFloat.add (step_len_m r) eps) in
  {| stratum_id := r_index r;
     d_id := r_id r;
     d_time := r_time r;
     x_end := x_m r;
     y_end := y_m r;
     heading_step := heading_rad r;
     log_l := ll;
     cos_turn := cos (turn_rad r);
     is_used := 1;
     log_l2 := square_if (include_log_l2 cfg) ll |}.

(** [steps.loc[labels, col].to_numpy()]: for each label, the cells of
    every row that carries it. *)
Definition loc (col : RegRow -> float) (steps : list RegRow) (labels : list Z)
  : list float :=
  flat_map
    (fun l => List.map col (List.filter (fun r => r_index r =? l) steps))
    labels.

Definition avail_row (cfg : Config) (a : AvailRow) (xp yp : float) : DesignRow :=
  let dx := PrimFloat.sub (a_x_end a) xp in
  let dy := PrimFloat.sub (a_y_end a) yp in
  let ll := log (PrimFloat.add (hypot dx dy) eps) in
  {| stratum_id := a_stratum_id a;
     d_id := a_id a;
     d_time := a_time a;
     x_end := a_x_end a;
     y_end := a_y_end a;
     heading_step := a_heading_step a;
     log_l := ll;
     cos_turn := 1;
     is_used := a_is_used a;
     log_l2 := square_if (include_log_l2 cfg) ll |}.

Fixpoint zip3 (avail : list AvailRow) (xs ys : list float)
  : list (AvailRow * float * float) :=
  match avail, xs, ys with
  | a :: avail', x :: xs', y :: ys' => (a, x, y) :: zip3 avail' xs' ys'
  | _, _, _ => []
  end.

Definition build_used_available (reg : list RegRow) (cfg : Config)
  : Error + list DesignRow :=
  let steps := reg in
  let used := List.map (used_row cfg) steps in
  match sample (K_available cfg) (seed cfg) steps with
  | inl e => inl e
  | inr [] => inl (KeyError "x_end")   (* an empty frame has no columns *)
  | inr avail =>
      let labels := List.map a_stratum_id avail in
      let xp := loc x_prev steps labels in
      let yp := loc y_prev steps labels in
      if negb (length xp =? length avail)%nat
      then inl (ValueError "operands could not be broadcast together")
      else
        inr (used ++
             List.map (fun c => avail_row cfg (fst (fst c)) (snd (fst c)) (snd c))
                      (zip3 avail xp yp))
  end.
End WithKernels.

End Steps.

(** ** design.py *)

Module Design.
Import Num Social.

(** A pandas column: numeric, or of another dtype. *)
Inductive Series :=
| NumSeries (values : list float)
| ObjSeries (values : list string).

(** A design row once the social columns and [sex_M] exist. *)
Record SocialRow := {
  base : DesignRow;
  soc : SocialCovariates;
  sex_M : option float;
}.

Inductive SocCol :=
| NnDist | NForward | NBehind | AheadAny | BehindAny
| MeanAlignFwd | RelSpeedFwd.

Definition get_soc (c : SocCol) (s : SocialCovariates) : float :=
  match c with
  | NnDist => nn_dist s
  | NForward => n_forward s
  | NBehind => n_behind s
  | AheadAny => ahead_any s
  | BehindAny => behind_any s
  | MeanAlignFwd => mean_align_fwd s
  | RelSpeedFwd => rel_speed_fwd s
  end.

Definition put_soc (c : SocCol) (v : float) (s : SocialCovariates)
  : SocialCovariates :=
  {| nn_dist := match c with NnDist => v | _ => nn_dist s end;
     n_forward := match c with NForward => v | _ => n_forward s end;
     n_behind := match c with NBehind => v | _ => n_behind s end;
     ahead_any := match c with AheadAny => v | _ => ahead_any s end;
     behind_any := match c with BehindAny => v | _ => behind_any s end;
     mean_align_fwd := match c with MeanAlignFwd => v | _ => mean_align_fwd s end;
     rel_speed_fwd := match c with RelSpeedFwd => v | _ => rel_speed_fwd s end |}.

Definition with_soc (f : SocialCovariates -> SocialCovariates) (r : SocialRow)
  : SocialRow :=
  {| base := base r; soc := f (soc r); sex_M := sex_M r |}.

Definition with_base (f : DesignRow -> DesignRow) (r : SocialRow) : SocialRow :=
  {| base := f (base r); soc := soc r; sex_M := sex_M r |}.

(** [design[c] = design[c].fillna(v)]. *)
Definition fillna_col (c : SocCol) (v : float) (rows : list SocialRow)
  : list SocialRow :=
  List.map (with_soc (fun s => put_soc c (fillna v (get_soc c s)) s)) rows.

(** [design[[ahead_any, behind_any, n_forward, n_behind]].fillna(0).sum(axis=1) == 0]. *)
Definition no_neighbors (r : SocialRow) : bool :=
  let cell c := fillna 0 (get_soc c (soc r)) in
  PrimFloat.eqb
    (PrimFloat.add
       (PrimFloat.add (PrimFloat.add (cell AheadAny) (cell BehindAny))
                      (cell NForward))
       (cell NBehind))
    0.

(** The block "Fill social NaNs deterministically" of [add_social]. *)
Definition fill_social (radius : float) (rows : list SocialRow)
  : list SocialRow :=
  let d1 :=
    fold_left (fun d c => fillna_col c 0 d)
              [AheadAny; BehindAny; NForward; NBehind] rows in
  let d2 :=
    List.map (fun r =>
                if no_neighbors r && isnan (nn_dist (soc r))
                then with_soc (put_soc NnDist radius) r else r) d1 in
  let d3 := fillna_col NnDist radius d2 in
  fold_left (fun d c => fillna_col c 0 d) [MeanAlignFwd; RelSpeedFwd] d3.

(** The block "Drop strata with invalid cos_turn". *)
Definition bad_cos_turn (r : SocialRow) : bool :=
  negb (isfinite (cos_turn (base r))).

Definition drop_bad_strata (rows : list SocialRow) : list SocialRow :=
  if existsb bad_cos_turn rows then
    let bad_strata :=
      List.map (fun r => stratum_id (base r)) (List.filter bad_cos_turn rows) in
    List.filter
      (fun r => negb (existsb (Z.eqb (stratum_id (base r))) bad_strata)) rows
  else rows.

(** [sexM_by_id]: upper-cased, starts with "M". *)
Definition starts_with_M (s : string) : bool :=
  match s with
  | String c _ => Ascii.eqb c "M"%char || Ascii.eqb c "m"%char
  | EmptyString => false
  end.

Section WithKernels.
Context `{Libm} `{Reductions}.

Definition _zscore (s : option Series) : option Series :=
  match s with
  | None => None
  | Some (ObjSeries _) => s
  | Some (NumSeries v) =>
      let m := nanmean v in
      let sd := nanstd v in
      if negb (isfinite sd) || PrimFloat.eqb sd 0
      then Some (NumSeries (List.map (fun x => PrimFloat.sub x m) v))
      else Some (NumSeries
                   (List.map (fun x => PrimFloat.div (PrimFloat.sub x m) sd) v))
  end.

(** [design[c] = _zscore(design[c])] for a float column. *)
Definition zscore_col (get : SocialRow -> float)
    (put : float -> SocialRow -> SocialRow) (rows : list SocialRow)
  : list SocialRow :=
  match _zscore (Some (NumSeries (List.map get rows))) with
  | Some (NumSeries v) => zip_with put v rows
  | _ => rows
  end.

(** The columns of [to_standardize] that exist, with their accessors. *)
Definition set_log_l v := with_base (fun d =>
  {| stratum_id := stratum_id d; d_id := d_id d; d_time := d_time d;
     x_end := x_end d; y_end := y_end d; heading_step := heading_step d;
     log_l := v; cos_turn := cos_turn d; is_used := is_used d;
     log_l2 := log_l2 d |}).
Definition set_log_l2 v := with_base (fun d =>
  {| stratum_id := stratum_id d; d_id := d_id d; d_time := d_time d;
     x_end := x_end d; y_end := y_end d; heading_step := heading_step d;
     log_l := log_l d; cos_turn := cos_turn d; is_used := is_used d;
     log_l2 := Some v |}).
Definition set_cos_turn v := with_base (fun d =>
  {| stratum_id := stratum_id d; d_id := d_id d; d_time := d_time d;
     x_end := x_end d; y_end := y_end d; heading_step := heading_step d;
     log_l := log_l d; cos_turn := v; is_used := is_used d;
     log_l2 := log_l2 d |}).

Definition to_standardize (cfg : Config)
  : list ((SocialRow -> float) * (float -> SocialRow -> SocialRow)) :=
  [(fun r => log_l (base r), set_log_l)]
  ++ (if include_log_l2 cfg
      then [(fun r => default nan (log_l2 (base r)), set_log_l2)] else [])
  ++ [(fun r => cos_turn (base r), set_cos_turn)]
  ++ List.map (fun c => (fun r => get_soc c (soc r),
                         fun v => with_soc (put_soc c v)))
              [NnDist; NForward; NBehind; MeanAlignFwd; RelSpeedFwd].

(** [sexM_by_id] looked up for one identifier; [None] is pandas' NaN. *)
Definition sexM_by_id (reg : list RegRow) (i : Z) : option float :=
  match Frame.group_at r_id i reg with
  | [] => None
  | g =>
      let known := omap r_sex g in
      let label := match mode_str known with
                   | Some s => s
                   | None => "nan"%string
                   end in
      Some (if starts_with_M label then 1%float else 0%float)
  end.

Definition add_sex_M (cfg : Config) (reg : list RegRow) (r : SocialRow)
  : SocialRow :=
  if sex_col cfg
  then {| base := base r; soc := soc r;
          sex_M := Some (default 0%float (sexM_by_id reg (d_id (base r)))) |}
  else r.

(** The loop over [design.itertuples()]: one query per row, with the
    row's own time, endpoint, heading and identifier. *)
Definition query_row (ni : TimeNeighborIndex) (d : DesignRow) : SocialRow :=
  {| base := d;
     soc := query_social ni (d_time d) (x_end d) (y_end d)
                         (heading_step d) (d_id d);
     sex_M := None |}.

Definition add_social (have_kdtree : bool) (design : list DesignRow)
    (reg : list RegRow) (cfg : Config) : list SocialRow :=
  let ni := build have_kdtree
              (init (neighbor_radius_m cfg) (cone_half_angle_deg cfg)) reg in
  let d1 := List.map (query_row ni) design in
  let d2 := List.map (add_sex_M cfg reg) d1 in
  let d3 := fill_social (neighbor_radius_m cfg) d2 in
  let d4 := drop_bad_strata d3 in
  fold_left (fun d gp => zscore_col (fst gp) (snd gp) d)
            (to_standardize cfg) d4.
End WithKernels.

End Design.

(** ** validate.py *)

Module Validate.
Import Num Design.

(** The names a formula can list. *)
Inductive Col :=
| LogL | LogL2 | CosTurn | Soc (c : SocCol) | SexM.

Definition col_value (c : Col) (r : SocialRow) : float :=
  match c with
  | LogL => log_l (base r)
  | LogL2 => default nan (log_l2 (base r))
  | CosTurn => cos_turn (base r)
  | Soc c => get_soc c (soc r)
  | SexM => default nan (sex_M r)
  end.

(** [ConditionalLogit(y, X, groups=g).fit(disp=False)]: the arguments of
    one call, and the backend that answers with the parameters or with
    the text of the exception it raised. *)
Record FitCall := {
  call_y : list Z;
  call_X : list (list float);
  call_groups : list Z;
}.

Class Backend := {
  statsmodels_available : bool;
  fit : FitCall -> string + list float;
}.

(** *** Fold labels *)

Section Labels.
Context {Row : Type} (id_of time_of : Row -> Z).

(** [sort_values(["id","time"])]: rows with equal keys keep their
    order. *)
Definition key_le (a b : Row) : bool :=
  (id_of a <? id_of b) || ((id_of a =? id_of b) && (time_of a <=? time_of b)).

Fixpoint insert_row (a : Row) (l : list Row) : list Row :=
  match l with
  | [] => [a]
  | b :: l' => if key_le a b then a :: l else b :: insert_row a l'
  end.

Definition sort_values (l : list Row) : list Row := fold_right insert_row [] l.

(** [groupby("id")["time"].rank(method="first")] for the row [r] that
    comes after the rows [before] in the table [d]: one more than the
    rows of the same individual with a smaller time, or with the same
    time and an earlier position. *)
Definition rank_first (d before : list Row) (r : Row) : Z :=
  1
  + Z.of_nat (length (List.filter
                        (fun r' => (id_of r' =? id_of r) && (time_of r' <? time_of r)) d))
  + Z.of_nat (length (List.filter
                        (fun r' => (id_of r' =? id_of r) && (time_of r' =? time_of r))
                        before)).

Record Labeled := {
  row : Row;
  t_rank : Z;
  t_fold : Z;
}.

Fixpoint label_from (k : Z) (d before rest : list Row) : list Labeled :=
  match rest with
  | [] => []
  | r :: rest' =>
      let rk := rank_first d before r in
      {| row := r; t_rank := rk; t_fold := rk mod k |}
      :: label_from k d (before ++ [r]) rest'
  end.

(** The table [d] with its columns [t_rank] and [t_fold]; [k] is not 0. *)
Definition fold_labels (design : list Row) (k : Z) : list Labeled :=
  let d := sort_values design in
  label_from k d [] d.
End Labels.

Arguments row {Row} _.
Arguments t_rank {Row} _.
Arguments t_fold {Row} _.

(** *** Scores of a held-out fold *)

(** A grouped [max]: NaN is skipped. *)
Definition nanmax (l : list float) : float :=
  fold_left (fun acc x =>
               if isnan x then acc
               else if isnan acc then x
               else if PrimFloat.ltb acc x then x else acc)
            l nan.

Record Metrics := {
  m_log_score : list float;
  m_rank_mean : list float;
  m_rank_top1 : list float;
  m_errors : list string;
}.

Definition no_metrics : Metrics :=
  {| m_log_score := []; m_rank_mean := []; m_rank_top1 := []; m_errors := [] |}.

(** The dictionary the function returns: a key is present when its list
    was appended to. *)
Record CVOut := {
  log_score : option float;
  rank_mean : option float;
  rank_top1 : option float;
  errors : option (list string);
}.

Section WithKernels.
Context `{Libm} `{Reductions} `{Backend}.

Definition stratum_of (r : SocialRow) : Z := stratum_id (base r).

(** [softmax_by_stratum(lp, strata)], one probability per row. *)
Definition softmax_by_stratum (lp : list float) (strata : list Z) : list float :=
  let df := combine lp strata in
  let expo (c : float * Z) : float :=
    let grp := List.filter (fun c' => snd c' =? snd c) df in
    exp (PrimFloat.sub (fst c) (nanmax (List.map fst grp))) in
  List.map
    (fun c =>
       let grp := List.filter (fun c' => snd c' =? snd c) df in
       PrimFloat.div (expo c) (nansum (List.map expo grp)))
    df.

(** [groupby("stratum_id")["lp"].rank(ascending=False, method="min")]. *)
Definition rank_desc_min (lp : list float) (strata : list Z) : list float :=
  let df := combine lp strata in
  List.map
    (fun c =>
       if isnan (fst c) then nan
       else
         of_Z (1 + Z.of_nat
                     (length (List.filter
                                (fun c' => (snd c' =? snd c)
                                           && PrimFloat.ltb (fst c) (fst c'))
                                df))))
    df.

Definition select {A} (mask : list bool) (l : list A) : list A :=
  List.map snd (List.filter fst (combine mask l)).

(** The three numbers appended for a fold once the fit has returned. *)
Definition score_fold (cols : list Col) (params : list float)
    (test : list SocialRow) : float * float * float :=
  let eta := List.map (fun r => dot (List.map (fun c => col_value c r) cols) params)
                      test in
  let strata := List.map stratum_of test in
  let p := softmax_by_stratum eta strata in
  let used_mask := List.map (fun r => is_used (base r) =? 1) test in
  let p_used := select used_mask p in
  let ranks := rank_desc_min eta strata in
  let rank_used := select used_mask ranks in
  (mean (List.map (fun q => PrimFloat.opp (log q)) p_used),
   mean rank_used,
   mean (List.map (fun r => if PrimFloat.eqb r 1 then 1%float else 0%float)
                  rank_used)).

Definition train_call (cols : list Col) (d : list (Labeled (Row := SocialRow)))
    (f : Z) : FitCall :=
  let train := List.map row (List.filter (fun l => negb (t_fold l =? f)) d) in
  {| call_y := List.map (fun r => is_used (base r)) train;
     call_X := List.map (fun r => List.map (fun c => col_value c r) cols) train;
     call_groups := List.map stratum_of train |}.

Definition test_rows (d : list (Labeled (Row := SocialRow))) (f : Z)
  : list SocialRow :=
  List.map row (List.filter (fun l => t_fold l =? f) d).

(** The loop [for f in range(k)], with the calls made to the backend.
    An exception of the fit is recorded and ends the loop ([break]). *)
Fixpoint cv_loop (cols : list Col) (d : list (Labeled (Row := SocialRow)))
    (folds : list Z) (metrics : Metrics) (calls : list FitCall)
  : Metrics * list FitCall :=
  match folds with
  | [] => (metrics, calls)
  | f :: rest =>
      let call := train_call cols d f in
      match fit call with
      | inl e =>
          ({| m_log_score := m_log_score metrics;
              m_rank_mean := m_rank_mean metrics;
              m_rank_top1 := m_rank_top1 metrics;
              m_errors := m_errors metrics ++ [e] |},
           calls ++ [call])
      | inr params =>
          let '(ls, rm, t1) := score_fold cols params (test_rows d f) in
          cv_loop cols d rest
            {| m_log_score := m_log_score metrics ++ [ls];
               m_rank_mean := m_rank_mean metrics ++ [rm];
               m_rank_top1 := m_rank_top1 metrics ++ [t1];
               m_errors := m_errors metrics |}
            (calls ++ [call])
      end
  end.

Definition mean_if_any (v : list float) : option float :=
  match v with
  | [] => None
  | _ => Some (np_mean v)
  end.

Definition aggregate (metrics : Metrics) : CVOut :=
  {| log_score := mean_if_any (m_log_score metrics);
     rank_mean := mean_if_any (m_rank_mean metrics);
     rank_top1 := mean_if_any (m_rank_top1 metrics);
     errors := match m_errors metrics with
               | [] => None
               | es => Some es
               end |}.

Definition range (k : Z) : list Z := List.map Z.of_nat (seq 0 (Z.to_nat k)).

(** [kfold_time_cv(design, cols, k)] together with the calls it made to
    the backend. *)
Definition kfold_time_cv_run (design : list SocialRow) (cols : list Col) (k : Z)
  : Error + (CVOut * list FitCall) :=
  if negb statsmodels_available
  then inl (LibraryError "No module named 'statsmodels'")
  else
    match design with
    | _ :: _ =>
        if k =? 0
        then inl (ValueError "Cannot convert non-finite values (NA or inf) to integer")
        else
          let d := fold_labels (fun r => d_id (base r)) (fun r => d_time (base r))
                               design k in
          let '(metrics, calls) := cv_loop cols d (range k) no_metrics [] in
          inr (aggregate metrics, calls)
    | [] =>
        let '(metrics, calls) := cv_loop cols [] (range k) no_metrics [] in
        inr (aggregate metrics, calls)
    end.

Definition kfold_time_cv (design : list SocialRow) (cols : list Col) (k : Z)
  : Error + CVOut :=
  match kfold_time_cv_run design cols k with
  | inl e => inl e
  | inr (out, _) => inr out
  end.
End WithKernels.

End Validate.

(** ** analysis_social.py *)

Module AnalysisSocial.
Import Num Social.

(** A row of the table [lead_follow_posthoc] returns. *)
Record LeadRow := {
  l_id : Z;
  l_time : Z;
  lead_future : Z;
}.

Section WithKernels.
Context `{Libm}.

(** [reg[(reg[time_col] == tp) & (reg[id_col] != sid)]]. *)
Definition others_at (reg : list RegRow) (tp sid : Z) : list RegRow :=
  List.filter (fun r => (r_time r =? tp) && negb (r_id r =? sid)) reg.

(** The body of the inner loop for the row [g.iloc[i]] of the individual
    [sid]: [None] where the code says [continue]. *)
Definition lead_row (cfg : Config) (reg : list RegRow) (sid : Z)
    (row : RegRow) : option LeadRow :=
  let step := dt_minutes cfg * Regularize.minute_ns in
  let half := radians (cone_half_angle_deg cfg) in
  let t := r_time row in
  let tp := t + step in
  let h := heading_rad row in
  if negb (isfinite h) then None
  else
    match others_at reg tp sid with
    | [] => None
    | others =>
        let cand :=
          List.map (fun o => candidate (x_m row) (y_m row) (point_of o))
                   others in
        let lead :=
          if negb (existsb (in_r (neighbor_radius_m cfg)) cand) then 0
          else if existsb (behind half h)
                    (List.filter (in_r (neighbor_radius_m cfg)) cand)
               then 1 else 0 in
        Some {| l_id := sid; l_time := t; lead_future := lead |}
    end.

(** [lead_follow_posthoc(reg, cfg)]: the rows of each individual in time
    order, the first one left out ([range(1, len(g))]). *)
Definition lead_follow_posthoc (reg : list RegRow) (cfg : Config)
  : list LeadRow :=
  flat_map
    (fun sg => omap (lead_row cfg reg (fst sg)) (tl (snd sg)))
    (Frame.groupby r_id (Validate.sort_values r_id r_time reg)).
End WithKernels.

End AnalysisSocial.

(** ** cli/main.py *)

Module Cli.
Import Num Steps.

Section WithKernels.
Context `{Libm} `{Reductions} `{NumpyRandom}.

(** The table that the command [design] writes: [regularize] on the raw
    fixes, [build_used_available] on its rows, [add_social] on both.
    Reading the configuration and the CSV, the cleaning pass (its result
    is written to a file and not read again) and the writing of the table
    are left out. *)
Definition design (have_kdtree : bool) (raw : list Regularize.Fix)
    (c : Config) : Error + list Design.SocialRow :=
  match Regularize.regularize raw c with
  | inl e => inl e
  | inr reg =>
      match build_used_available reg c with
      | inl e => inl e
      | inr dsg => inr (Design.add_social have_kdtree dsg reg c)
      end
  end.
End WithKernels.

End Cli.

(** ** Executable instances of the interfaces

    These instances let the development run on concrete tables.  The libm
    functions are short truncated series: they return the exact values that
    C requires at the special arguments ([sin 0 = 0], [cos 0 = 1],
    [atan2 0 1 = 0], [hypot x 0 = |x|], [exp 0 = 1], [log 1 = 0]) and a few
    correct digits elsewhere.  The reductions add from left to right.  No
    theorem depends on them: they are only used to evaluate examples. *)

Module Reference.
Import Num.

Local Open Scope float_scope.

Definition wrap_pi (x : float) : float := remainder (x + pi) two_pi - pi.

Definition sin_series (x : float) : float :=
  let r := wrap_pi x in
  let q := r * r in
  r * (1 - q / 6 * (1 - q / 20 * (1 - q / 42 * (1 - q / 72 * (1 - q / 110 *
      (1 - q / 156 * (1 - q / 210 * (1 - q / 272 * (1 - q / 342))))))))).

Definition cos_series (x : float) : float :=
  let r := wrap_pi x in
  let q := r * r in
  1 - q / 2 * (1 - q / 12 * (1 - q / 30 * (1 - q / 56 * (1 - q / 90 *
      (1 - q / 132 * (1 - q / 182 * (1 - q / 240 * (1 - q / 306 *
      (1 - q / 380))))))))).

(** [atan] on [-1, 1]: two halvings of the angle, then the series. *)
Definition atan_unit (z : float) : float :=
  let half t := t / (1 + PrimFloat.sqrt (1 + t * t)) in
  let t := half (half z) in
  let q := t * t in
  4 * (t * (1 - q * (1 / 3 - q * (1 / 5 - q * (1 / 7 - q * (1 / 9
                                                            - q * (1 / 11))))))).

Definition atan_series (z : float) : float :=
  if PrimFloat.abs z <=? 1 then atan_unit z
  else if 0 <? z then pi / 2 - atan_unit (1 / z)
  else - (pi / 2) - atan_unit (1 / z).

Definition atan2_series (y x : float) : float :=
  if 0 <? x then atan_series (y / x)
  else if x <? 0 then
    (if y <? 0 then atan_series (y / x) - pi else atan_series (y / x) + pi)
  else if 0 <? y then pi / 2
  else if y <? 0 then - (pi / 2)
  else y + x.

Definition asin_series (x : float) : float :=
  atan2_series x (PrimFloat.sqrt (1 - x * x)).

Definition hypot_sqrt (x y : float) : float := PrimFloat.sqrt (x * x + y * y).

Fixpoint square_times (n : nat) (x : float) : float :=
  match n with
  | O => x
  | S n' => square_times n' (x * x)
  end.

Definition exp_series (x : float) : float :=
  let t := x / 1024 in
  square_times 10
    (1 + t * (1 + t / 2 * (1 + t / 3 * (1 + t / 4 * (1 + t / 5 * (1 + t / 6)))))).

Definition ln2 : float := 0x1.62e42fefa39efp-1.

Definition log_series (x : float) : float :=
  if is_nan x || (x <? 0) then nan
  else if x =? 0 then neg_infinity
  else if is_infinity x then x
  else
    let '(m, e) := Z.frexp x in
    let '(m, e) := if m <? 0.75 then (2 * m, (e - 1)%Z) else (m, e) in
    let t := (m - 1) / (m + 1) in
    let q := t * t in
    of_Z e * ln2
    + 2 * (t * (1 + q * (1 / 3 + q * (1 / 5 + q * (1 / 7 + q * (1 / 9
                                                                 + q * (1 / 11))))))).

#[export] Instance libm : Libm := {
  sin := sin_series;
  cos := cos_series;
  arcsin := asin_series;
  arctan2 := atan2_series;
  hypot := hypot_sqrt;
  log := log_series;
  exp := exp_series;
}.

Definition sum_left (l : list float) : float := fold_left PrimFloat.add l 0.

Definition defined (l : list float) : list float :=
  List.filter (fun x => negb (isnan x)) l.

Definition mean_left (l : list float) : float :=
  sum_left l / of_Z (Z.of_nat (length l)).

Definition nanmean_left (l : list float) : float := mean_left (defined l).

Definition nanstd_left (l : list float) : float :=
  let m := nanmean_left l in
  PrimFloat.sqrt (nanmean_left (List.map (fun x => (x - m) * (x - m)) l)).

Fixpoint insert_float (x : float) (l : list float) : list float :=
  match l with
  | [] => [x]
  | y :: l' => if x <=? y then x :: l else y :: insert_float x l'
  end.

Definition median_sorted (l : list float) : float :=
  let s := fold_right insert_float [] (defined l) in
  let n := length s in
  match n with
  | O => nan
  | _ =>
      if Nat.even n
      then (nth (n / 2 - 1)%nat s nan + nth (n / 2)%nat s nan) / 2
      else nth (n / 2)%nat s nan
  end.

Definition occurrences (s : string) (l : list string) : nat :=
  length (List.filter (String.eqb s) l).

(** The most frequent value; among equally frequent ones the smallest. *)
Definition mode_first (l : list string) : option string :=
  fold_left
    (fun best s =>
       match best with
       | None => Some s
       | Some b =>
           if (occurrences b l <? occurrences s l)%nat
              || ((occurrences b l =? occurrences s l)%nat && String.ltb s b)
           then Some s else best
       end)
    l None.

Fixpoint dot_left (a b : list float) : float :=
  match a, b with
  | x :: a', y :: b' => x * y + dot_left a' b'
  | _, _ => 0
  end.

#[export] Instance reductions : Reductions := {
  mean := nanmean_left;
  nanmean := nanmean_left;
  nanstd := nanstd_left;
  median := median_sorted;
  mode_str := mode_first;
  np_mean := mean_left;
  nansum := fun l => sum_left (defined l);
  dot := dot_left;
}.

(** A stream of raw draws for the Generator (a linear congruence, kept
    below 1024 so that the draws stay small unary numbers). *)
#[export] Instance numpy_random : Steps.NumpyRandom := {
  Steps.default_rng := fun seed =>
    {| Steps.stream := fun n =>
         Z.to_nat (((Z.abs seed + 1) * (1103515245 * Z.of_nat n + 12345)
                    mod 2147483648) / 2097152);
       Steps.consumed := 0 |};
}.

(** A stand-in for statsmodels: the fit raises when the training rows hold
    no used step, and returns all-zero parameters otherwise. *)
#[export] Instance backend : Validate.Backend := {
  Validate.statsmodels_available := true;
  Validate.fit := fun call =>
    if existsb (Z.eqb 1) (Validate.call_y call)
    then inr (List.map (fun _ => 0) (hd [] (Validate.call_X call)))
    else inl "Singular matrix"%string;
}.

End Reference.

(** ** Notions used to state the properties

    The definitions below do not model code: they name the parts of a table
    that the theorems of Part II speak about. *)

Module Props.

(** *** Neighbour queries *)

(** The rows of two tables are the same wherever the timestamp is [t];
    elsewhere only identifier and timestamp have to agree. *)
Definition same_outside (t : Z) (r1 r2 : RegRow) : Prop :=
  r_id r1 = r_id r2 /\ r_time r1 = r_time r2 /\ (r_time r1 = t -> r1 = r2).

(** *** The missing-value pass *)

Section FillRow.
Import Num Social Design.

(** What the pass does to one row: every social cell is [fillna]-ed, with
    the radius for [nn_dist] and 0 for the other columns. *)
Definition fill_row (radius : float) (r : SocialRow) : SocialRow :=
  with_soc (fun s =>
    {| nn_dist := fillna radius (nn_dist s);
       n_forward := fillna 0 (n_forward s);
       n_behind := fillna 0 (n_behind s);
       ahead_any := fillna 0 (ahead_any s);
       behind_any := fillna 0 (behind_any s);
       mean_align_fwd := fillna 0 (mean_align_fwd s);
       rel_speed_fwd := fillna 0 (rel_speed_fwd s) |}) r.

End FillRow.

(** *** Choice sets *)

Section Strata.
Import Num Steps.
Context `{Libm}.

Definition has_label (l : Z) (r : RegRow) : bool := r_index r =? l.

Definition in_stratum (l : Z) (d : DesignRow) : bool := stratum_id d =? l.

Definition avail_in_stratum (l : Z) (a : AvailRow) : bool := a_stratum_id a =? l.

(** What [sample] writes for the [k]-th alternative of the step [r], from
    the drawn length and turn. *)
Definition alternative (r : RegRow) (len turn : float) : AvailRow :=
  let h0 := if isfinite (heading_prev_rad r)
            then heading_prev_rad r else heading_rad r in
  let heading :=
    remainder (PrimFloat.add (PrimFloat.add h0 turn) two_pi) two_pi in
  {| a_stratum_id := r_index r;
     a_id := r_id r;
     a_time := r_time r;
     a_x_end := PrimFloat.add (x_prev r) (PrimFloat.mul len (sin heading));
     a_y_end := PrimFloat.add (y_prev r) (PrimFloat.mul len (cos heading));
     a_heading_step := heading;
     a_is_used := 0 |}.

(** The cell that [steps.loc[label, col]] reads when the label is that of
    one row. *)
Definition cell (col : RegRow -> float) (steps : list RegRow) (l : Z) : float :=
  match List.filter (has_label l) steps with
  | r :: _ => col r
  | [] => nan
  end.

(** The design row of a sampled row. *)
Definition design_of (cfg : Config) (reg : list RegRow) (a : AvailRow)
  : DesignRow :=
  avail_row cfg a (cell x_prev reg (a_stratum_id a))
                  (cell y_prev reg (a_stratum_id a)).

Definition is_used_eq (v : Z) (d : DesignRow) : bool := is_used d =? v.

(** What the table holds for one step: its used row, and the [K]
    alternatives when the heading of the step is finite. *)
Definition stratum_ok (cfg : Config) (reg : list RegRow) (r : RegRow)
    (S : list DesignRow) : Prop :=
  if isfinite (heading_rad r) then
    length S = Datatypes.S (Z.to_nat (K_available cfg)) /\
    List.filter (is_used_eq 1) S = [used_row cfg r] /\
    length (List.filter (is_used_eq 0) S) = Z.to_nat (K_available cfg) /\
    Forall (fun d => stratum_id d = r_index r /\ d_id d = r_id r
                     /\ d_time d = r_time r) S /\
    Forall (fun d =>
              is_used d = 0 ->
              exists len turn,
                In len (dropna (List.map step_len_m reg)) /\
                In turn (dropna (List.map turn_rad reg)) /\
                heading_step d
                = remainder
                    (PrimFloat.add
                       (PrimFloat.add
                          (if isfinite (heading_prev_rad r)
                           then heading_prev_rad r else heading_rad r) turn)
                       two_pi) two_pi /\
                x_end d = PrimFloat.add (x_prev r)
                            (PrimFloat.mul len (sin (heading_step d))) /\
                y_end d = PrimFloat.add (y_prev r)
                            (PrimFloat.mul len (cos (heading_step d)))) S
  else S = [used_row cfg r].

End Strata.

(** *** Cross-validation *)

Section Folds.
Import Num Design Validate.
Context `{Libm} `{Reductions} `{Backend}.

Definition cv_labels (design : list SocialRow) (k : Z)
  : list (Labeled (Row := SocialRow)) :=
  fold_labels (fun r => d_id (base r)) (fun r => d_time (base r)) design k.

Context (cols : list Col) (d : list (Labeled (Row := SocialRow))).

(** The numbers a fold contributes when its fit returns. *)
Definition scores_of (f : Z) : float * float * float :=
  match fit (train_call cols d f) with
  | inr params => score_fold cols params (test_rows d f)
  | inl _ => (nan, nan, nan)
  end.

Definition fits (f : Z) : Prop :=
  exists params, fit (train_call cols d f) = inr params.

Definition extend (metrics : Metrics) (done : list Z) : Metrics :=
  {| m_log_score :=
       m_log_score metrics ++ List.map (fun f => fst (fst (scores_of f))) done;
     m_rank_mean :=
       m_rank_mean metrics ++ List.map (fun f => snd (fst (scores_of f))) done;
     m_rank_top1 :=
       m_rank_top1 metrics ++ List.map (fun f => snd (scores_of f)) done;
     m_errors := m_errors metrics |}.

End Folds.

Section Keys.
Import Validate.
Context {Row : Type} (id_of time_of : Row -> Z).

(** The order of [sort_values(["id","time"])]. *)
Definition key_order (a b : Row) : Prop :=
  id_of a < id_of b \/ (id_of a = id_of b /\ time_of a <= time_of b).

Definition same_id (i : Z) (r : Row) : bool := id_of r =? i.

Definition count_id (i : Z) (l : list Row) : nat :=
  length (List.filter (same_id i) l).

Definition labeled_id (i : Z) (l : Labeled (Row := Row)) : bool :=
  same_id i (row l).

Definition same_keys (a b : Row) : Prop :=
  id_of a = id_of b /\ time_of a = time_of b.

End Keys.

(** *** Grid rows *)

Section Grid.
Import Num Regularize.
Context `{Libm} `{Reductions}.

(** The grid rows of all individuals without the first row of each. *)
Fixpoint concat_tails (cfg : Config) (lon0 lat0 : float) (offset : nat)
    (groups : list (Z * list Obs)) : list RegRow :=
  match groups with
  | [] => []
  | (sid, s) :: rest =>
      let rows := grid_rows cfg lon0 lat0 offset sid s in
      tl rows ++ concat_tails cfg lon0 lat0 (offset + length rows) rest
  end.

(** The sex column is carried along; it does not touch the other cells. *)
Definition carry_sex (cfg : Config) (df : list Fix) (reg : list RegRow)
  : list RegRow :=
  if sex_col cfg then List.map (with_sex df) reg else reg.

(** [t] lies in the first interval of the grid anchored on the day of
    [anchor]. *)
Definition same_bin (delta anchor t : Z) : Prop :=
  bin_of delta anchor t = grid_start delta anchor.

End Grid.

End Props.

(** ** Further notions used to state properties

    As in [Props], nothing here models code. *)

Module Notions.
Import Num Design.

(** *** The order of binary64 numbers *)

(** A number that is not NaN, as a point of a lexicographic order: the sign
    class first, then exponent and significand (negated below zero). *)
Definition order_key (f : spec_float) : Z * Z * Z :=
  match f with
  | S754_zero _ => (0, 0, 0)
  | S754_infinity false => (2, 0, 0)
  | S754_infinity true => (-2, 0, 0)
  | S754_nan => (0, 0, 0)
  | S754_finite false m e => (1, e, Z.pos m)
  | S754_finite true m e => (-1, - e, - Z.pos m)
  end.

Definition key_lt (a b : Z * Z * Z) : Prop :=
  fst (fst a) < fst (fst b) \/
  (fst (fst a) = fst (fst b) /\
   (snd (fst a) < snd (fst b) \/
    (snd (fst a) = snd (fst b) /\ snd a < snd b))).

(** *** Strata of the design table *)

Definition stratum_is (s : Z) (r : SocialRow) : bool := stratum_id (base r) =? s.

(** Some row of the stratum [s] has a [cos_turn] that is not finite. *)
Definition stratum_bad (rows : list SocialRow) (s : Z) : bool :=
  existsb (fun r => bad_cos_turn r && stratum_is s r) rows.

(** The columns of a design row that identify the step and its endpoint. *)
Definition identity (d : DesignRow) : Z * Z * Z * float * float * float * Z :=
  (stratum_id d, d_id d, d_time d, x_end d, y_end d, heading_step d, is_used d).

(** Some row of the stratum of [d] has a [cos_turn] that is not finite. *)
Definition in_bad_stratum (design : list DesignRow) (d : DesignRow) : bool :=
  existsb (fun d' => negb (isfinite (cos_turn d'))
                     && (stratum_id d' =? stratum_id d)) design.

(** *** Steps and rows of the regularized table *)

(** A step whose heading is finite, the ones that get alternatives. *)
Definition has_heading (r : RegRow) : bool := isfinite (heading_rad r).

(** A row comes before another: a smaller identifier, or the same one
    and an earlier time. *)
Definition row_before (a b : RegRow) : Prop :=
  r_id a < r_id b \/ (r_id a = r_id b /\ r_time a < r_time b).

End Notions.

(** ** Small tables for the examples of Part II *)

Module Examples.
Import Num.

Definition minutes (m : Z) : Z := m * Regularize.minute_ns.

(** Ten-minute grid, two alternatives per step, 50 m radius, 90 degree
    cone. *)
Definition cfg : Config :=
  {| dt_minutes := 10; K_available := 2;
     neighbor_radius_m := 50; cone_half_angle_deg := 90;
     include_cos_turn := true; include_log_l := true; include_log_l2 := true;
     seed := 42; sex_col := false |}.

Definition cfg_one_alternative : Config :=
  {| dt_minutes := 10; K_available := 1;
     neighbor_radius_m := 50; cone_half_angle_deg := 90;
     include_cos_turn := true; include_log_l := true; include_log_l2 := true;
     seed := 42; sex_col := false |}.

(** A regularized row at planar position (x, y), reached from (xp, yp). *)
Definition step (index id time : Z) (xp yp x y heading heading_prev : float)
  : RegRow :=
  {| r_index := index; r_id := id; r_time := time;
     r_lon := 0; r_lat := 0; lon_prev := 0; lat_prev := 0;
     step_len_m := 10; heading_rad := heading;
     heading_prev_rad := heading_prev; turn_rad := 0.5; speed_mps := 1;
     x_m := x; y_m := y; x_prev := xp; y_prev := yp; r_sex := None |}.

(** Two individuals on two timestamps; in [later_moved] the rows of the
    second timestamp are somewhere else. *)
Definition two_times : list RegRow :=
  [step 0 1 0 0 0 0 10 0 0; step 1 2 0 5 5 5 15 0 0;
   step 2 1 (minutes 10) 0 10 0 20 0 0; step 3 2 (minutes 10) 5 15 5 25 0 0].

Definition later_moved : list RegRow :=
  [step 0 1 0 0 0 0 10 0 0; step 1 2 0 5 5 5 15 0 0;
   step 2 1 (minutes 10) 0 10 300 400 1 0; step 3 2 (minutes 10) 5 15 (-70) 8 2 1].

(** Individual 2 stands 50 m east of the origin at time 0. *)
Definition at_radius : RegRow := step 0 2 0 40 0 50 0 0 0.

(** A table whose first step has no defined heading. *)
Definition heading_missing : list RegRow :=
  [step 0 1 0 0 0 0 10 nan nan; step 1 1 (minutes 10) 0 10 0 20 0 0].

Definition fix_at (id time : Z) (lon lat : float) : Regularize.Fix :=
  {| Regularize.fix_id := Some id; Regularize.fix_time := Some time;
     Regularize.fix_lon := lon; Regularize.fix_lat := lat;
     Regularize.fix_sex := None |}.

(** An individual with two fixes, ten minutes apart. *)
Definition two_fixes : list Regularize.Fix :=
  [fix_at 1 0 0 0; fix_at 1 (minutes 10) 0 0].

(** An individual with two fixes in the same ten-minute interval. *)
Definition two_fixes_one_bin : list Regularize.Fix :=
  [fix_at 1 (minutes 1) 0 0; fix_at 1 (minutes 4) 0 0].

(** Rows (identifier, time) for the fold labels. *)
Definition id_time_rows : list (Z * Z) :=
  [(1, 30); (2, 5); (1, 10); (1, 20); (2, 7)].

Definition design_row (stratum id time used : Z) : Design.SocialRow :=
  {| Design.base :=
       {| stratum_id := stratum; d_id := id; d_time := time;
          x_end := 0; y_end := 0; heading_step := 0;
          log_l := 1; cos_turn := 1; is_used := used; log_l2 := Some 1%float |};
     Design.soc := Social.no_neighbours;
     Design.sex_M := Some 0%float |}.

(** One individual, a used row at the first time and an unused row at the
    second: with two folds the training rows of fold 1 hold no used row. *)
Definition cv_design : list Design.SocialRow :=
  [design_row 0 1 10 1; design_row 1 1 20 0].

End Examples.

(** ** More small tables *)

Module MoreExamples.
Import Num Examples.

(** No alternative per step. *)
Definition cfg_no_alternative : Config :=
  {| dt_minutes := 10; K_available := 0;
     neighbor_radius_m := 50; cone_half_angle_deg := 90;
     include_cos_turn := true; include_log_l := true; include_log_l2 := true;
     seed := 42; sex_col := false |}.

(** A fix whose identifier is missing. *)
Definition fix_without_id : Regularize.Fix :=
  {| Regularize.fix_id := None; Regularize.fix_time := Some 0;
     Regularize.fix_lon := 0; Regularize.fix_lat := 0;
     Regularize.fix_sex := None |}.

(** An individual with three fixes, ten minutes apart. *)
Definition three_fixes : list Regularize.Fix :=
  [fix_at 1 0 0 0; fix_at 1 (minutes 10) 0 0; fix_at 1 (minutes 20) 0 0].

(** Two individuals, each with a fix at time 0 and one twenty minutes
    later, the rows of the two mixed. *)
Definition two_sharks : list Regularize.Fix :=
  [fix_at 2 0 0 0; fix_at 1 0 0 0;
   fix_at 1 (minutes 20) 0 0; fix_at 2 (minutes 20) 0 0].

(** One individual with a used row at each of two times: with two folds
    the training rows of either fold hold a used row. *)
Definition cv_design_fitted : list Design.SocialRow :=
  [design_row 0 1 10 1; design_row 1 1 20 1].

(** Two individuals on three timestamps. *)
Definition three_times : list RegRow :=
  two_times
  ++ [step 4 1 (minutes 20) 0 20 0 30 0 0; step 5 2 (minutes 20) 5 25 5 35 0 0].

End MoreExamples.

(* ===================================================================== *)
(** * Part II.  Theorems                                                  *)
(* ===================================================================== *)

Example remainder_two_pi : Num.remainder Num.two_pi Num.two_pi = 0%float.
Proof. vm_compute. reflexivity. Qed.

Example remainder_examples :
  Num.remainder 7%float 3%float = 1%float /\
  Num.remainder (-7)%float 3%float = 2%float /\
  Num.remainder 7%float (-3)%float = (-2)%float /\
  Num.remainder 0x1p-70%float 3%float = 0x1p-70%float /\
  Num.remainder (-0x1p-70)%float 3%float = 3%float /\
  Num.remainder 5.5%float 0.25%float = 0%float.
Proof. vm_compute. repeat split. Qed.

(** ** The wrap of a heading difference (regularize.py, column [turn_rad]) *)

Section TurnAngle.

Local Open Scope R_scope.

Lemma Rpymod_floor (x y : R) :
  0 < y -> y * IZR (Int_part (x / y)) <= x < y * IZR (Int_part (x / y)) + y.
Proof.
  intros Hy.
  destruct (base_Int_part (x / y)) as [Hlo Hhi].
  assert (Hx : x = y * (x / y)) by (field; lra).
  split.
  - rewrite Hx at 2. apply Rmult_le_compat_l; lra.
  - rewrite Hx at 1.
    replace (y * IZR (Int_part (x / y)) + y)
      with (y * (IZR (Int_part (x / y)) + 1)) by ring.
    apply Rmult_lt_compat_l; lra.
Qed.

Lemma Rpymod_range (x y : R) : 0 < y -> 0 <= Rpymod x y < y.
Proof.
  intros Hy. unfold Rpymod.
  destruct (Rpymod_floor x y Hy). lra.
Qed.

Lemma Rpymod_multiple (y : R) (n : Z) : 0 < y -> Rpymod (y * IZR n) y = 0.
Proof.
  intros Hy. unfold Rpymod.
  replace (y * IZR n / y) with (IZR n) by (field; lra).
  rewrite <- (Int_part_spec (IZR n) n) by lra. ring.
Qed.

(** The value computed on binary64 numbers for a difference of exactly
    [np.pi]. *)
Lemma turn_angle_float_pi :
  turn_angle (A := float) Num.pi 0%float = (- Num.pi)%float.
Proof. vm_compute. reflexivity. Qed.

Lemma turn_angle_real_congruent_pi (h hp : R) (n : Z) :
  h - hp = PI + 2 * PI * IZR n -> turn_angle h hp = - PI.
Proof.
  assert (Hpi : 0 < 2 * PI) by (pose proof PI_RGT_0; lra).
  intros Hn. unfold turn_angle; cbn [a_add a_sub a_mod a_pi a_two_pi real_angle].
  replace (h - hp + PI) with (2 * PI * IZR (n + 1)).
  - rewrite Rpymod_multiple by exact Hpi. ring.
  - rewrite plus_IZR, Hn. ring.
Qed.



End TurnAngle.


(** ** Facts about binary64 comparisons *)

Section FloatFacts.
Import Num.

Lemma isnan_spec (x : float) : isnan x = negb (SFeqb (Prim2SF x) (Prim2SF x)).
Proof. unfold isnan, PrimFloat.is_nan. rewrite FloatAxioms.eqb_spec. reflexivity. Qed.

Lemma isfinite_not_nan (x : float) : isfinite x = true -> isnan x = false.
Proof.
  unfold isfinite, PrimFloat.is_finite, isnan.
  destruct (PrimFloat.is_nan x); simpl; congruence.
Qed.

Lemma SFcompare_refl (s : spec_float) :
  SFeqb s s = true -> SFcompare s s = Some Eq.
Proof. unfold SFeqb. destruct (SFcompare s s) as [[| |]|]; congruence. Qed.

(** [x <= x] holds for every number that is not NaN. *)
Lemma leb_refl (x : float) : isnan x = false -> PrimFloat.leb x x = true.
Proof.
  rewrite isnan_spec, leb_spec. intros Hx.
  apply negb_false_iff in Hx. unfold SFleb.
  rewrite (SFcompare_refl _ Hx). reflexivity.
Qed.

(** Two numbers that compare equal are the same number, unless both are
    zeros (of either sign). *)
Lemma SFcompare_Eq_eq (a b : spec_float) :
  SFcompare a b = Some Eq -> SFltb (S754_zero false) b = true -> a = b.
Proof.
  destruct a as [sa|sa| |sa ma ea], b as [sb|sb| |sb mb eb];
    unfold SFltb; simpl; try discriminate;
    intros Hc Hp; destruct sa, sb; simpl in *;
    try discriminate; try reflexivity.
  destruct (Z.compare_spec ea eb) as [-> | |]; try discriminate.
  rewrite Pos.compare_cont_spec in Hc; simpl in Hc.
  destruct (Pos.compare_spec ma mb) as [-> | |]; simpl in Hc; congruence.
Qed.

Lemma float_eq_of_compare (x r : float) :
  PrimFloat.leb x r = true -> PrimFloat.ltb x r = false ->
  PrimFloat.ltb 0 r = true -> x = r.
Proof.
  rewrite leb_spec, !ltb_spec. unfold SFleb, SFltb at 1.
  intros Hle Hlt Hpos. apply Prim2SF_inj.
  apply SFcompare_Eq_eq; [| exact Hpos].
  destruct (SFcompare (Prim2SF x) (Prim2SF r)) as [[| |]|]; congruence.
Qed.

Lemma minimum_cases (a b : float) : minimum a b = a \/ minimum a b = b.
Proof. unfold minimum. destruct (_ || _); auto. Qed.

Lemma fold_minimum_In (l : list float) (x : float) :
  fold_left minimum l x = x \/ In (fold_left minimum l x) l.
Proof.
  revert x. induction l as [|y l IH]; intros x; simpl; [auto|].
  destruct (IH (minimum x y)) as [E|Hin]; [|auto].
  rewrite E. destruct (minimum_cases x y) as [->| ->]; auto.
Qed.

(** [np.min] of a non-empty array is one of its entries. *)
Lemma np_min_In (l : list float) : l <> [] -> In (np_min l) l.
Proof.
  destruct l as [|x l]; [congruence|]. intros _. simpl.
  destruct (fold_minimum_In l x); auto.
Qed.

End FloatFacts.

(** ** Exact operations on binary64 numbers

    The lemmas below unfold the specification of division and subtraction
    ([SpecFloat]) on a number that is in range. *)

Ltac zfold :=
  change IntDef.Z.add with Z.add in *;
  change IntDef.Z.sub with Z.sub in *;
  change IntDef.Z.mul with Z.mul in *;
  change IntDef.Z.opp with Z.opp in *;
  change IntDef.Z.min with Z.min in *;
  change IntDef.Z.max with Z.max in *;
  change IntDef.Z.leb with Z.leb in *;
  change IntDef.Z.eqb with Z.eqb in *;
  change IntDef.Z.div_eucl with Z.div_eucl in *;
  change IntDef.Z.shiftl with Z.shiftl in *.

Ltac flt_step :=
  cbn [shr shr_record_of_loc round_nearest_even loc_of_shr_record
       shr_m shr_r shr_s Zdigits2].

Lemma bounded_cases (mx : positive) (ex : Z) :
  SpecFloat.bounded prec emax mx ex = true ->
  ex <= 971 /\ ((Z.pos (digits2_pos mx) = 53 /\ -1074 < ex) \/
               (ex = -1074 /\ Z.pos (digits2_pos mx) <= 53)).
Proof.
  unfold SpecFloat.bounded, canonical_mantissa, fexp, SpecFloat.emin, prec, emax.
  intros Hb. apply andb_true_iff in Hb as [Hc He].
  apply Z.eqb_eq in Hc. apply Z.leb_le in He. lia.
Qed.

Lemma fexp_canonical (mx : positive) (ex : Z) :
  SpecFloat.bounded prec emax mx ex = true ->
  fexp prec emax (Z.pos (digits2_pos mx) + ex) = ex.
Proof.
  unfold SpecFloat.bounded, canonical_mantissa. intros Hb.
  apply andb_true_iff in Hb as [Hc _]. apply Z.eqb_eq in Hc. exact Hc.
Qed.

Lemma round_aux_exact (sx : bool) (mx : positive) (ex : Z) :
  SpecFloat.bounded prec emax mx ex = true ->
  binary_round_aux prec emax sx (Z.pos mx) ex loc_Exact = S754_finite sx mx ex.
Proof.
  intros Hb. pose proof (fexp_canonical mx ex Hb) as Hf.
  destruct (bounded_cases mx ex Hb) as [Hle _].
  unfold binary_round_aux, shr_fexp. simpl Zdigits2. zfold.
  rewrite Hf, Z.sub_diag. flt_step.
  rewrite Hf, Z.sub_diag. flt_step.
  replace (ex <=? emax - prec) with true; [reflexivity|].
  symmetry. apply Z.leb_le. unfold emax, prec. lia.
Qed.

Lemma round_aux_double (sx : bool) (mx : positive) (ex : Z) :
  SpecFloat.bounded prec emax mx ex = true -> -1074 < ex ->
  Z.pos (digits2_pos mx) = 53 ->
  binary_round_aux prec emax sx (Z.pos mx~0) (ex - 1) loc_Exact
  = S754_finite sx mx ex.
Proof.
  intros Hb Hlo Hd. pose proof (fexp_canonical mx ex Hb) as Hf.
  destruct (bounded_cases mx ex Hb) as [Hle _].
  unfold binary_round_aux, shr_fexp. simpl Zdigits2. zfold.
  replace (fexp prec emax (Z.pos (Pos.succ (digits2_pos mx)) + (ex - 1)) - (ex - 1))
    with 1.
  2:{ rewrite Pos2Z.inj_succ. 
      replace (Z.succ (Z.pos (digits2_pos mx)) + (ex - 1)) with (Z.pos (digits2_pos mx) + ex) by lia.
      rewrite Hf. lia. }
  flt_step. cbn [SpecFloat.iter_pos shr_1].
  replace (ex - 1 + 1) with ex by lia. cbn [orb]. flt_step.
  rewrite Hf, Z.sub_diag. flt_step.
  replace (ex <=? emax - prec) with true; [reflexivity|].
  symmetry. apply Z.leb_le. unfold emax, prec. lia.
Qed.

Lemma div_eucl_mul (q b : Z) : 0 < b -> Z.div_eucl (q * b) b = (q, 0).
Proof.
  intros Hb. rewrite (surjective_pairing (Z.div_eucl (q * b) b)).
  change (fst (Z.div_eucl (q * b) b)) with ((q * b) / b).
  change (snd (Z.div_eucl (q * b) b)) with ((q * b) mod b).
  rewrite Z.div_mul, Z.mod_mul by lia. reflexivity.
Qed.

Lemma SFdiv_one (sx : bool) (mx : positive) (ex : Z) :
  SpecFloat.bounded prec emax mx ex = true ->
  SFdiv prec emax (S754_finite sx mx ex) (S754_finite false 4503599627370496 (-52))
  = S754_finite sx mx ex.
Proof.
  intros Hb. destruct (bounded_cases mx ex Hb) as [Hle Hcase].
  unfold SFdiv, SFdiv_core_binary. zfold.
  change (Zdigits2 (Z.pos mx)) with (Z.pos (digits2_pos mx)).
  change (Zdigits2 4503599627370496) with 53.
  rewrite xorb_false_r.
  destruct Hcase as [[Hd Hlo] | [He Hd]].
  - replace (Z.min (fexp prec emax (Z.pos (digits2_pos mx) + ex - (53 + -52))) (ex - -52))
      with (ex - 1).
    2:{ unfold fexp, SpecFloat.emin, prec, emax. lia. }
    replace (ex - -52 - (ex - 1)) with 53 by lia.
    cbv zeta. cbv iota beta.
    rewrite Z.shiftl_mul_pow2 by lia.
    replace (Z.pos mx * 2 ^ 53) with (Z.pos mx~0 * 4503599627370496) by (change (2^53) with (2 * 4503599627370496); lia).
    rewrite div_eucl_mul by lia.
    change (new_location 4503599627370496 0) with loc_Exact.
    apply round_aux_double; auto.
  - replace (Z.min (fexp prec emax (Z.pos (digits2_pos mx) + ex - (53 + -52))) (ex - -52))
      with ex.
    2:{ unfold fexp, SpecFloat.emin, prec, emax. lia. }
    replace (ex - -52 - ex) with 52 by lia.
    cbv zeta. cbv iota beta.
    rewrite Z.shiftl_mul_pow2 by lia.
    change (2 ^ 52) with 4503599627370496.
    rewrite div_eucl_mul by lia.
    change (new_location 4503599627370496 0) with loc_Exact.
    apply round_aux_exact; auto.
Qed.

(** Division by one and subtraction of zero are exact. *)
Lemma float_div_one (x : float) : PrimFloat.div x 1 = x.
Proof.
  apply Prim2SF_inj. rewrite div_spec.
  change (Prim2SF 1) with (S754_finite false 4503599627370496 (-52)).
  pose proof (Prim2SF_valid x) as Hv.
  destruct (Prim2SF x) as [s|s| |s m e]; simpl.
  - rewrite xorb_false_r. reflexivity.
  - rewrite xorb_false_r. reflexivity.
  - reflexivity.
  - apply SFdiv_one. exact Hv.
Qed.

Lemma float_sub_zero (x : float) : PrimFloat.sub x 0 = x.
Proof.
  apply Prim2SF_inj. rewrite sub_spec.
  change (Prim2SF 0) with (S754_zero false).
  destruct (Prim2SF x) as [[|]|s| |s m e]; reflexivity.
Qed.

(** A zero of either sign. *)
Lemma float_eqb_zero (m : float) :
  PrimFloat.eqb m 0 = true -> exists s, Prim2SF m = S754_zero s.
Proof.
  rewrite FloatAxioms.eqb_spec. change (Prim2SF 0) with (S754_zero false).
  unfold SFeqb. destruct (Prim2SF m) as [s|s| |s mm e]; simpl; eauto;
    try discriminate; destruct s; discriminate.
Qed.

(** Subtracting a zero changes at most the sign of a zero. *)
Lemma float_sub_any_zero (x m : float) :
  PrimFloat.eqb m 0 = true ->
  PrimFloat.sub x m = x \/ PrimFloat.eqb (PrimFloat.sub x m) x = true.
Proof.
  intros Hm. destruct (float_eqb_zero m Hm) as (s & Hs).
  assert (E : Prim2SF (PrimFloat.sub x m) = Prim2SF x
              \/ (exists a b, Prim2SF (PrimFloat.sub x m) = S754_zero a
                              /\ Prim2SF x = S754_zero b)).
  { rewrite sub_spec, Hs.
    destruct (Prim2SF x) as [[|]|sx| |sx mx ex], s; simpl; eauto. }
  destruct E as [E | (a & b & Ea & Eb)].
  - left. apply Prim2SF_inj. exact E.
  - right. rewrite FloatAxioms.eqb_spec, Ea, Eb. reflexivity.
Qed.
(** ** Grouping *)

Section GroupKeys.

Lemma In_insert_key (k a : Z) (ks : list Z) :
  In k (Frame.insert_key a ks) <-> k = a \/ In k ks.
Proof.
  induction ks as [|k' ks IH]; simpl.
  - intuition.
  - destruct (Z.ltb_spec a k'); [simpl; intuition|].
    destruct (Z.eqb_spec a k'); simpl.
    + subst. intuition.
    + rewrite IH. intuition.
Qed.

Lemma In_group_keys (k : Z) (l : list Z) :
  In k (Frame.group_keys l) <-> In k l.
Proof.
  induction l as [|a l IH]; simpl; [tauto|].
  rewrite In_insert_key, IH. intuition.
Qed.

End GroupKeys.

(** ** The neighbour index reads one timestamp (covariates/social.py) *)

Section TimeExact.
Import Social Props.
Context `{Num.Libm} `{Num.Reductions}.
Context (have_kdtree : bool).

Lemma build_group_params (self : TimeNeighborIndex) (tg : Z * list RegRow) :
  radius_m (build_group have_kdtree self tg) = radius_m self /\
  cone_half_angle (build_group have_kdtree self tg) = cone_half_angle self.
Proof. destruct tg. split; reflexivity. Qed.

Lemma fold_build_params (gs : list (Z * list RegRow)) (self : TimeNeighborIndex) :
  radius_m (fold_left (build_group have_kdtree) gs self) = radius_m self /\
  cone_half_angle (fold_left (build_group have_kdtree) gs self)
    = cone_half_angle self.
Proof.
  revert self. induction gs as [|g gs IH]; intros self; simpl; [tauto|].
  destruct (IH (build_group have_kdtree self g)) as [-> ->].
  apply build_group_params.
Qed.

(** After the loop of [build], the entry of a timestamp is the group of
    that timestamp, and a timestamp that no row carries has no entry. *)
Lemma fold_build_lookup (reg : list RegRow) (t : Z) (keys : list Z)
    (self : TimeNeighborIndex) :
  time_to_arr
    (fold_left (build_group have_kdtree)
       (List.map (fun k => (k, Frame.group_at r_time k reg)) keys) self) !! t
  = if existsb (Z.eqb t) keys
    then Some (List.map point_of (Frame.group_at r_time t reg))
    else time_to_arr self !! t.
Proof.
  revert self. induction keys as [|k keys IH]; intros self; simpl.
  - reflexivity.
  - rewrite IH. destruct (existsb (Z.eqb t) keys).
    + rewrite orb_true_r. reflexivity.
    + rewrite orb_false_r. simpl.
      destruct (Z.eqb_spec t k) as [->|Hne].
      * apply lookup_insert_eq.
      * apply lookup_insert_ne. congruence.
Qed.

Lemma existsb_eqb_In (t : Z) (l : list Z) :
  existsb (Z.eqb t) l = true <-> In t l.
Proof.
  rewrite existsb_exists. split.
  - intros (x & Hx & E). apply Z.eqb_eq in E. congruence.
  - intros Hin. exists t. split; [exact Hin | apply Z.eqb_refl].
Qed.

Lemma existsb_group_keys (t : Z) (l : list Z) :
  existsb (Z.eqb t) (Frame.group_keys l) = existsb (Z.eqb t) l.
Proof.
  apply eq_true_iff_eq. rewrite !existsb_eqb_In. apply In_group_keys.
Qed.

Lemma build_lookup (radius cone : float) (reg : list RegRow) (t : Z) :
  time_to_arr (build have_kdtree (init radius cone) reg) !! t
  = if existsb (Z.eqb t) (List.map r_time reg)
    then Some (List.map point_of (Frame.group_at r_time t reg))
    else None.
Proof.
  unfold build, Frame.groupby.
  rewrite fold_build_lookup, existsb_group_keys. reflexivity.
Qed.

Lemma same_outside_group (t : Z) (reg1 reg2 : list RegRow) :
  Forall2 (same_outside t) reg1 reg2 ->
  Frame.group_at r_time t reg1 = Frame.group_at r_time t reg2.
Proof.
  unfold Frame.group_at.
  induction 1 as [|r1 r2 l1 l2 (_ & Ht & Heq) _ IH]; simpl; [reflexivity|].
  rewrite <- Ht.
  destruct (Z.eqb_spec (r_time r1) t) as [E|E]; [|exact IH].
  rewrite (Heq E) in *. congruence.
Qed.

(** A timestamp has rows exactly when its group is not empty. *)
Lemma group_present (t : Z) (reg : list RegRow) :
  existsb (Z.eqb t) (List.map r_time reg)
  = negb (Nat.eqb (length (Frame.group_at r_time t reg)) 0).
Proof.
  unfold Frame.group_at.
  induction reg as [|r reg IH]; simpl; [reflexivity|].
  rewrite Z.eqb_sym. destruct (r_time r =? t); simpl; [reflexivity | exact IH].
Qed.

(** A query is a function of the group of its timestamp alone. *)
Lemma query_social_reads_group (radius cone : float) (reg1 reg2 : list RegRow)
    (t : Z) (x_end y_end step_heading : float) (focal_id : Z) :
  Frame.group_at r_time t reg1 = Frame.group_at r_time t reg2 ->
  query_social (build have_kdtree (init radius cone) reg1)
               t x_end y_end step_heading focal_id
  = query_social (build have_kdtree (init radius cone) reg2)
                 t x_end y_end step_heading focal_id.
Proof.
  intros Hg. unfold query_social.
  rewrite !build_lookup, !group_present, Hg.
  unfold build.
  destruct (fold_build_params (Frame.groupby r_time reg1) (init radius cone))
    as [-> ->].
  destruct (fold_build_params (Frame.groupby r_time reg2) (init radius cone))
    as [-> ->].
  reflexivity.
Qed.

(** C1: two tables that differ only in rows whose timestamp is not the
    query's give the same [query_social] record. *)
Theorem query_social_time_exact (radius cone : float)
    (reg1 reg2 : list RegRow) (t : Z)
    (x_end y_end step_heading : float) (focal_id : Z) :
  Forall2 (same_outside t) reg1 reg2 ->
  query_social (build have_kdtree (init radius cone) reg1)
               t x_end y_end step_heading focal_id
  = query_social (build have_kdtree (init radius cone) reg2)
                 t x_end y_end step_heading focal_id.
Proof.
  intros Hsame. apply query_social_reads_group.
  exact (same_outside_group t reg1 reg2 Hsame).
Qed.

End TimeExact.

(** ** The missing-value policy of [add_social] (design.py) *)

Section MissingValues.
Import Num Social Design Props.

Lemma Forall2_map_same {A B : Type} (R : A -> B -> Prop) (f : A -> B)
    (l : list A) :
  (forall a, R a (f a)) -> Forall2 R l (List.map f l).
Proof. intros HR. induction l; simpl; constructor; auto. Qed.

Lemma fillna_idem (v x : float) :
  isnan x = true -> fillna v (fillna v x) = fillna v x.
Proof. intros Hx. unfold fillna. rewrite Hx. destruct (isnan v); reflexivity. Qed.

(** Writing the radius where no neighbour was counted is absorbed by the
    [fillna] that follows it. *)
Lemma nn_default_absorbed (radius : float) (c : bool) (r : SocialRow) :
  with_soc (fun s => put_soc NnDist (fillna radius (get_soc NnDist s)) s)
    (if c && isnan (nn_dist (soc r))
     then with_soc (put_soc NnDist radius) r else r)
  = with_soc (fun s => put_soc NnDist (fillna radius (get_soc NnDist s)) s) r.
Proof.
  destruct r as [b [nn nf nb aa ba ma rs] sx].
  destruct c; [|reflexivity].
  cbn [andb soc nn_dist].
  destruct (isnan nn) eqn:Hnn; [|reflexivity].
  unfold with_soc, put_soc; cbn [base soc sex_M get_soc nn_dist n_forward n_behind
                                 ahead_any behind_any mean_align_fwd rel_speed_fwd].
  do 2 f_equal. unfold fillna. rewrite Hnn. destruct (isnan radius); reflexivity.
Qed.

Lemma fill_social_rowwise (radius : float) (rows : list SocialRow) :
  fill_social radius rows = List.map (fill_row radius) rows.
Proof.
  unfold fill_social, fillna_col. cbn [fold_left]. rewrite !List.map_map.
  apply List.map_ext. intros r. cbv beta.
  rewrite nn_default_absorbed.
  destruct r as [b [nn nf nb aa ba ma rs] sx]. reflexivity.
Qed.

(** C7: after the missing-value pass, in every row an undefined count or
    presence indicator is 0, an undefined nearest-neighbour distance is
    the configured radius, undefined mean alignment and relative speed are
    0; cells that were defined keep their value. *)
Theorem fill_social_policy (radius : float) (rows : list SocialRow) :
  Forall2
    (fun r0 r =>
       base r = base r0 /\ sex_M r = sex_M r0 /\
       (forall c, c <> NnDist -> isnan (get_soc c (soc r0)) = true ->
                  get_soc c (soc r) = 0%float) /\
       (isnan (nn_dist (soc r0)) = true -> nn_dist (soc r) = radius) /\
       (forall c, isnan (get_soc c (soc r0)) = false ->
                  get_soc c (soc r) = get_soc c (soc r0)))
    rows (fill_social radius rows).
Proof.
  rewrite fill_social_rowwise. apply Forall2_map_same.
  intros [b [nn nf nb aa ba ma rs] sx]. unfold fill_row, with_soc; simpl.
  repeat split.
  - intros c Hc Hnan. destruct c; simpl in *; try congruence;
      unfold fillna; rewrite Hnan; reflexivity.
  - intros Hnan. unfold fillna. rewrite Hnan. reflexivity.
  - intros c Hdef. destruct c; simpl in *; unfold fillna; rewrite Hdef;
      reflexivity.
Qed.

End MissingValues.

(** ** The radius test is inclusive (covariates/social.py, design.py) *)

Section RadiusBoundary.
Import Num Social Design Props.
Context `{Libm} `{Reductions}.
Context (have_kdtree : bool).

Lemma build_radius (radius cone : float) (reg : list RegRow) :
  radius_m (build have_kdtree (init radius cone) reg) = radius.
Proof.
  unfold build.
  destruct (fold_build_params have_kdtree (Frame.groupby r_time reg)
              (init radius cone)) as [-> _].
  reflexivity.
Qed.

Lemma build_lookup_present (radius cone : float) (reg : list RegRow) (r : RegRow) :
  In r reg ->
  time_to_arr (build have_kdtree (init radius cone) reg) !! r_time r
  = Some (List.map point_of (Frame.group_at r_time (r_time r) reg)).
Proof.
  intros Hin. rewrite build_lookup.
  replace (existsb (Z.eqb (r_time r)) (List.map r_time reg)) with true;
    [reflexivity|].
  symmetry. apply existsb_eqb_In. apply in_map. exact Hin.
Qed.

(** The neighbours within the radius are the candidates of the rows of
    the query's timestamp that pass both masks. *)
Lemma In_within_radius (radius : float) (reg : list RegRow) (t : Z)
    (x_end y_end : float) (focal_id : Z) (n : Nb) :
  In n (within_radius radius
          (List.map point_of (Frame.group_at r_time t reg))
          x_end y_end focal_id)
  <-> exists r, In r reg /\ r_time r = t /\
                n = candidate x_end y_end (point_of r) /\
                mask focal_id n = true /\ in_r radius n = true.
Proof.
  unfold within_radius, Frame.group_at.
  rewrite !filter_In, in_map_iff. split.
  - intros [[(p & <- & Hp) Hm] Hr].
    apply in_map_iff in Hp as (r & <- & Hr').
    apply filter_In in Hr' as [Hreg Ht]. apply Z.eqb_eq in Ht.
    exists r. auto.
  - intros (r & Hreg & Ht & -> & Hm & Hr).
    split; [split|]; auto.
    exists (point_of r). split; [reflexivity|].
    apply in_map. apply filter_In. split; [exact Hreg|].
    apply Z.eqb_eq. exact Ht.
Qed.

(** C10: a conspecific of the query's timestamp whose distance to the
    endpoint is exactly the radius is within the radius; the query then
    returns a defined nearest-neighbour distance, at most the radius; and
    when no other conspecific is strictly closer that distance is the
    radius itself, the value that the missing-value pass writes for "no
    neighbour found". *)
Theorem radius_boundary_inclusive (radius cone : float) (reg : list RegRow)
    (r : RegRow) (x_end y_end step_heading : float) (focal_id : Z)
    (d : DesignRow) (sx : option float) :
  In r reg ->
  r_id r <> focal_id ->
  isfinite radius = true ->
  hypot (PrimFloat.sub (x_m r) x_end) (PrimFloat.sub (y_m r) y_end) = radius ->
  let ni := build have_kdtree (init radius cone) reg in
  let q := query_social ni (r_time r) x_end y_end step_heading focal_id in
  In (candidate x_end y_end (point_of r))
     (within_radius radius
        (List.map point_of (Frame.group_at r_time (r_time r) reg))
        x_end y_end focal_id) /\
  isnan (nn_dist q) = false /\
  PrimFloat.leb (nn_dist q) radius = true /\
  ((forall r', In r' reg -> r_time r' = r_time r -> r_id r' <> focal_id ->
      PrimFloat.ltb
        (hypot (PrimFloat.sub (x_m r') x_end) (PrimFloat.sub (y_m r') y_end))
        radius = false) ->
   PrimFloat.ltb 0 radius = true ->
   nn_dist q = radius /\
   List.map (fun row => nn_dist (soc row))
     (fill_social radius [{| base := d; soc := q; sex_M := sx |}])
   = List.map (fun row => nn_dist (soc row))
       (fill_social radius
          [{| base := d; soc := no_neighbours; sex_M := sx |}])).
Proof.
  intros Hin Hid Hfin Hdist ni q.
  set (nbs := within_radius radius
                (List.map point_of (Frame.group_at r_time (r_time r) reg))
                x_end y_end focal_id).
  assert (Hnan : isnan radius = false) by (apply isfinite_not_nan; exact Hfin).
  assert (Hmem : In (candidate x_end y_end (point_of r)) nbs).
  { apply In_within_radius. exists r. repeat split; auto.
    - unfold mask, candidate; simpl. rewrite Hdist, Hfin.
      destruct (Z.eqb_spec (r_id r) focal_id); [contradiction | reflexivity].
    - unfold in_r, candidate; simpl. rewrite Hdist. apply leb_refl. exact Hnan. }
  assert (Hq : nn_dist q = np_min (List.map nb_dist nbs)).
  { subst q ni. unfold query_social.
    rewrite (build_lookup_present radius cone reg r Hin), build_radius.
    fold nbs. destruct nbs as [|n0 nbs']; [destruct Hmem | reflexivity]. }
  assert (Hmin : exists n, In n nbs /\ nb_dist n = nn_dist q).
  { rewrite Hq.
    assert (Hne : List.map nb_dist nbs <> []).
    { destruct nbs; [destruct Hmem | discriminate]. }
    apply np_min_In in Hne. apply in_map_iff in Hne as (n & Hn & Hin').
    exists n. auto. }
  destruct Hmin as (n & Hn & Hnq).
  pose proof Hn as Hn'.
  apply In_within_radius in Hn' as (r' & Hreg' & Ht' & Hcand & Hmask & Hinr).
  assert (Hle : PrimFloat.leb (nn_dist q) radius = true).
  { rewrite <- Hnq. exact Hinr. }
  split; [exact Hmem|]. split; [|split; [exact Hle|]].
  - rewrite <- Hnq. apply isfinite_not_nan.
    unfold mask in Hmask. apply andb_true_iff in Hmask as [_ Hf]. exact Hf.
  - intros Hclose Hpos.
    assert (Heq : nn_dist q = radius).
    { apply float_eq_of_compare; [exact Hle | | exact Hpos].
      rewrite <- Hnq, Hcand. unfold candidate; simpl.
      apply Hclose; auto.
      unfold mask in Hmask. apply andb_true_iff in Hmask as [Hi _].
      rewrite Hcand in Hi; simpl in Hi.
      destruct (Z.eqb_spec (r_id r') focal_id); [discriminate | assumption]. }
    split; [exact Heq|].
    rewrite !fill_social_rowwise. simpl. rewrite Heq.
    unfold fillna. rewrite Hnan. reflexivity.
Qed.

End RadiusBoundary.

(** ** Choice sets (steps.py) *)

Section ChoiceSets.
Import Num Steps Props.
Context `{Libm} `{NumpyRandom}.

(** *** Rows and labels *)

Lemma filter_label_absent (l : Z) (steps : list RegRow) :
  ~ In l (List.map r_index steps) -> List.filter (has_label l) steps = [].
Proof.
  induction steps as [|r steps IH]; simpl; [reflexivity|].
  intros Hn. unfold has_label at 1.
  destruct (Z.eqb_spec (r_index r) l); [tauto|]. apply IH. tauto.
Qed.

Lemma filter_label_unique (steps : list RegRow) (r : RegRow) :
  List.NoDup (List.map r_index steps) -> In r steps ->
  List.filter (has_label (r_index r)) steps = [r].
Proof.
  induction steps as [|r0 steps IH]; simpl; [tauto|].
  intros Hnd [->|Hin]; inversion Hnd as [|? ? Hnotin Hnd']; subst.
  - unfold has_label at 1. rewrite Z.eqb_refl. f_equal.
    apply filter_label_absent. exact Hnotin.
  - unfold has_label at 1.
    destruct (Z.eqb_spec (r_index r0) (r_index r)) as [E|E].
    + exfalso. apply Hnotin. rewrite E. apply in_map. exact Hin.
    + apply IH; assumption.
Qed.

(** *** The sampler *)

Lemma choice_length (rng : Generator) (pool : list float) (size : nat) :
  length (fst (choice rng pool size)) = size.
Proof. unfold choice; simpl. rewrite length_map, length_seq. reflexivity. Qed.

Lemma choice_In (rng : Generator) (pool : list float) (size k : nat) :
  pool <> [] -> (k < size)%nat ->
  In (nth k (fst (choice rng pool size)) nan) pool.
Proof.
  intros Hne Hk. unfold choice; simpl.
  set (f := fun j => nth (stream rng (consumed rng + j) mod length pool)%nat
                         pool nan).
  rewrite (nth_indep _ nan (f 0%nat))
    by (rewrite length_map, length_seq; exact Hk).
  rewrite map_nth. unfold f.
  apply nth_In. apply Nat.mod_upper_bound.
  destruct pool; [congruence | simpl; lia].
Qed.

Lemma sample_row_length (K : nat) (pl pt : list float) (rng : Generator)
    (r : RegRow) :
  length (fst (sample_row K pl pt rng r)) = K.
Proof. unfold sample_row; simpl. rewrite length_map, length_seq. reflexivity. Qed.

Lemma sample_row_In (K : nat) (pl pt : list float) (rng : Generator)
    (r : RegRow) (a : AvailRow) :
  pl <> [] -> pt <> [] ->
  In a (fst (sample_row K pl pt rng r)) ->
  exists len turn, In len pl /\ In turn pt /\ a = alternative r len turn.
Proof.
  intros Hpl Hpt. unfold sample_row; simpl.
  intros Hin. apply in_map_iff in Hin as (k & <- & Hk).
  apply in_seq in Hk.
  eexists _, _. split; [|split; [|reflexivity]].
  - apply (choice_In rng pl K k Hpl). lia.
  - apply (choice_In (snd (choice rng pl K)) pt K k Hpt). lia.
Qed.

Lemma filter_map_const {A B : Type} (P : B -> bool) (f : A -> B) (b : bool)
    (l : list A) :
  (forall a, P (f a) = b) ->
  List.filter P (List.map f l) = if b then List.map f l else [].
Proof.
  intros HP. induction l as [|a l IH]; simpl.
  - destruct b; reflexivity.
  - rewrite HP, IH. destruct b; reflexivity.
Qed.

Lemma sample_row_stratum (K : nat) (pl pt : list float) (rng : Generator)
    (r : RegRow) (l : Z) :
  List.filter (avail_in_stratum l) (fst (sample_row K pl pt rng r))
  = if r_index r =? l then fst (sample_row K pl pt rng r) else [].
Proof.
  unfold sample_row; simpl. apply filter_map_const.
  intros k. reflexivity.
Qed.

(** The loop returns whenever [K] is not negative. *)
Lemma sample_loop_total (K : Z) (pl pt : list float) (steps : list RegRow)
    (rng : Generator) :
  0 <= K -> exists avail, sample_loop K pl pt rng steps = inr avail.
Proof.
  intros HK. revert rng.
  induction steps as [|r steps IH]; intros rng; cbn [sample_loop]; [eauto|].
  destruct (negb (isfinite (heading_rad r))); [apply IH|].
  destruct (Z.ltb_spec K 0); [lia|].
  destruct (sample_row (Z.to_nat K) pl pt rng r) as [rows rng'].
  destruct (IH rng') as (more & ->). eauto.
Qed.

(** Every sampled row carries the label of a step of the table. *)
Lemma sample_loop_labels (K : Z) (pl pt : list float) (steps : list RegRow)
    (rng : Generator) (avail : list AvailRow) :
  sample_loop K pl pt rng steps = inr avail ->
  forall a, In a avail -> In (a_stratum_id a) (List.map r_index steps).
Proof.
  revert rng avail.
  induction steps as [|r steps IH]; intros rng avail; cbn [sample_loop].
  - intros [= <-] a [].
  - destruct (negb (isfinite (heading_rad r))).
    + intros Hl a Ha. right. eapply IH; eauto.
    + destruct (K <? 0); [discriminate|].
      destruct (sample_row (Z.to_nat K) pl pt rng r) as [rows rng'] eqn:Erow.
      destruct (sample_loop K pl pt rng' steps) as [e|more] eqn:Hmore;
        [discriminate|].
      intros [= <-] a Ha. apply in_app_or in Ha as [Ha|Ha].
      * left. apply (f_equal fst) in Erow. cbn [fst] in Erow. subst rows.
        unfold sample_row in Ha; simpl in Ha.
        apply in_map_iff in Ha as (k & <- & _). reflexivity.
      * right. eapply IH; eauto.
Qed.

(** The sampled rows of one label: the [K] alternatives of its step when
    the heading of the step is finite, none otherwise. *)
Lemma sample_loop_stratum (K : Z) (pl pt : list float) (steps : list RegRow)
    (rng : Generator) (avail : list AvailRow) (r : RegRow) :
  List.NoDup (List.map r_index steps) -> In r steps ->
  sample_loop K pl pt rng steps = inr avail ->
  exists rng',
    List.filter (avail_in_stratum (r_index r)) avail
    = if isfinite (heading_rad r)
      then fst (sample_row (Z.to_nat K) pl pt rng' r) else [].
Proof.
  revert rng avail.
  induction steps as [|r0 steps IH]; intros rng avail Hnd Hin;
    cbn [sample_loop]; [destruct Hin|].
  inversion Hnd as [|? ? Hnotin Hnd']; subst.
  assert (Hrest : forall rng1 more,
             sample_loop K pl pt rng1 steps = inr more -> r = r0 ->
             List.filter (avail_in_stratum (r_index r)) more = []).
  { intros rng1 more Hm ->.
    destruct (List.filter (avail_in_stratum (r_index r0)) more) as [|a l] eqn:E;
      [reflexivity|].
    assert (Ha : In a (List.filter (avail_in_stratum (r_index r0)) more))
      by (rewrite E; left; reflexivity).
    apply filter_In in Ha as [Ha Hl]. apply Z.eqb_eq in Hl.
    exfalso. apply Hnotin. rewrite <- Hl.
    eapply sample_loop_labels; eauto. }
  destruct (isfinite (heading_rad r0)) eqn:Hfin0; cbn [negb].
  - destruct (K <? 0); [discriminate|].
    destruct (sample_row (Z.to_nat K) pl pt rng r0) as [rows rng'] eqn:Erow.
    destruct (sample_loop K pl pt rng' steps) as [e|more] eqn:Hmore;
      [discriminate|].
    intros [= <-]. apply (f_equal fst) in Erow. cbn [fst] in Erow. subst rows.
    rewrite List.filter_app, sample_row_stratum.
    destruct Hin as [->|Hin].
    + rewrite Z.eqb_refl, Hfin0, (Hrest _ _ Hmore eq_refl), app_nil_r. eauto.
    + destruct (Z.eqb_spec (r_index r0) (r_index r)) as [E|E].
      * exfalso. apply Hnotin. rewrite E. apply in_map. exact Hin.
      * simpl. eapply IH; eauto.
  - intros Hl. destruct Hin as [->|Hin].
    + rewrite Hfin0, (Hrest _ _ Hl eq_refl). exists rng. reflexivity.
    + eapply IH; eauto.
Qed.

(** *** The table that [build_used_available] returns *)

Lemma filter_map_commute {A B : Type} (P : B -> bool) (Q : A -> bool)
    (f : A -> B) (l : list A) :
  (forall a, P (f a) = Q a) ->
  List.filter P (List.map f l) = List.map f (List.filter Q l).
Proof.
  intros HP. induction l as [|a l IH]; simpl; [reflexivity|].
  rewrite HP. destruct (Q a); simpl; rewrite IH; reflexivity.
Qed.

Lemma filter_all {A : Type} (P : A -> bool) (l : list A) :
  (forall a, In a l -> P a = true) -> List.filter P l = l.
Proof.
  induction l as [|a l IH]; simpl; intros HP; [reflexivity|].
  rewrite (HP a) by auto. f_equal. apply IH. auto.
Qed.

Lemma filter_none {A : Type} (P : A -> bool) (l : list A) :
  (forall a, In a l -> P a = false) -> List.filter P l = [].
Proof.
  induction l as [|a l IH]; simpl; intros HP; [reflexivity|].
  rewrite (HP a) by auto. apply IH. auto.
Qed.

Lemma loc_unique_labels (col : RegRow -> float) (steps : list RegRow)
    (labels : list Z) :
  List.NoDup (List.map r_index steps) ->
  (forall l, In l labels -> In l (List.map r_index steps)) ->
  loc col steps labels = List.map (cell col steps) labels.
Proof.
  intros Hnd. induction labels as [|l labels IH]; intros Hl; simpl;
    [reflexivity|].
  rewrite IH by (intros; apply Hl; right; assumption). clear IH.
  destruct (proj1 (in_map_iff _ _ _) (Hl l (or_introl eq_refl)))
    as (r & <- & Hr).
  fold (has_label (r_index r)). unfold cell.
  rewrite !(filter_label_unique steps r Hnd Hr). reflexivity.
Qed.

Lemma zip3_map (avail : list AvailRow) (f g : Z -> float) :
  zip3 avail (List.map f (List.map a_stratum_id avail))
             (List.map g (List.map a_stratum_id avail))
  = List.map (fun a => (a, f (a_stratum_id a), g (a_stratum_id a))) avail.
Proof. induction avail as [|a avail IH]; simpl; [|rewrite IH]; reflexivity. Qed.

Lemma build_returns (reg : list RegRow) (cfg : Config) (a0 : AvailRow)
    (avail : list AvailRow) :
  List.NoDup (List.map r_index reg) ->
  sample (K_available cfg) (seed cfg) reg = inr (a0 :: avail) ->
  (forall a, In a (a0 :: avail) -> In (a_stratum_id a) (List.map r_index reg)) ->
  build_used_available reg cfg
  = inr (List.map (used_row cfg) reg
         ++ List.map (design_of cfg reg) (a0 :: avail)).
Proof.
  intros Hnd Hs Hl. unfold build_used_available. rewrite Hs.
  assert (Hlab : forall l, In l (List.map a_stratum_id (a0 :: avail)) ->
                           In l (List.map r_index reg)).
  { intros l Hin. apply in_map_iff in Hin as (a & <- & Ha). auto. }
  rewrite !(loc_unique_labels _ reg _ Hnd Hlab).
  rewrite !length_map, Nat.eqb_refl. cbn [negb].
  rewrite zip3_map, List.map_map. reflexivity.
Qed.



End ChoiceSets.

(** ** Standardization (design.py, [_zscore]) *)

Section Standardize.
Import Num Design.
Context `{Libm} `{Reductions}.

Lemma map_id_ext {A : Type} (f : A -> A) (l : list A) :
  (forall a, f a = a) -> List.map f l = l.
Proof.
  intros Hf. induction l as [|a l IH]; simpl; [reflexivity|].
  rewrite Hf, IH. reflexivity.
Qed.


End Standardize.

(** ** The cross-validation loop (validate.py) *)

Section FoldFailure.
Import Num Design Validate Props.
Context `{Libm} `{Reductions} `{Backend}.

Context (cols : list Col) (d : list (Labeled (Row := SocialRow))).

Local Abbreviation scores_of := (scores_of cols d).
Local Abbreviation fits := (fits cols d).
Local Abbreviation extend := (extend cols d).

Lemma extend_nil (metrics : Metrics) : extend metrics [] = metrics.
Proof. destruct metrics. unfold extend; simpl. rewrite !app_nil_r. reflexivity. Qed.

Lemma extend_cons (metrics : Metrics) (f : Z) (done : list Z) :
  extend metrics (f :: done)
  = extend {| m_log_score := m_log_score metrics ++ [fst (fst (scores_of f))];
              m_rank_mean := m_rank_mean metrics ++ [snd (fst (scores_of f))];
              m_rank_top1 := m_rank_top1 metrics ++ [snd (scores_of f)];
              m_errors := m_errors metrics |} done.
Proof. unfold extend; simpl. rewrite <- !app_assoc. reflexivity. Qed.

(** Folds whose fit returns are scored one after the other. *)
Lemma cv_loop_prefix (done rest : list Z) (metrics : Metrics)
    (calls : list FitCall) :
  Forall fits done ->
  cv_loop cols d (done ++ rest) metrics calls
  = cv_loop cols d rest (extend metrics done)
      (calls ++ List.map (train_call cols d) done).
Proof.
  intros Hfits. revert metrics calls.
  induction Hfits as [|f done (params & Hf) _ IH]; intros metrics calls.
  - rewrite extend_nil, app_nil_r. reflexivity.
  - cbn [app cv_loop List.map]. rewrite extend_cons.
    unfold scores_of at 1 2 3. rewrite Hf.
    destruct (score_fold cols params (test_rows d f)) as [[ls rm] t1].
    rewrite IH. cbn [fst snd]. rewrite <- app_assoc. reflexivity.
Qed.

(** A fold whose fit raises ends the loop. *)
Lemma cv_loop_break (f : Z) (rest : list Z) (e : string) (metrics : Metrics)
    (calls : list FitCall) :
  fit (train_call cols d f) = inl e ->
  cv_loop cols d (f :: rest) metrics calls
  = ({| m_log_score := m_log_score metrics;
        m_rank_mean := m_rank_mean metrics;
        m_rank_top1 := m_rank_top1 metrics;
        m_errors := m_errors metrics ++ [e] |},
     calls ++ [train_call cols d f]).
Proof. intros Hf. cbn [cv_loop]. rewrite Hf. reflexivity. Qed.

Lemma range_split (k : Z) (f : nat) :
  Z.of_nat f < k ->
  range k = List.map Z.of_nat (seq 0 f)
            ++ Z.of_nat f :: List.map Z.of_nat (seq (S f) (Z.to_nat k - S f)).
Proof.
  intros Hf. unfold range.
  replace (Z.to_nat k) with (f + S (Z.to_nat k - S f))%nat at 1 by lia.
  rewrite seq_app, List.map_app. reflexivity.
Qed.

Lemma cv_loop_fails_at (k : Z) (f : nat) (e : string) :
  Z.of_nat f < k ->
  fit (train_call cols d (Z.of_nat f)) = inl e ->
  (forall j, (j < f)%nat -> fits (Z.of_nat j)) ->
  cv_loop cols d (range k) no_metrics []
  = ({| m_log_score := List.map (fun j => fst (fst (scores_of (Z.of_nat j)))) (seq 0 f);
        m_rank_mean := List.map (fun j => snd (fst (scores_of (Z.of_nat j)))) (seq 0 f);
        m_rank_top1 := List.map (fun j => snd (scores_of (Z.of_nat j))) (seq 0 f);
        m_errors := [e] |},
     List.map (fun j => train_call cols d (Z.of_nat j)) (seq 0 (S f))).
Proof.
  intros Hk He Hbefore.
  rewrite (range_split k f Hk), cv_loop_prefix.
  - rewrite (cv_loop_break _ _ e) by exact He.
    unfold extend, no_metrics; cbn [m_log_score m_rank_mean m_rank_top1 m_errors app].
    rewrite !List.map_map. f_equal.
    rewrite seq_S, List.map_app. reflexivity.
  - apply List.Forall_forall. intros z Hz.
    apply in_map_iff in Hz as (j & <- & Hj). apply in_seq in Hj.
    apply Hbefore. lia.
Qed.

Lemma cv_loop_all_fit (folds : list Z) :
  Forall fits folds ->
  m_errors (fst (cv_loop cols d folds no_metrics [])) = [].
Proof.
  intros Hfits. rewrite <- (app_nil_r folds), cv_loop_prefix by exact Hfits.
  reflexivity.
Qed.

End FoldFailure.

Section FoldFailureReport.
Import Num Design Validate Props.
Context `{Libm} `{Reductions} `{Backend}.


End FoldFailureReport.

(** ** Fold labels (validate.py) *)

Section FoldLabels.
Import Validate Props.
Context {Row : Type} (id_of time_of : Row -> Z).

Local Abbreviation sort_values := (sort_values id_of time_of).
Local Abbreviation insert_row := (insert_row id_of time_of).
Local Abbreviation key_le := (key_le id_of time_of).
Local Abbreviation rank_first := (rank_first id_of time_of).
Local Abbreviation label_from := (label_from id_of time_of).
Local Abbreviation fold_labels := (fold_labels id_of time_of).
Local Abbreviation key_order := (key_order id_of time_of).
Local Abbreviation same_id := (same_id id_of).
Local Abbreviation count_id := (count_id id_of).
Local Abbreviation labeled_id := (labeled_id id_of).
Local Abbreviation same_keys := (same_keys id_of time_of).

Lemma key_le_order (a b : Row) : key_le a b = true <-> key_order a b.
Proof.
  unfold Validate.key_le, key_order.
  rewrite orb_true_iff, andb_true_iff, Z.ltb_lt, Z.eqb_eq, Z.leb_le. tauto.
Qed.

Lemma key_order_total (a b : Row) : key_le a b = false -> key_order b a.
Proof.
  intros Hf. destruct (key_le a b) eqn:E; [discriminate|].
  assert (Hn : ~ key_order a b) by (rewrite <- key_le_order; congruence).
  unfold key_order in *. lia.
Qed.

Lemma key_order_trans (a b c : Row) :
  key_order a b -> key_order b c -> key_order a c.
Proof. unfold key_order. lia. Qed.

(** *** [sort_values] sorts and keeps every row *)

Lemma insert_row_perm (a : Row) (l : list Row) :
  Permutation (insert_row a l) (a :: l).
Proof.
  induction l as [|b l IH]; simpl; [reflexivity|].
  destruct (key_le a b); [reflexivity|].
  rewrite IH. apply perm_swap.
Qed.

Lemma sort_values_perm (l : list Row) : Permutation (sort_values l) l.
Proof.
  induction l as [|a l IH]; simpl; [reflexivity|].
  unfold Validate.sort_values in *; simpl.
  rewrite insert_row_perm. constructor. exact IH.
Qed.

Lemma insert_row_sorted (a : Row) (l : list Row) :
  Sorted.StronglySorted key_order l ->
  Sorted.StronglySorted key_order (insert_row a l).
Proof.
  induction 1 as [|b l Hs IH Hb]; simpl.
  - constructor; constructor.
  - destruct (key_le a b) eqn:E.
    + apply key_le_order in E.
      constructor; [constructor; assumption|].
      constructor; [exact E|].
      eapply List.Forall_impl; [|exact Hb].
      intros c Hc. eapply key_order_trans; eassumption.
    + constructor; [exact IH|].
      apply key_order_total in E.
      apply List.Forall_forall. intros c Hc.
      apply (Permutation_in _ (insert_row_perm a l)) in Hc.
      destruct Hc as [<-|Hc]; [exact E|].
      rewrite List.Forall_forall in Hb. auto.
Qed.

Lemma sort_values_sorted (l : list Row) :
  Sorted.StronglySorted key_order (sort_values l).
Proof.
  induction l as [|a l IH]; [constructor|].
  apply insert_row_sorted. exact IH.
Qed.

Lemma sorted_app_inv (l1 l2 : list Row) :
  Sorted.StronglySorted key_order (l1 ++ l2) ->
  Sorted.StronglySorted key_order l2 /\
  (forall x y, In x l1 -> In y l2 -> key_order x y).
Proof.
  induction l1 as [|a l1 IH]; simpl; intros Hs.
  - split; [exact Hs | intros x y []].
  - inversion Hs as [|? ? Hs' Ha]; subst.
    destruct (IH Hs') as [H2 Hxy]. split; [exact H2|].
    intros x y [<-|Hx] Hy; [|auto].
    rewrite List.Forall_forall in Ha. apply Ha. apply in_or_app. auto.
Qed.

(** *** Ranks *)

Lemma count_id_app (i : Z) (l1 l2 : list Row) :
  count_id i (l1 ++ l2) = (count_id i l1 + count_id i l2)%nat.
Proof. unfold count_id. rewrite List.filter_app, length_app. reflexivity. Qed.

Lemma filter_length_nil (P : Row -> bool) (l : list Row) :
  (forall x, In x l -> P x = false) -> length (List.filter P l) = 0%nat.
Proof.
  induction l as [|a l IH]; simpl; intros HP; [reflexivity|].
  rewrite (HP a) by auto. apply IH. auto.
Qed.

Lemma earlier_or_tied (r : Row) (before : list Row) :
  (forall x, In x before -> key_order x r) ->
  Nat.add
    (length (List.filter
               (fun r' => (id_of r' =? id_of r) && (time_of r' <? time_of r))
               before))
    (length (List.filter
               (fun r' => (id_of r' =? id_of r) && (time_of r' =? time_of r))
               before))
  = count_id (id_of r) before.
Proof.
  unfold count_id, same_id.
  induction before as [|x before IH]; simpl; intros Hb; [reflexivity|].
  specialize (IH (fun y Hy => Hb y (or_intror Hy))).
  pose proof (Hb x (or_introl eq_refl)) as Hx. unfold key_order in Hx.
  destruct (Z.eqb_spec (id_of x) (id_of r)) as [E|E]; simpl.
  - destruct (Z.ltb_spec (time_of x) (time_of r));
      destruct (Z.eqb_spec (time_of x) (time_of r)); simpl; lia.
  - exact IH.
Qed.

(** In the sorted table the rank of a row is one more than the number of
    rows of its individual above it. *)
Lemma rank_first_sorted (before rest : list Row) (r : Row) :
  Sorted.StronglySorted key_order (before ++ r :: rest) ->
  rank_first (before ++ r :: rest) before r
  = Z.of_nat (S (count_id (id_of r) before)).
Proof.
  intros Hs. destruct (sorted_app_inv _ _ Hs) as [Hs2 Hxy].
  inversion Hs2 as [|? ? _ Hrest]; subst.
  rewrite List.Forall_forall in Hrest.
  unfold Validate.rank_first.
  rewrite List.filter_app, length_app. cbn [List.filter].
  rewrite Z.ltb_irrefl, andb_false_r.
  rewrite (filter_length_nil _ rest).
  - rewrite <- (earlier_or_tied r before).
    + lia.
    + intros x Hx. apply Hxy; [exact Hx | left; reflexivity].
  - intros x Hx. specialize (Hrest x Hx). unfold key_order in Hrest.
    destruct (Z.eqb_spec (id_of x) (id_of r)); simpl; [|reflexivity].
    apply Z.ltb_ge. lia.
Qed.

Lemma label_from_rows (k : Z) (d before rest : list Row) :
  List.map row (label_from k d before rest) = rest.
Proof.
  revert before. induction rest as [|r rest IH]; intros before; simpl;
    [|rewrite IH]; reflexivity.
Qed.

Lemma label_from_folds (k : Z) (d before rest : list Row) :
  Forall (fun l => t_fold l = t_rank l mod k) (label_from k d before rest).
Proof.
  revert before. induction rest as [|r rest IH]; intros before; simpl;
    constructor; [reflexivity | apply IH].
Qed.

(** The ranks of an individual, read down the sorted table, count up
    from one. *)
Lemma label_from_ranks (k i : Z) (d rest before : list Row) :
  d = before ++ rest ->
  Sorted.StronglySorted key_order d ->
  List.map t_rank (List.filter (labeled_id i) (label_from k d before rest))
  = List.map Z.of_nat (seq (S (count_id i before)) (count_id i rest)).
Proof.
  intros Hd Hs. revert before Hd.
  induction rest as [|r rest IH]; intros before Hd; [reflexivity|].
  cbn [Validate.label_from List.filter]. unfold labeled_id at 1. cbn [row].
  assert (Hd' : d = (before ++ [r]) ++ rest)
    by (rewrite <- app_assoc; exact Hd).
  specialize (IH (before ++ [r]) Hd').
  rewrite count_id_app in IH.
  assert (Hr : rank_first d before r = Z.of_nat (S (count_id (id_of r) before))).
  { rewrite Hd. apply rank_first_sorted. rewrite <- Hd. exact Hs. }
  unfold count_id at 2 in IH. unfold count_id at 2.
  cbn [List.filter] in IH |- *.
  unfold same_id at 1 in IH. unfold same_id at 1 2.
  destruct (Z.eqb_spec (id_of r) i) as [E|E].
  - cbn [List.map t_rank length seq]. cbn [length] in IH.
    rewrite IH, Hr, E.
    replace (count_id i before + 1)%nat with (S (count_id i before)) by lia.
    reflexivity.
  - cbn [length] in IH. rewrite Nat.add_0_r in IH. exact IH.
Qed.

Lemma sorted_filter (P : Row -> bool) (l : list Row) :
  Sorted.StronglySorted key_order l ->
  Sorted.StronglySorted key_order (List.filter P l).
Proof.
  induction 1 as [|a l Hs IH Ha]; simpl; [constructor|].
  destruct (P a); [|exact IH].
  constructor; [exact IH|].
  rewrite List.Forall_forall in *. intros x Hx.
  apply filter_In in Hx as [Hx _]. auto.
Qed.

Lemma sorted_times (i : Z) (l : list Row) :
  Sorted.StronglySorted key_order l ->
  Forall (fun r => id_of r = i) l ->
  Sorted.StronglySorted Z.le (List.map time_of l).
Proof.
  induction 1 as [|a l Hs IH Ha]; intros Hid; simpl; constructor.
  - apply IH. inversion Hid; assumption.
  - inversion Hid as [|? ? Hia Hil]; subst.
    rewrite List.Forall_forall in *. intros t Ht.
    apply in_map_iff in Ht as (x & <- & Hx).
    specialize (Ha x Hx). specialize (Hil x Hx). unfold key_order in Ha. lia.
Qed.

Lemma sorted_count_up (a n : nat) :
  Sorted.StronglySorted Z.lt (List.map Z.of_nat (seq a n)).
Proof.
  revert a. induction n as [|n IH]; intros a; simpl; constructor; [apply IH|].
  apply List.Forall_forall. intros z Hz.
  apply in_map_iff in Hz as (j & <- & Hj). apply in_seq in Hj. lia.
Qed.

Lemma filter_perm (P : Row -> bool) (l l' : list Row) :
  Permutation l l' -> Permutation (List.filter P l) (List.filter P l').
Proof.
  induction 1 as [|a l l' _ IH|a b l|l1 l2 l3 _ IH1 _ IH2]; simpl.
  - constructor.
  - destruct (P a); [constructor|]; exact IH.
  - destruct (P a), (P b); try reflexivity. apply perm_swap.
  - etransitivity; eassumption.
Qed.

(** *** The labels read identifiers and times only *)

Lemma insert_row_same_keys (a a' : Row) (l l' : list Row) :
  same_keys a a' -> Forall2 same_keys l l' ->
  Forall2 same_keys (insert_row a l) (insert_row a' l').
Proof.
  intros Ha. induction 1 as [|b b' l l' Hb Hl IH]; simpl.
  - constructor; [exact Ha | constructor].
  - replace (key_le a' b') with (key_le a b)
      by (unfold Validate.key_le; destruct Ha as [-> ->], Hb as [-> ->]; reflexivity).
    destruct (key_le a b).
    + constructor; [exact Ha|]. constructor; assumption.
    + constructor; assumption.
Qed.

Lemma sort_values_same_keys (l l' : list Row) :
  Forall2 same_keys l l' -> Forall2 same_keys (sort_values l) (sort_values l').
Proof.
  induction 1 as [|a a' l l' Ha _ IH]; [constructor|].
  apply insert_row_same_keys; assumption.
Qed.

Lemma filter_length_same_keys (P P' : Row -> bool) (l l' : list Row) :
  (forall x x', same_keys x x' -> P x = P' x') ->
  Forall2 same_keys l l' ->
  length (List.filter P l) = length (List.filter P' l').
Proof.
  intros HP. induction 1 as [|a a' l l' Ha _ IH]; simpl; [reflexivity|].
  rewrite (HP a a' Ha). destruct (P' a'); simpl; congruence.
Qed.

Lemma rank_first_same_keys (d d' before before' : list Row) (r r' : Row) :
  Forall2 same_keys d d' -> Forall2 same_keys before before' ->
  same_keys r r' ->
  rank_first d before r = rank_first d' before' r'.
Proof.
  intros Hd Hb [Hi Ht]. unfold Validate.rank_first.
  rewrite (filter_length_same_keys _
             (fun x => (id_of x =? id_of r') && (time_of x <? time_of r')) d d');
    [|intros x x' [-> ->]; rewrite Hi, Ht; reflexivity | exact Hd].
  rewrite (filter_length_same_keys _
             (fun x => (id_of x =? id_of r') && (time_of x =? time_of r'))
             before before');
    [reflexivity | intros x x' [-> ->]; rewrite Hi, Ht; reflexivity | exact Hb].
Qed.

Lemma label_from_same_keys (k : Z) (d d' : list Row) :
  Forall2 same_keys d d' ->
  forall rest rest' before before',
    Forall2 same_keys rest rest' -> Forall2 same_keys before before' ->
    List.map t_fold (label_from k d before rest)
    = List.map t_fold (label_from k d' before' rest').
Proof.
  intros Hd. induction rest as [|r rest IH]; intros rest' before before' Hr Hb;
    inversion Hr as [|? r' ? rest0 Hrr Hrest]; subst; [reflexivity|].
  cbn [Validate.label_from List.map t_fold].
  rewrite (rank_first_same_keys d d' before before' r r' Hd Hb Hrr).
  f_equal. apply IH; [exact Hrest|].
  apply Forall2_app; [exact Hb | constructor; [exact Hrr | constructor]].
Qed.


End FoldLabels.

(** ** Rows of the regularized table (regularize.py) *)

Section RegularizedRows.
Import Num Regularize Props.
Context `{Libm} `{Reductions}.

Lemma In_insert_by_time (x o : Obs) (l : list Obs) :
  In x (insert_by_time o l) <-> x = o \/ In x l.
Proof.
  induction l as [|o' l IH]; simpl; [intuition|].
  destruct (o_time o <=? o_time o'); simpl; [intuition|].
  rewrite IH. intuition.
Qed.

Lemma In_sort_by_time (x : Obs) (l : list Obs) :
  In x (sort_by_time l) <-> In x l.
Proof.
  induction l as [|o l IH]; simpl; [tauto|].
  unfold sort_by_time in *; simpl. rewrite In_insert_by_time, IH. intuition.
Qed.

Lemma last_In (d : Obs) (l : list Obs) : l <> [] -> In (List.last l d) l.
Proof.
  induction l as [|a l IH]; [congruence|]. intros _.
  destruct l as [|b l']; [left; reflexivity|].
  right. apply IH. discriminate.
Qed.

(** *** The first grid row of an individual *)

Lemma length_interpolate (l : list float) : length (interpolate l) = length l.
Proof. unfold interpolate. rewrite length_map, length_seq. reflexivity. Qed.

Lemma length_resample (delta : Z) (o0 : Obs) (s : list Obs) :
  length (resample delta (o0 :: s))
  = grid_length delta (o_time o0) (o_time (List.last (o0 :: s) o0)).
Proof.
  unfold resample, grid_labels.
  rewrite !length_map, !length_seq. reflexivity.
Qed.

Lemma length_grid_rows (cfg : Config) (lon0 lat0 : float) (offset : nat)
    (sid : Z) (s : list Obs) :
  length (grid_rows cfg lon0 lat0 offset sid s)
  = length (resample (dt_minutes cfg * minute_ns) (sort_by_time s)).
Proof. unfold grid_rows. rewrite length_map, length_seq. reflexivity. Qed.

Lemma grid_rows_id (cfg : Config) (lon0 lat0 : float) (offset : nat)
    (sid : Z) (s : list Obs) (r : RegRow) :
  In r (grid_rows cfg lon0 lat0 offset sid s) -> r_id r = sid.
Proof.
  unfold grid_rows. intros Hin. apply in_map_iff in Hin as (i & <- & _).
  reflexivity.
Qed.

(** The first grid row has no previous position: it never passes the final
    [dropna]. *)
Lemma first_grid_row_incomplete (cfg : Config) (lon0 lat0 : float) (offset : nat)
    (sid : Z) (s : list Obs) :
  List.filter complete_prev (grid_rows cfg lon0 lat0 offset sid s)
  = List.filter complete_prev (tl (grid_rows cfg lon0 lat0 offset sid s)).
Proof.
  unfold grid_rows.
  destruct (resample (dt_minutes cfg * minute_ns) (sort_by_time s)) as [|c g];
    [reflexivity|].
  cbn [length seq List.map tl List.filter].
  unfold complete_prev at 1. cbn [lon_prev Frame.shift1 nth List.map].
  reflexivity.
Qed.

Lemma filter_concat_tails (cfg : Config) (lon0 lat0 : float) (offset : nat)
    (groups : list (Z * list Obs)) :
  List.filter complete_prev (concat_groups cfg lon0 lat0 offset groups)
  = List.filter complete_prev (concat_tails cfg lon0 lat0 offset groups).
Proof.
  revert offset. induction groups as [|[sid s] groups IH]; intros offset;
    [reflexivity|].
  cbn [concat_groups concat_tails]. cbv zeta.
  rewrite !List.filter_app, IH, first_grid_row_incomplete. reflexivity.
Qed.

Lemma In_concat_groups (cfg : Config) (lon0 lat0 : float) (offset : nat)
    (groups : list (Z * list Obs)) (r : RegRow) :
  In r (concat_groups cfg lon0 lat0 offset groups) ->
  exists sid s off, In (sid, s) groups /\
                    In r (grid_rows cfg lon0 lat0 off sid s).
Proof.
  revert offset. induction groups as [|[sid s] groups IH]; intros offset;
    [intros []|].
  cbn [concat_groups]. cbv zeta. intros Hin.
  apply in_app_or in Hin as [Hin|Hin].
  - exists sid, s, offset. split; [left; reflexivity | exact Hin].
  - destruct (IH _ Hin) as (sid' & s' & off & Hg & Hr).
    exists sid', s', off. split; [right; exact Hg | exact Hr].
Qed.

Lemma filter_carry_sex (cfg : Config) (df : list Fix) (reg : list RegRow) :
  List.filter complete_prev (carry_sex cfg df reg)
  = carry_sex cfg df (List.filter complete_prev reg).
Proof.
  unfold carry_sex. destruct (sex_col cfg); [|reflexivity].
  apply (filter_map_commute complete_prev complete_prev). reflexivity.
Qed.

Lemma In_carry_sex (cfg : Config) (df : list Fix) (reg : list RegRow) (r : RegRow) :
  In r (carry_sex cfg df reg) -> exists r', In r' reg /\ r_id r = r_id r'.
Proof.
  unfold carry_sex. destruct (sex_col cfg).
  - intros Hin. apply in_map_iff in Hin as (r' & <- & Hr'). eauto.
  - eauto.
Qed.

(** *** One grid interval *)

Lemma same_bin_self (delta t : Z) : 0 < delta -> same_bin delta t t.
Proof.
  intros Hd. unfold same_bin, bin_of, grid_start.
  replace (t - (t - (t - normalize t) mod delta))
    with ((t - normalize t) mod delta) by lia.
  rewrite Z.div_small by (apply Z.mod_pos_bound; exact Hd). lia.
Qed.

Lemma one_bin_one_row (cfg : Config) (lon0 lat0 : float) (offset : nat)
    (sid : Z) (s : list Obs) :
  0 < dt_minutes cfg ->
  (forall o o', In o s -> In o' s ->
                same_bin (dt_minutes cfg * minute_ns) (o_time o') (o_time o)) ->
  tl (grid_rows cfg lon0 lat0 offset sid s) = [].
Proof.
  intros Hdt Hbin.
  assert (Hlen : (length (grid_rows cfg lon0 lat0 offset sid s) <= 1)%nat).
  { rewrite length_grid_rows.
    destruct (sort_by_time s) as [|o0 s'] eqn:Es; [simpl; lia|].
    rewrite length_resample.
    assert (Hfirst : In o0 s) by (apply In_sort_by_time; rewrite Es; left; reflexivity).
    assert (Hl : In (List.last (o0 :: s') o0) s).
    { apply In_sort_by_time. rewrite Es. apply last_In. discriminate. }
    specialize (Hbin _ _ Hl Hfirst). unfold same_bin, bin_of in Hbin.
    unfold grid_length.
    assert (Hdelta : 0 < dt_minutes cfg * minute_ns) by (unfold minute_ns; lia).
    set (q := (o_time (List.last (o0 :: s') o0)
               - grid_start (dt_minutes cfg * minute_ns) (o_time o0))
              / (dt_minutes cfg * minute_ns)) in *.
    assert (q = 0) by nia. lia. }
  destruct (grid_rows cfg lon0 lat0 offset sid s) as [|r [|r' l]];
    [reflexivity | reflexivity | simpl in Hlen; lia].
Qed.

Lemma groupby_nonempty (g : list Obs) :
  g <> [] -> Frame.groupby o_id g <> [].
Proof.
  destruct g as [|o g]; [congruence|]. intros _ Hnil.
  unfold Frame.groupby in Hnil. apply map_eq_nil in Hnil.
  assert (Hin : In (o_id o) (Frame.group_keys (List.map o_id (o :: g))))
    by (apply In_group_keys; left; reflexivity).
  rewrite Hnil in Hin. destruct Hin.
Qed.

Lemma In_groupby (g : list Obs) (sid : Z) (s : list Obs) :
  In (sid, s) (Frame.groupby o_id g) -> s = Frame.group_at o_id sid g.
Proof.
  unfold Frame.groupby. intros Hin.
  apply in_map_iff in Hin as (k & [= <- <-] & _). reflexivity.
Qed.


End RegularizedRows.

(** ** The order of binary64 numbers *)

Section FloatOrder.
Import Num Notions.

Lemma SFltb_key (x y : spec_float) :
  x <> S754_nan -> y <> S754_nan ->
  (SFltb x y = true <-> key_lt (order_key x) (order_key y)).
Proof.
  intros Hx Hy. unfold SFltb, key_lt.
  destruct x as [sx|sx| |sx mx ex], y as [sy|sy| |sy my ey];
    try congruence; simpl;
    try (destruct sx; simpl; split; [discriminate || lia | lia || reflexivity]);
    try (destruct sy; simpl; split; [discriminate || lia | lia || reflexivity]);
    try (destruct sx, sy; simpl; split; intros; try discriminate; try lia;
         reflexivity).
  destruct sx, sy; simpl.
  - destruct (Z.compare_spec ex ey) as [E|E|E]; simpl.
    + rewrite Pos.compare_cont_spec; simpl.
      destruct (Pos.compare_spec mx my) as [F|F|F]; simpl;
        split; intros; try discriminate; try lia; try reflexivity.
    + split; intros; [discriminate | lia].
    + split; intros; [lia | reflexivity].
  - split; intros; [lia | reflexivity].
  - split; intros; [discriminate | lia].
  - destruct (Z.compare_spec ex ey) as [E|E|E]; simpl.
    + rewrite Pos.compare_cont_spec; simpl.
      destruct (Pos.compare_spec mx my) as [F|F|F]; simpl;
        split; intros; try discriminate; try lia; try reflexivity.
    + split; intros; [lia | reflexivity].
    + split; intros; [discriminate | lia].
Qed.

Lemma isnan_Prim2SF (x : float) : isnan x = false -> Prim2SF x <> S754_nan.
Proof.
  rewrite isnan_spec. intros Hx E. rewrite E in Hx. discriminate.
Qed.

Lemma ltb_key (x y : float) :
  isnan x = false -> isnan y = false ->
  (PrimFloat.ltb x y = true
   <-> key_lt (order_key (Prim2SF x)) (order_key (Prim2SF y))).
Proof.
  intros Hx Hy. rewrite ltb_spec.
  apply SFltb_key; apply isnan_Prim2SF; assumption.
Qed.

(** [a < b] and [b < a] never hold together. *)
Lemma ltb_asym (a b : float) :
  PrimFloat.ltb a b = true -> PrimFloat.ltb b a = false.
Proof.
  rewrite !ltb_spec. unfold SFltb.
  destruct (Prim2SF a) as [sa|sa| |sa ma ea], (Prim2SF b) as [sb|sb| |sb mb eb];
    simpl; try discriminate; try reflexivity;
    try (destruct sa; simpl; congruence);
    try (destruct sb; simpl; congruence);
    try (destruct sa, sb; simpl; congruence).
  destruct sa, sb; simpl; try congruence.
  - rewrite (Z.compare_antisym ea eb).
    destruct (ea ?= eb); simpl; try congruence.
    rewrite !Pos.compare_cont_spec; simpl.
    rewrite (Pos.compare_antisym ma mb).
    destruct (ma ?= mb)%positive; simpl; congruence.
  - rewrite (Z.compare_antisym ea eb).
    destruct (ea ?= eb); simpl; try congruence.
    rewrite !Pos.compare_cont_spec; simpl.
    rewrite (Pos.compare_antisym ma mb).
    destruct (ma ?= mb)%positive; simpl; congruence.
Qed.

(** Among numbers that are not NaN, [y < x] needs [y < a] or [a < x]. *)
Lemma ltb_between (y a x : float) :
  isnan y = false -> isnan a = false -> isnan x = false ->
  PrimFloat.ltb y a = false -> PrimFloat.ltb a x = false ->
  PrimFloat.ltb y x = false.
Proof.
  intros Hy Ha Hx Hya Hax.
  destruct (PrimFloat.ltb y x) eqn:Hyx; [|reflexivity].
  apply (ltb_key y x Hy Hx) in Hyx.
  assert (Nya : ~ key_lt (order_key (Prim2SF y)) (order_key (Prim2SF a))).
  { rewrite <- (ltb_key y a Hy Ha). congruence. }
  assert (Nax : ~ key_lt (order_key (Prim2SF a)) (order_key (Prim2SF x))).
  { rewrite <- (ltb_key a x Ha Hx). congruence. }
  unfold key_lt in *. lia.
Qed.

(** [np.min] of an array without NaN: no entry is strictly below it. *)
Lemma fold_minimum_least (l : list float) (acc : float) :
  isnan acc = false -> Forall (fun x => isnan x = false) l ->
  isnan (fold_left minimum l acc) = false /\
  PrimFloat.ltb acc (fold_left minimum l acc) = false /\
  Forall (fun x => PrimFloat.ltb x (fold_left minimum l acc) = false) l.
Proof.
  revert acc. induction l as [|x l IH]; intros acc Hacc Hl; simpl.
  - split; [exact Hacc|]. split; [|constructor].
    destruct (PrimFloat.ltb acc acc) eqn:E; [|reflexivity].
    pose proof (ltb_asym acc acc E). congruence.
  - inversion Hl as [|? ? Hx Hl']; subst.
    assert (Hm : isnan (minimum acc x) = false).
    { unfold minimum. destruct (_ || _); assumption. }
    destruct (IH (minimum acc x) Hm Hl') as (Hn & Hlow & Hall).
    set (m := fold_left minimum l (minimum acc x)) in *.
    assert (Hacc_m : PrimFloat.ltb acc (minimum acc x) = false
                     /\ PrimFloat.ltb x (minimum acc x) = false).
    { unfold minimum. rewrite Hacc, orb_false_r.
      destruct (PrimFloat.ltb acc x) eqn:E.
      - split; [|apply ltb_asym; exact E].
        destruct (PrimFloat.ltb acc acc) eqn:E'; [|reflexivity].
        pose proof (ltb_asym acc acc E'). congruence.
      - split; [exact E|].
        destruct (PrimFloat.ltb x x) eqn:E'; [|reflexivity].
        pose proof (ltb_asym x x E'). congruence. }
    destruct Hacc_m as [Ha Hx'].
    split; [exact Hn|]. split.
    + apply (ltb_between acc (minimum acc x) m); assumption.
    + constructor; [|exact Hall].
      apply (ltb_between x (minimum acc x) m); assumption.
Qed.

Lemma np_min_least (l : list float) :
  Forall (fun x => isnan x = false) l ->
  Forall (fun x => PrimFloat.ltb x (np_min l) = false) l.
Proof.
  destruct l as [|x l]; [constructor|]. intros Hl.
  inversion Hl as [|? ? Hx Hl']; subst. simpl.
  destruct (fold_minimum_least l x Hx Hl') as (_ & Hlow & Hall).
  constructor; assumption.
Qed.

End FloatOrder.

(** ** More on neighbour queries (covariates/social.py) *)

Section NeighbourQueries.
Import Num Social Props.
Context `{Libm} `{Reductions}.
Context (have_kdtree : bool).

(** X1: a timestamp that no row of the table carries is answered by the record
    of "no neighbours": a missing key is not an error. *)
Theorem query_social_absent_time (radius cone : float) (reg : list RegRow)
    (t : Z) (x_end y_end step_heading : float) (focal_id : Z) :
  ~ In t (List.map r_time reg) ->
  query_social (build have_kdtree (init radius cone) reg)
               t x_end y_end step_heading focal_id
  = no_neighbours.
Proof.
  intros Habsent. unfold query_social. rewrite build_lookup.
  destruct (existsb (Z.eqb t) (List.map r_time reg)) eqn:E; [|reflexivity].
  apply existsb_eqb_In in E. contradiction.
Qed.

(** The record computed from the points of a timestamp. *)
Lemma query_social_lookup (radius cone : float) (reg : list RegRow)
    (t : Z) (x_end y_end step_heading : float) (focal_id : Z) :
  query_social (build have_kdtree (init radius cone) reg)
               t x_end y_end step_heading focal_id
  = query_social
      {| radius_m := radius; cone_half_angle := cone;
         time_to_tree := ∅;
         time_to_arr :=
           {[ t := List.map point_of (Frame.group_at r_time t reg) ]} |}
      t x_end y_end step_heading focal_id.
Proof.
  unfold query_social. rewrite build_lookup, build_radius.
  cbn [time_to_arr radius_m cone_half_angle].
  rewrite lookup_singleton_eq.
  assert (Hcone : cone_half_angle (build have_kdtree (init radius cone) reg) = cone).
  { unfold build.
    destruct (fold_build_params have_kdtree (Frame.groupby r_time reg)
                (init radius cone)) as [_ ->]. reflexivity. }
  rewrite Hcone, group_present.
  destruct (Frame.group_at r_time t reg) as [|r g]; reflexivity.
Qed.

Lemma within_radius_skips_focal (radius : float) (g : list RegRow)
    (x_end y_end : float) (focal_id : Z) :
  within_radius radius
    (List.map point_of (List.filter (fun r => negb (r_id r =? focal_id)) g))
    x_end y_end focal_id
  = within_radius radius (List.map point_of g) x_end y_end focal_id.
Proof.
  unfold within_radius. f_equal.
  induction g as [|r g IH]; [reflexivity|]. cbn [List.filter List.map].
  destruct (r_id r =? focal_id) eqn:E; cbn [negb List.map List.filter].
  - unfold mask at 2. cbn [candidate nb_pt point_of p_id]. rewrite E.
    cbn [negb andb]. exact IH.
  - rewrite IH. reflexivity.
Qed.

Lemma group_at_filter (P : RegRow -> bool) (t : Z) (reg : list RegRow) :
  Frame.group_at r_time t (List.filter P reg)
  = List.filter P (Frame.group_at r_time t reg).
Proof.
  unfold Frame.group_at.
  induction reg as [|r reg IH]; [reflexivity|]. cbn [List.filter].
  destruct (P r) eqn:EP, (r_time r =? t) eqn:Et; cbn [List.filter];
    rewrite ?EP, ?Et, IH; reflexivity.
Qed.

(** X2: the focal individual never counts as its own neighbour: its rows can
    be taken out of the table without changing any answer about it. *)
Theorem query_social_ignores_focal (radius cone : float) (reg : list RegRow)
    (t : Z) (x_end y_end step_heading : float) (focal_id : Z) :
  query_social (build have_kdtree (init radius cone) reg)
               t x_end y_end step_heading focal_id
  = query_social
      (build have_kdtree (init radius cone)
         (List.filter (fun r => negb (r_id r =? focal_id)) reg))
      t x_end y_end step_heading focal_id.
Proof.
  rewrite (query_social_lookup radius cone reg).
  rewrite (query_social_lookup radius cone (List.filter _ reg)).
  unfold query_social. cbn [time_to_arr radius_m cone_half_angle].
  rewrite !lookup_singleton_eq, group_at_filter, within_radius_skips_focal.
  reflexivity.
Qed.

(** X3: a neighbour is never counted both ahead and behind, so the two counts
    together do not exceed the neighbours within the radius. *)
Theorem forward_behind_exclusive (half step_heading : float) (nbs : list Nb) :
  (forall n, forward half step_heading n = true ->
             behind half step_heading n = false) /\
  (length (List.filter (forward half step_heading) nbs)
   + length (List.filter (behind half step_heading) nbs)
   <= length nbs)%nat.
Proof.
  assert (Hex : forall n, forward half step_heading n = true ->
                          behind half step_heading n = false).
  { intros n Hf. unfold forward in Hf. unfold behind.
    apply andb_true_iff in Hf as [Hp _].
    rewrite (ltb_asym _ _ Hp). reflexivity. }
  split; [exact Hex|].
  induction nbs as [|n nbs IH]; simpl; [lia|].
  destruct (forward half step_heading n) eqn:Ef.
  - rewrite (Hex n Ef). simpl. lia.
  - destruct (behind half step_heading n); simpl; lia.
Qed.

(** X4: when the query finds somebody, [nn_dist] is the distance of one of the
    conspecifics within the radius, and none of them is strictly closer. *)
Theorem nn_dist_is_least (radius cone : float) (reg : list RegRow) (t : Z)
    (x_end y_end step_heading : float) (focal_id : Z) :
  let nbs := within_radius radius
               (List.map point_of (Frame.group_at r_time t reg))
               x_end y_end focal_id in
  let q := query_social (build have_kdtree (init radius cone) reg)
                        t x_end y_end step_heading focal_id in
  nbs <> [] ->
  (exists n, In n nbs /\ nn_dist q = nb_dist n) /\
  (forall n, In n nbs -> PrimFloat.ltb (nb_dist n) (nn_dist q) = false).
Proof.
  intros nbs q Hne.
  assert (Hq : nn_dist q = np_min (List.map nb_dist nbs)).
  { subst q. rewrite query_social_lookup. unfold query_social.
    cbn [time_to_arr radius_m cone_half_angle]. rewrite lookup_singleton_eq.
    fold nbs. destruct nbs; [congruence | reflexivity]. }
  assert (Hdef : Forall (fun x => isnan x = false) (List.map nb_dist nbs)).
  { apply List.Forall_forall. intros x Hx.
    apply in_map_iff in Hx as (n & <- & Hn).
    unfold nbs, within_radius in Hn.
    apply filter_In in Hn as [Hn _]. apply filter_In in Hn as [_ Hm].
    unfold mask in Hm. apply andb_true_iff in Hm as [_ Hf].
    apply isfinite_not_nan. exact Hf. }
  split.
  - assert (Hin : In (np_min (List.map nb_dist nbs)) (List.map nb_dist nbs)).
    { apply np_min_In. destruct nbs; [congruence | discriminate]. }
    apply in_map_iff in Hin as (n & Hn & Hin). exists n. split; [exact Hin|].
    rewrite Hq. symmetry. exact Hn.
  - intros n Hn. rewrite Hq.
    pose proof (np_min_least _ Hdef) as Hleast.
    rewrite List.Forall_forall in Hleast. apply Hleast.
    apply in_map. exact Hn.
Qed.

End NeighbourQueries.

(** ** More on the design table (design.py) *)

Section DesignTable.
Import Num Social Design Props Notions.
Context `{Libm} `{Reductions}.

(** *** The missing-value pass, twice *)

Lemma fillna_fillna (v x : float) : fillna v (fillna v x) = fillna v x.
Proof.
  unfold fillna. destruct (isnan x) eqn:Hx; [|rewrite Hx; reflexivity].
  destruct (isnan v); reflexivity.
Qed.

Lemma fillna_defined (v x : float) : isnan v = false -> isnan (fillna v x) = false.
Proof. intros Hv. unfold fillna. destruct (isnan x) eqn:Hx; assumption. Qed.

(** X5: running the missing-value pass again changes nothing, and with a radius
    that is not NaN no social cell is left undefined. *)
Theorem fill_social_idempotent (radius : float) (rows : list SocialRow) :
  fill_social radius (fill_social radius rows) = fill_social radius rows /\
  (isnan radius = false ->
   Forall (fun r => forall c, isnan (get_soc c (soc r)) = false)
          (fill_social radius rows)).
Proof.
  rewrite !fill_social_rowwise. split.
  - rewrite List.map_map. apply List.map_ext.
    intros [b [nn nf nb aa ba ma rs] sx].
    unfold fill_row, with_soc; cbn [base soc sex_M nn_dist n_forward n_behind
                                   ahead_any behind_any mean_align_fwd rel_speed_fwd].
    rewrite !fillna_fillna. reflexivity.
  - intros Hr. apply List.Forall_forall. intros r Hin.
    apply in_map_iff in Hin as ([b [nn nf nb aa ba ma rs] sx] & <- & _).
    intros c. destruct c; cbn; apply fillna_defined; (exact Hr || reflexivity).
Qed.

(** *** Dropping strata *)

Lemma in_bad_strata (rows : list SocialRow) (s : Z) :
  existsb (Z.eqb s)
    (List.map (fun r => stratum_id (base r)) (List.filter bad_cos_turn rows))
  = stratum_bad rows s.
Proof.
  unfold stratum_bad, stratum_is.
  induction rows as [|r rows IH]; [reflexivity|]. cbn [List.filter existsb].
  destruct (bad_cos_turn r); cbn [List.map existsb andb orb].
  - rewrite IH, (Z.eqb_sym s). reflexivity.
  - exact IH.
Qed.

Lemma drop_bad_strata_filter (rows : list SocialRow) :
  drop_bad_strata rows
  = List.filter (fun r => negb (stratum_bad rows (stratum_id (base r)))) rows.
Proof.
  unfold drop_bad_strata.
  destruct (existsb bad_cos_turn rows) eqn:E.
  - apply List.filter_ext. intros r. rewrite in_bad_strata. reflexivity.
  - symmetry. apply filter_all. intros r Hr.
    apply negb_true_iff, not_true_is_false. unfold stratum_bad. intros E'.
    apply existsb_exists in E' as (r' & Hr' & Hb).
    apply andb_true_iff in Hb as [Hb _].
    assert (existsb bad_cos_turn rows = true)
      by (apply existsb_exists; exists r'; auto).
    congruence.
Qed.

Lemma filter_stratum_kept (bad : Z -> bool) (l : list SocialRow) (s : Z) :
  List.filter (stratum_is s)
    (List.filter (fun r => negb (bad (stratum_id (base r)))) l)
  = (if bad s then [] else List.filter (stratum_is s) l).
Proof.
  induction l as [|x l IHl]; cbn [List.filter].
  - destruct (bad s); reflexivity.
  - destruct (bad (stratum_id (base x))) eqn:Eb; cbn [negb List.filter];
      destruct (stratum_is s x) eqn:Ex; rewrite IHl; try reflexivity;
      apply Z.eqb_eq in Ex; rewrite <- Ex, Eb; reflexivity.
Qed.

(** X6: a stratum is dropped whole or kept whole: it is dropped exactly when
    one of its rows has a [cos_turn] that is not finite, and every row that
    stays has a finite one. *)
Theorem drop_bad_strata_whole (rows : list SocialRow) (s : Z) :
  List.filter (stratum_is s) (drop_bad_strata rows)
  = (if stratum_bad rows s then [] else List.filter (stratum_is s) rows) /\
  Forall (fun r => isfinite (cos_turn (base r)) = true) (drop_bad_strata rows).
Proof.
  rewrite drop_bad_strata_filter. split.
  - apply filter_stratum_kept.
  - apply List.Forall_forall. intros r Hr. apply filter_In in Hr as [Hr Hk].
    apply negb_true_iff in Hk.
    destruct (isfinite (cos_turn (base r))) eqn:Ef; [reflexivity|].
    assert (stratum_bad rows (stratum_id (base r)) = true); [|congruence].
    apply existsb_exists. exists r. split; [exact Hr|].
    unfold bad_cos_turn, stratum_is. rewrite Ef, Z.eqb_refl. reflexivity.
Qed.

(** *** Standardization keeps the shape of a column *)

Lemma SFeqb_refl (s : spec_float) : s <> S754_nan -> SFeqb s s = true.
Proof.
  intros Hs. unfold SFeqb. destruct s as [sg|sg| |sg m e]; try congruence.
  - reflexivity.
  - destruct sg; reflexivity.
  - simpl. destruct sg; rewrite Z.compare_refl, Pos.compare_cont_refl; reflexivity.
Qed.

Lemma isnan_Prim2SF_iff (x : float) : isnan x = true <-> Prim2SF x = S754_nan.
Proof.
  rewrite isnan_spec. split.
  - intros Hx. destruct (Prim2SF x) as [sg|sg| |sg m e] eqn:E; try reflexivity;
      rewrite SFeqb_refl in Hx by discriminate; discriminate.
  - intros ->. reflexivity.
Qed.

Lemma isnan_sub (x m : float) : isnan x = true -> isnan (PrimFloat.sub x m) = true.
Proof.
  rewrite !isnan_Prim2SF_iff, sub_spec. intros ->. reflexivity.
Qed.

Lemma isnan_div (x d : float) : isnan x = true -> isnan (PrimFloat.div x d) = true.
Proof.
  rewrite !isnan_Prim2SF_iff, div_spec. intros ->. reflexivity.
Qed.

Lemma Forall2_map_right {A B : Type} (R : A -> B -> Prop) (f : A -> B)
    (l : list A) :
  (forall a, R a (f a)) -> Forall2 R l (List.map f l).
Proof. intros HR. induction l; simpl; constructor; auto. Qed.

(** X7: a numeric column comes back numeric, with as many cells, and every
    cell that was NaN is NaN after standardization. *)
Theorem zscore_keeps_missing (v : list float) :
  exists w, _zscore (Some (NumSeries v)) = Some (NumSeries w) /\
            length w = length v /\
            Forall2 (fun x y => isnan x = true -> isnan y = true) v w.
Proof.
  unfold _zscore.
  destruct (negb (isfinite (nanstd v)) || PrimFloat.eqb (nanstd v) 0);
    eexists; (split; [reflexivity|]); (split; [apply length_map|]);
    apply Forall2_map_right; intros x Hx.
  - apply isnan_sub, Hx.
  - apply isnan_div, isnan_sub, Hx.
Qed.

(** *** What [add_social] leaves alone *)

Lemma zscore_col_base (get : SocialRow -> float)
    (put : float -> SocialRow -> SocialRow) (rows : list SocialRow) :
  (forall v r, identity (base (put v r)) = identity (base r)) ->
  List.map (fun r => identity (base r)) (zscore_col get put rows)
  = List.map (fun r => identity (base r)) rows.
Proof.
  intros Hput. unfold zscore_col.
  destruct (zscore_keeps_missing (List.map get rows)) as (w & -> & Hlen & _).
  rewrite length_map in Hlen.
  revert w Hlen. induction rows as [|r rows IH]; intros [|x w] Hlen;
    try discriminate; [reflexivity|].
  cbn. rewrite Hput. f_equal. apply IH. simpl in Hlen. congruence.
Qed.

Lemma to_standardize_base (cfg : Config) :
  Forall (fun gp => forall v r,
            identity (base (snd gp v r)) = identity (base r))
         (to_standardize cfg).
Proof.
  unfold to_standardize. repeat apply Forall_app_2.
  - repeat constructor.
  - destruct (include_log_l2 cfg); repeat constructor.
  - repeat constructor.
  - repeat constructor.
Qed.

Lemma standardize_base (cfg : Config) (rows : list SocialRow) :
  List.map (fun r => identity (base r))
    (fold_left (fun d gp => zscore_col (fst gp) (snd gp) d)
               (to_standardize cfg) rows)
  = List.map (fun r => identity (base r)) rows.
Proof.
  generalize (to_standardize_base cfg).
  generalize (to_standardize cfg). intros l Hl. revert rows.
  induction Hl as [|gp l Hgp _ IH]; intros rows; [reflexivity|].
  cbn [fold_left]. rewrite IH. apply zscore_col_base, Hgp.
Qed.

Lemma filter_map_comm {A B : Type} (P : B -> bool) (g : A -> B) (l : list A) :
  List.filter P (List.map g l) = List.map g (List.filter (fun a => P (g a)) l).
Proof.
  induction l as [|a l IH]; [reflexivity|]. cbn.
  destruct (P (g a)); cbn; rewrite IH; reflexivity.
Qed.

Lemma existsb_of_map {A B : Type} (P : B -> bool) (g : A -> B) (l : list A) :
  existsb P (List.map g l) = existsb (fun a => P (g a)) l.
Proof. induction l as [|a l IH]; [reflexivity|]. cbn. rewrite IH. reflexivity. Qed.

Lemma existsb_pointwise {A : Type} (P Q : A -> bool) (l : list A) :
  (forall a, P a = Q a) -> existsb P l = existsb Q l.
Proof.
  intros E. induction l as [|a l IH]; [reflexivity|]. cbn. rewrite E, IH.
  reflexivity.
Qed.

Lemma add_social_identity (have_kdtree : bool)
    (design : list DesignRow) (reg : list RegRow) (cfg : Config) :
  List.map (fun r => identity (base r)) (add_social have_kdtree design reg cfg)
  = List.map identity
      (List.filter (fun d => negb (in_bad_stratum design d)) design).
Proof.
  unfold add_social. rewrite standardize_base.
  rewrite fill_social_rowwise, drop_bad_strata_filter, !List.map_map.
  rewrite filter_map_comm, List.map_map. cbn [base fill_row with_soc].
  assert (Hb : forall d, base (add_sex_M cfg reg (query_row
                 (build have_kdtree (init (neighbor_radius_m cfg)
                    (cone_half_angle_deg cfg)) reg) d)) = d).
  { intros d. unfold add_sex_M. destruct (sex_col cfg); reflexivity. }
  erewrite List.map_ext; [|intros d; rewrite Hb; reflexivity].
  f_equal. apply List.filter_ext. intros d. f_equal.
  unfold stratum_bad, in_bad_stratum. rewrite existsb_of_map, Hb.
  apply existsb_pointwise. intros d'.
  unfold bad_cos_turn, stratum_is. cbn [base fill_row with_soc].
  rewrite Hb. reflexivity.
Qed.

(** X8: [add_social] returns the design rows in their order, without the
    strata that hold a [cos_turn] that is not finite, and with the columns
    that identify a step as they were. *)
Theorem add_social_keeps_identity (have_kdtree : bool)
    (design : list DesignRow) (reg : list RegRow) (cfg : Config) :
  List.map (fun r => identity (base r)) (add_social have_kdtree design reg cfg)
  = List.map identity
      (List.filter (fun d => negb (in_bad_stratum design d)) design).
Proof. apply add_social_identity. Qed.

End DesignTable.

(** ** More on the used and available steps (steps.py) *)

Section StepTable.
Import Num Steps Props Notions.
Context `{Libm} `{NumpyRandom}.

Lemma sample_loop_length (K : Z) (pl pt : list float) (steps : list RegRow)
    (rng : Generator) (avail : list AvailRow) :
  sample_loop K pl pt rng steps = inr avail ->
  length avail
  = (Z.to_nat K * length (List.filter has_heading steps))%nat /\
  Forall (fun a => a_is_used a = 0) avail.
Proof.
  revert rng avail.
  induction steps as [|r steps IH]; intros rng avail;
    cbn [sample_loop List.filter].
  - intros [= <-]. split; [cbn; lia | constructor].
  - unfold has_heading at 1. destruct (isfinite (heading_rad r)); cbn [negb].
    + destruct (K <? 0); [discriminate|].
      destruct (sample_row (Z.to_nat K) pl pt rng r) as [rows rng'] eqn:Erow.
      destruct (sample_loop K pl pt rng' steps) as [e|more] eqn:Hmore;
        [discriminate|].
      intros [= <-]. destruct (IH _ _ Hmore) as [Hlen Hun].
      apply (f_equal fst) in Erow. cbn [fst] in Erow. subst rows. split.
      * rewrite length_app, sample_row_length, Hlen. cbn [length]. lia.
      * apply Forall_app_2; [|exact Hun].
        unfold sample_row; cbn [fst]. apply List.Forall_forall.
        intros a Ha. apply in_map_iff in Ha as (k & <- & _). reflexivity.
    + apply IH.
Qed.

Lemma loc_length (col col' : RegRow -> float) (steps : list RegRow)
    (labels : list Z) :
  length (loc col steps labels) = length (loc col' steps labels).
Proof.
  unfold loc. induction labels as [|l labels IH]; [reflexivity|].
  cbn [flat_map]. rewrite !length_app, !length_map, IH. reflexivity.
Qed.

Lemma zip3_length (avail : list AvailRow) (xs ys : list float) :
  length xs = length avail -> length ys = length avail ->
  length (zip3 avail xs ys) = length avail.
Proof.
  revert xs ys. induction avail as [|a avail IH]; intros [|x xs] [|y ys] Hx Hy;
    cbn [zip3 length] in *; try discriminate; try reflexivity.
  rewrite IH by congruence. reflexivity.
Qed.

Lemma zip3_fst (avail : list AvailRow) (xs ys : list float) :
  forall c, In c (zip3 avail xs ys) -> In (fst (fst c)) avail.
Proof.
  revert xs ys. induction avail as [|a avail IH]; intros [|x xs] [|y ys] c Hc;
    cbn [zip3] in Hc; try (destruct Hc; fail).
  destruct Hc as [<- | Hc]; [left; reflexivity | right; eapply IH; eauto].
Qed.

(** X9: whenever the build returns a table, the table starts with the used
    rows, one per step in the order of the steps, and goes on with
    [K_available] rows that are not used for each step with a finite
    heading. *)
Theorem build_row_count (reg : list RegRow) (cfg : Config)
    (out : list DesignRow) :
  build_used_available reg cfg = inr out ->
  firstn (length reg) out = List.map (used_row cfg) reg /\
  length out
  = (length reg
     + Z.to_nat (K_available cfg) * length (List.filter has_heading reg))%nat /\
  Forall (fun d => is_used d = 0) (skipn (length reg) out).
Proof.
  unfold build_used_available, sample.
  destruct (dropna (List.map step_len_m reg)) as [|l0 pl]; [discriminate|].
  destruct (dropna (List.map turn_rad reg)) as [|t0 pt]; [discriminate|].
  destruct (sample_loop _ _ _ _ reg) as [e|avail] eqn:Hloop; [discriminate|].
  destruct (sample_loop_length _ _ _ _ _ _ Hloop) as [Hlen Hun].
  destruct avail as [|a0 avail']; [discriminate|].
  set (avail := a0 :: avail') in *.
  set (xp := loc x_prev reg (List.map a_stratum_id avail)).
  set (yp := loc y_prev reg (List.map a_stratum_id avail)).
  destruct (Nat.eqb_spec (length xp) (length avail)) as [Hxp|Hxp];
    unfold negb; cbv iota; [|discriminate].
  intros Hout. apply (inj inr) in Hout. subst out.
  assert (Hu : length (List.map (used_row cfg) reg) = length reg)
    by apply length_map.
  split; [|split].
  - rewrite <- Hu at 1. rewrite firstn_app, Nat.sub_diag, firstn_all.
    cbn [firstn]. apply app_nil_r.
  - rewrite length_app, !length_map, zip3_length, Hlen; [reflexivity|exact Hxp|].
    unfold yp. rewrite (loc_length y_prev x_prev). exact Hxp.
  - rewrite <- Hu at 1. rewrite skipn_app, Nat.sub_diag, skipn_all.
    cbn [skipn app]. apply List.Forall_forall. intros d Hd.
    apply in_map_iff in Hd as (c & <- & Hc). cbn [avail_row is_used].
    apply zip3_fst in Hc.
    exact (proj1 (List.Forall_forall _ _) Hun _ Hc).
Qed.

Lemma sample_loop_nothing (K : Z) (pl pt : list float) (steps : list RegRow)
    (rng : Generator) :
  K = 0 \/ List.filter has_heading steps = [] ->
  sample_loop K pl pt rng steps = inr [].
Proof.
  intros Hcase. revert rng.
  induction steps as [|r steps IH]; intros rng; cbn [sample_loop];
    [reflexivity|].
  destruct (isfinite (heading_rad r)) eqn:Hfin; cbn [negb].
  - destruct Hcase as [-> | Hnone].
    + cbn. rewrite IH by (left; reflexivity). reflexivity.
    + cbn [List.filter] in Hnone. unfold has_heading at 1 in Hnone.
      rewrite Hfin in Hnone. discriminate.
  - apply IH. destruct Hcase as [->|Hnone]; [left; reflexivity|right].
    cbn [List.filter] in Hnone. unfold has_heading at 1 in Hnone.
    rewrite Hfin in Hnone. exact Hnone.
Qed.

(** X10: with non-empty pools but nothing to sample, because [K_available] is 0
    or no step has a finite heading, the build does not return the used
    rows alone: it fails on the column [x_end] of the empty table of
    alternatives. *)
Theorem build_without_alternatives (reg : list RegRow) (cfg : Config) :
  dropna (List.map step_len_m reg) <> [] ->
  dropna (List.map turn_rad reg) <> [] ->
  K_available cfg = 0 \/ List.filter has_heading reg = [] ->
  build_used_available reg cfg = inl (KeyError "x_end").
Proof.
  intros Hpl Hpt Hcase. unfold build_used_available, sample.
  destruct (dropna (List.map step_len_m reg)) as [|l0 pl]; [congruence|].
  destruct (dropna (List.map turn_rad reg)) as [|t0 pt]; [congruence|].
  rewrite sample_loop_nothing by exact Hcase. reflexivity.
Qed.

End StepTable.

(** ** More on the cross-validation (validate.py) *)

Section FoldWindows.
Import Validate Props.
Context {Row : Type} (id_of time_of : Row -> Z).

Lemma NoDup_map_on {A B : Type} (f : A -> B) (l : list A) :
  (forall x y, In x l -> In y l -> f x = f y -> x = y) ->
  List.NoDup l -> List.NoDup (List.map f l).
Proof.
  intros Hinj Hnd. induction Hnd as [|a l Ha Hnd IH]; cbn; constructor.
  - intros Hin. apply in_map_iff in Hin as (b & Hb & Hbl).
    apply Ha. rewrite <- (Hinj b a); auto; [right; exact Hbl | left; reflexivity].
  - apply IH. intros x y Hx Hy. apply Hinj; right; assumption.
Qed.

Lemma firstn_of_seq (n a m : nat) : firstn n (seq a m) = seq a (Nat.min n m).
Proof.
  revert a m. induction n as [|n IH]; intros a [|m]; cbn; try reflexivity.
  rewrite IH. reflexivity.
Qed.

Lemma mod_window (k a b : Z) :
  0 < k -> Z.abs (a - b) < k -> a mod k = b mod k -> a = b.
Proof.
  intros Hk Hab Hmod.
  pose proof (Z.div_mod a k ltac:(lia)) as Ha.
  pose proof (Z.div_mod b k ltac:(lia)) as Hb.
  rewrite Hmod in Ha.
  assert (a - b = k * (a / k - b / k)) by lia.
  assert (a / k - b / k = 0) by nia. lia.
Qed.

(** X11: read down the sorted table, any [k] rows of one individual that
    follow one another lie in [k] different folds: two rows of an
    individual that are fewer than [k] places apart are never in the same
    fold. *)
Theorem consecutive_rows_change_fold (design : list Row) (k i : Z) (j : nat) :
  0 < k ->
  List.NoDup
    (List.map t_fold
       (firstn (Z.to_nat k)
          (skipn j (List.filter (labeled_id id_of i)
                                (fold_labels id_of time_of design k))))).
Proof.
  intros Hk.
  set (rows := List.filter _ _).
  assert (Hf : List.map t_fold rows
               = List.map (fun z => z mod k) (List.map t_rank rows)).
  { rewrite List.map_map. apply List.map_ext_in. intros l Hl.
    apply filter_In in Hl as [Hl _].
    pose proof (label_from_folds id_of time_of k
                  (sort_values id_of time_of design) []
                  (sort_values id_of time_of design)) as Hall.
    rewrite List.Forall_forall in Hall. exact (Hall l Hl). }
  assert (Hr : List.map t_rank rows
               = List.map Z.of_nat (seq 1 (count_id id_of i
                                             (sort_values id_of time_of design)))).
  { unfold rows, Validate.fold_labels.
    rewrite (label_from_ranks id_of time_of k i
               (sort_values id_of time_of design)
               (sort_values id_of time_of design) []);
      [reflexivity | reflexivity | apply sort_values_sorted]. }
  rewrite <- firstn_map, <- skipn_map, Hf, Hr.
  rewrite skipn_map, firstn_map, skipn_map, firstn_map, skipn_seq, firstn_of_seq.
  rewrite List.map_map.
  apply NoDup_map_on; [|apply seq_NoDup].
  intros x y Hx Hy Hxy. apply in_seq in Hx, Hy.
  apply Nat2Z.inj. apply (mod_window k); [exact Hk | lia | exact Hxy].
Qed.

End FoldWindows.

Section HeldOutRows.
Import Num Design Validate Props.
Context `{Libm} `{Reductions} `{Backend}.

Lemma filter_both_perm {A : Type} (P : A -> bool) (l : list A) :
  Permutation (List.filter P l ++ List.filter (fun a => negb (P a)) l) l.
Proof.
  induction l as [|a l IH]; cbn; [constructor|].
  destruct (P a); cbn.
  - constructor. exact IH.
  - symmetry. apply Permutation_cons_app. symmetry. exact IH.
Qed.

Lemma cv_labels_rows (design : list SocialRow) (k : Z) :
  Permutation (List.map row (cv_labels design k)) design.
Proof.
  unfold cv_labels, Validate.fold_labels. rewrite label_from_rows.
  apply sort_values_perm.
Qed.

Lemma filter_keys_perm {A : Type} (key : A -> Z) (keys : list Z) (l : list A) :
  List.NoDup keys ->
  Permutation
    (flat_map (fun f => List.filter (fun a => key a =? f) l) keys)
    (List.filter (fun a => existsb (Z.eqb (key a)) keys) l).
Proof.
  intros Hnd. induction Hnd as [|f keys Hf Hnd IH]; cbn [flat_map existsb].
  - rewrite filter_none; [constructor | reflexivity].
  - rewrite IH. clear IH.
    induction l as [|a l IHl]; cbn [List.filter app]; [constructor|].
    destruct (Z.eqb_spec (key a) f) as [E|E]; cbn [orb app].
    + assert (Hno : existsb (Z.eqb (key a)) keys = false).
      { apply not_true_is_false. intros Hex.
        apply existsb_exists in Hex as (z & Hz & Hzk).
        apply Z.eqb_eq in Hzk. apply Hf. congruence. }
      rewrite Hno. constructor. exact IHl.
    + destruct (existsb (Z.eqb (key a)) keys).
      * symmetry. apply Permutation_cons_app. symmetry. exact IHl.
      * exact IHl.
Qed.

(** X12: every row of the design is held out in exactly one of the [k] folds,
    and in each fold the held-out rows and the rows handed to the fit are
    the whole design, no row being in both. *)
Theorem folds_hold_out_once (design : list SocialRow) (cols : list Col) (k : Z) :
  0 < k ->
  Permutation (flat_map (test_rows (cv_labels design k)) (range k)) design /\
  (forall f,
      Permutation
        (List.map (fun r => List.map (fun c => col_value c r) cols)
                  (test_rows (cv_labels design k) f)
         ++ call_X (train_call cols (cv_labels design k) f))
        (List.map (fun r => List.map (fun c => col_value c r) cols) design) /\
      (length (test_rows (cv_labels design k) f)
       + length (call_y (train_call cols (cv_labels design k) f))
       = length design)%nat).
Proof.
  intros Hk. pose proof (cv_labels_rows design k) as Hrows.
  set (d := cv_labels design k) in *. split; [|intros f; split].
  - etransitivity; [|exact Hrows]. unfold test_rows.
    assert (Hd : List.filter (fun l => existsb (Z.eqb (t_fold l)) (range k)) d
                 = d).
    { apply filter_all. intros l Hl. apply existsb_exists.
      exists (t_fold l). split; [|apply Z.eqb_refl].
      pose proof (label_from_folds (fun r => d_id (base r))
                    (fun r => d_time (base r)) k
                    (sort_values (fun r => d_id (base r))
                                 (fun r => d_time (base r)) design) []
                    (sort_values (fun r => d_id (base r))
                                 (fun r => d_time (base r)) design)) as Hall.
      rewrite List.Forall_forall in Hall. rewrite (Hall l Hl).
      unfold range. apply in_map_iff.
      pose proof (Z.mod_pos_bound (t_rank l) k Hk).
      exists (Z.to_nat (t_rank l mod k)). split; [lia|]. apply in_seq. lia. }
    replace (List.map row d)
      with (List.map row
              (List.filter (fun l => existsb (Z.eqb (t_fold l)) (range k)) d))
      by (rewrite Hd; reflexivity).
    rewrite <- (filter_keys_perm t_fold).
    + generalize (range k). intros fs.
      induction fs as [|f fs IH]; cbn [flat_map]; [reflexivity|].
      rewrite List.map_app, IH. reflexivity.
    + unfold range. apply NoDup_map_on; [|apply seq_NoDup].
      intros x y _ _. apply Nat2Z.inj.
  - unfold train_call, test_rows; cbn [call_X].
    rewrite <- List.map_app, <- List.map_app.
    apply Permutation_map. etransitivity; [|exact Hrows].
    apply Permutation_map. apply filter_both_perm.
  - unfold train_call, test_rows; cbn [call_y].
    rewrite !length_map, <- length_app.
    rewrite <- (Permutation_length Hrows), length_map.
    apply Permutation_length. apply filter_both_perm.
Qed.

(** *** Every fold fitted *)

Lemma range_positive (k : Z) : 0 < k -> range k <> [].
Proof.
  intros Hk. rewrite (range_split k 0) by exact Hk. discriminate.
Qed.

(** X13: when the fit of every fold returns, the backend is called once per
    fold, in the order of the folds, the three means are taken over all
    [k] folds, and no error is recorded. *)
Theorem all_folds_fitted (design : list SocialRow) (cols : list Col) (k : Z) :
  statsmodels_available = true ->
  design <> [] ->
  0 < k ->
  (forall j, 0 <= j < k -> fits cols (cv_labels design k) j) ->
  kfold_time_cv_run design cols k
  = inr ({| log_score :=
              Some (np_mean
                      (List.map (fun f => fst (fst (scores_of cols (cv_labels design k) f)))
                                (range k)));
            rank_mean :=
              Some (np_mean
                      (List.map (fun f => snd (fst (scores_of cols (cv_labels design k) f)))
                                (range k)));
            rank_top1 :=
              Some (np_mean
                      (List.map (fun f => snd (scores_of cols (cv_labels design k) f))
                                (range k)));
            errors := None |},
         List.map (train_call cols (cv_labels design k)) (range k)).
Proof.
  intros Hav Hne Hk Hall.
  unfold kfold_time_cv_run. rewrite Hav. cbn [negb].
  destruct design as [|r0 design0] eqn:Hd; [congruence|]. rewrite <- Hd in *.
  destruct (Z.eqb_spec k 0) as [->|Hk0]; [lia|].
  fold (cv_labels design k).
  assert (Hfits : Forall (fits cols (cv_labels design k)) (range k)).
  { apply List.Forall_forall. intros z Hz. unfold range in Hz.
    apply in_map_iff in Hz as (j & <- & Hj). apply in_seq in Hj.
    apply Hall. lia. }
  rewrite <- (app_nil_r (range k)) at 1.
  rewrite cv_loop_prefix by exact Hfits. cbn [cv_loop app].
  unfold aggregate, extend, no_metrics;
    cbn [m_log_score m_rank_mean m_rank_top1 m_errors app].
  pose proof (range_positive k Hk) as Hr.
  destruct (range k) as [|f0 fs]; [congruence|]. reflexivity.
Qed.

(** *** No fold at all *)

(** X14: a negative number of folds is not refused: no fit is made, and the
    result has no entry, neither a score nor an error. *)
Theorem negative_folds_give_nothing (design : list SocialRow)
    (cols : list Col) (k : Z) :
  statsmodels_available = true ->
  k < 0 ->
  kfold_time_cv_run design cols k
  = inr ({| log_score := None; rank_mean := None; rank_top1 := None;
            errors := None |}, []).
Proof.
  intros Hav Hk. unfold kfold_time_cv_run. rewrite Hav. cbn [negb].
  assert (Hr : range k = []).
  { unfold range. replace (Z.to_nat k) with 0%nat by lia. reflexivity. }
  destruct design as [|r0 design0].
  - rewrite Hr. reflexivity.
  - destruct (Z.eqb_spec k 0); [lia|]. rewrite Hr. reflexivity.
Qed.

(** *** The softmax of a stratum *)

Lemma select_of_combine {A : Type} (m : Z -> bool) (g : float * Z -> A)
    (lp : list float) (strata : list Z) :
  length lp = length strata ->
  select (List.map m strata) (List.map g (combine lp strata))
  = List.map g (List.filter (fun c => m (snd c)) (combine lp strata)).
Proof.
  unfold select. revert strata.
  induction lp as [|x lp IH]; intros [|s strata] Hlen; try discriminate;
    [reflexivity|].
  cbn [combine List.map List.filter fst snd].
  destruct (m s); cbn [List.map snd]; rewrite IH by (cbn in Hlen; congruence);
    reflexivity.
Qed.

Lemma combine_fst_snd {A B : Type} (l : list (A * B)) :
  combine (List.map fst l) (List.map snd l) = l.
Proof.
  induction l as [|[a b] l IH]; cbn; [|rewrite IH]; reflexivity.
Qed.

Lemma map_fst_combine (lp : list float) (strata : list Z) :
  length lp = length strata -> List.map fst (combine lp strata) = lp.
Proof.
  revert strata. induction lp as [|x lp IH]; intros [|s strata] Hlen;
    try discriminate; [reflexivity|].
  cbn. rewrite IH by (cbn in Hlen; congruence). reflexivity.
Qed.

Lemma map_snd_combine (lp : list float) (strata : list Z) :
  length lp = length strata -> List.map snd (combine lp strata) = strata.
Proof.
  revert strata. induction lp as [|x lp IH]; intros [|s strata] Hlen;
    try discriminate; [reflexivity|].
  cbn. rewrite IH by (cbn in Hlen; congruence). reflexivity.
Qed.

Lemma filter_filter_same {A : Type} (P : A -> bool) (l : list A) :
  List.filter P (List.filter P l) = List.filter P l.
Proof.
  apply filter_all. intros a Ha. apply filter_In in Ha as [_ Ha]. exact Ha.
Qed.

(** X15: the probabilities of the rows of a stratum are those the function
    gives on these rows alone: no row of another stratum enters them. *)
Theorem softmax_by_stratum_local (lp : list float) (strata : list Z) (s : Z) :
  length lp = length strata ->
  let mask := List.map (fun s' => s' =? s) strata in
  select mask (softmax_by_stratum lp strata)
  = softmax_by_stratum (select mask lp) (select mask strata).
Proof.
  intros Hlen mask.
  assert (Hlp : select mask lp
                = List.map fst (List.filter (fun c => snd c =? s)
                                            (combine lp strata))).
  { rewrite <- (map_fst_combine lp strata Hlen) at 1.
    apply (select_of_combine (fun s' => s' =? s) fst); exact Hlen. }
  assert (Hst : select mask strata
                = List.map snd (List.filter (fun c => snd c =? s)
                                            (combine lp strata))).
  { rewrite <- (map_snd_combine lp strata Hlen) at 1.
    apply (select_of_combine (fun s' => s' =? s) snd); exact Hlen. }
  rewrite Hlp, Hst. unfold softmax_by_stratum, mask.
  rewrite (select_of_combine (fun s' => s' =? s)) by exact Hlen.
  rewrite combine_fst_snd.
  set (df := combine lp strata).
  set (sub := List.filter (fun c => snd c =? s) df).
  assert (Hgrp : forall c, In c sub ->
            List.filter (fun c' => snd c' =? snd c) df = sub /\
            List.filter (fun c' => snd c' =? snd c) sub = sub).
  { intros c Hc. apply filter_In in Hc as [_ Hc]. apply Z.eqb_eq in Hc.
    rewrite Hc. split; [reflexivity | apply filter_filter_same]. }
  apply List.map_ext_in. intros c Hc.
  destruct (Hgrp c Hc) as [-> ->]. f_equal. f_equal.
  apply List.map_ext_in. intros c' Hc'.
  destruct (Hgrp c' Hc') as [-> ->]. reflexivity.
Qed.

End HeldOutRows.

(** ** More on the regularized table (regularize.py) *)

Section RegularizedTable.
Import Num Regularize Props Notions.
Context `{Libm} `{Reductions}.

(** *** Nothing to regularize *)

Lemma usable_none (f : Fix) :
  fix_id f = None \/ fix_time f = None \/
  isnan (fix_lon f) = true \/ isnan (fix_lat f) = true ->
  usable f = None.
Proof.
  unfold usable. intros [-> | [-> | [-> | ->]]]; try reflexivity.
  - destruct (fix_id f); reflexivity.
  - destruct (fix_id f), (fix_time f); reflexivity.
  - destruct (fix_id f), (fix_time f); try reflexivity.
    rewrite orb_true_r. reflexivity.
Qed.

(** X16: when every fix lacks its identifier, its timestamp or a coordinate,
    [regularize] does not return an empty table: the concatenation of no
    group raises, whatever the grid interval. *)
Theorem regularize_nothing_usable (df : list Fix) (cfg : Config) :
  (forall f, In f df ->
             fix_id f = None \/ fix_time f = None \/
             isnan (fix_lon f) = true \/ isnan (fix_lat f) = true) ->
  regularize df cfg = inl (ValueError "No objects to concatenate").
Proof.
  intros Hdf. unfold regularize.
  assert (Hg : omap usable df = []).
  { induction df as [|f df IH]; [reflexivity|].
    change (omap usable (f :: df))
      with (match usable f with
            | Some o => o :: omap usable df
            | None => omap usable df
            end).
    rewrite (usable_none f) by (apply Hdf; left; reflexivity).
    apply IH. intros f' Hf'. apply Hdf. right. exact Hf'. }
  rewrite Hg. reflexivity.
Qed.

(** *** Index labels *)

Lemma seq_shift_index (offset a n : nat) :
  List.map (fun i => Z.of_nat (offset + i)) (seq a n)
  = List.map Z.of_nat (seq (offset + a) n).
Proof.
  revert a. induction n as [|n IH]; intros a; [reflexivity|].
  cbn [seq List.map]. f_equal.
  rewrite IH, Nat.add_succ_r. reflexivity.
Qed.

Lemma grid_rows_index (cfg : Config) (lon0 lat0 : float) (offset : nat)
    (sid : Z) (s : list Obs) :
  List.map r_index (grid_rows cfg lon0 lat0 offset sid s)
  = List.map Z.of_nat
      (seq offset (length (grid_rows cfg lon0 lat0 offset sid s))).
Proof.
  rewrite length_grid_rows. unfold grid_rows.
  rewrite List.map_map. cbn [r_index].
  rewrite seq_shift_index, Nat.add_0_r. reflexivity.
Qed.

Lemma concat_groups_index (cfg : Config) (lon0 lat0 : float) (offset : nat)
    (groups : list (Z * list Obs)) :
  List.map r_index (concat_groups cfg lon0 lat0 offset groups)
  = List.map Z.of_nat
      (seq offset (length (concat_groups cfg lon0 lat0 offset groups))).
Proof.
  revert offset. induction groups as [|[sid s] groups IH]; intros offset;
    [reflexivity|].
  cbn [concat_groups]. cbv zeta.
  rewrite List.map_app, length_app, seq_app, List.map_app.
  rewrite grid_rows_index, IH. reflexivity.
Qed.

Lemma carry_sex_index (cfg : Config) (df : list Fix) (reg : list RegRow) :
  List.map r_index (carry_sex cfg df reg) = List.map r_index reg.
Proof.
  unfold carry_sex. destruct (sex_col cfg); [|reflexivity].
  rewrite List.map_map. reflexivity.
Qed.

Lemma seq_increasing (a n : nat) :
  Sorted.StronglySorted Z.lt (List.map Z.of_nat (seq a n)).
Proof.
  revert a. induction n as [|n IH]; intros a; cbn; constructor; [apply IH|].
  apply List.Forall_forall. intros z Hz.
  apply in_map_iff in Hz as (m & <- & Hm). apply in_seq in Hm. lia.
Qed.

Lemma sorted_map_filter {A : Type} (R : Z -> Z -> Prop) (f : A -> Z)
    (P : A -> bool) (l : list A) :
  Sorted.StronglySorted R (List.map f l) ->
  Sorted.StronglySorted R (List.map f (List.filter P l)).
Proof.
  induction l as [|a l IH]; cbn; [constructor|]. intros Hs.
  apply Sorted.StronglySorted_inv in Hs as [Hs Ha].
  destruct (P a); cbn; [|apply IH, Hs].
  constructor; [apply IH, Hs|].
  apply List.Forall_forall. intros z Hz.
  apply in_map_iff in Hz as (b & <- & Hb). apply filter_In in Hb as [Hb _].
  rewrite List.Forall_forall in Ha. apply Ha. apply in_map. exact Hb.
Qed.

Lemma increasing_NoDup (l : list Z) :
  Sorted.StronglySorted Z.lt l -> List.NoDup l.
Proof.
  induction 1 as [|a l _ IH Ha]; constructor; [|exact IH].
  intros Hin. rewrite List.Forall_forall in Ha. specialize (Ha a Hin). lia.
Qed.

Lemma regularize_returns (df : list Fix) (cfg : Config) (reg : list RegRow) :
  regularize df cfg = inr reg ->
  0 < dt_minutes cfg /\
  reg = List.filter complete_prev
          (carry_sex cfg df
             (concat_groups cfg
                (median (List.map o_lon (omap usable df)))
                (median (List.map o_lat (omap usable df)))
                0 (Frame.groupby o_id (omap usable df)))).
Proof.
  unfold regularize.
  destruct (Frame.groupby o_id (omap usable df)) as [|g0 gs] eqn:Egb;
    [discriminate|].
  destruct (Z.leb_spec (dt_minutes cfg) 0); [discriminate|].
  intros Hreg. apply (inj inr) in Hreg. subst reg. split; [lia | reflexivity].
Qed.

Lemma regularize_labels (df : list Fix) (cfg : Config) (reg : list RegRow) :
  regularize df cfg = inr reg ->
  Sorted.StronglySorted Z.lt (List.map r_index reg).
Proof.
  intros Hreg. apply regularize_returns in Hreg as [_ ->].
  apply sorted_map_filter. rewrite carry_sex_index, concat_groups_index.
  apply seq_increasing.
Qed.

(** X17: the rows that [regularize] returns carry index labels that increase
    down the table, so no two rows share a label: the table can be handed
    to [build_used_available], which looks rows up by label. *)
Theorem regularize_index_increasing (df : list Fix) (cfg : Config)
    (reg : list RegRow) :
  regularize df cfg = inr reg ->
  Sorted.StronglySorted Z.lt (List.map r_index reg) /\
  List.NoDup (List.map r_index reg).
Proof.
  intros Hreg. pose proof (regularize_labels df cfg reg Hreg) as Hs.
  split; [exact Hs | apply increasing_NoDup, Hs].
Qed.

(** *** Timestamps *)

Lemma insert_by_time_sorted (o : Obs) (l : list Obs) :
  Sorted.StronglySorted (fun a b => o_time a <= o_time b) l ->
  Sorted.StronglySorted (fun a b => o_time a <= o_time b) (insert_by_time o l).
Proof.
  induction 1 as [|a l Hs IH Ha]; cbn [insert_by_time].
  - repeat constructor.
  - destruct (Z.leb_spec (o_time o) (o_time a)).
    + constructor; [constructor; assumption|].
      constructor; [assumption|].
      rewrite List.Forall_forall in Ha |- *. intros x Hx.
      specialize (Ha x Hx). cbv beta in *. lia.
    + constructor; [exact IH|].
      apply List.Forall_forall. intros x Hx.
      apply In_insert_by_time in Hx as [-> | Hx]; [cbv beta; lia|].
      rewrite List.Forall_forall in Ha. apply Ha, Hx.
Qed.

Lemma sort_by_time_sorted (l : list Obs) :
  Sorted.StronglySorted (fun a b => o_time a <= o_time b) (sort_by_time l).
Proof.
  induction l as [|o l IH]; [constructor|].
  apply insert_by_time_sorted, IH.
Qed.

Lemma last_indep (l : list Obs) (d d' : Obs) :
  l <> [] -> List.last l d = List.last l d'.
Proof.
  induction l as [|a l IH]; [congruence|]. intros _.
  destruct l as [|b l']; [reflexivity|]. apply IH. discriminate.
Qed.

Lemma sorted_last (o0 : Obs) (l : list Obs) :
  Sorted.StronglySorted (fun a b => o_time a <= o_time b) (o0 :: l) ->
  forall o, In o (o0 :: l) -> o_time o <= o_time (List.last (o0 :: l) o0).
Proof.
  revert o0. induction l as [|a l IH]; intros o0 Hs o Ho.
  - destruct Ho as [<- | []]. cbn. lia.
  - apply Sorted.StronglySorted_inv in Hs as [Hs Ha].
    change (List.last (o0 :: a :: l) o0) with (List.last (a :: l) o0).
    rewrite (last_indep (a :: l) o0 a) by discriminate.
    destruct Ho as [<- | Ho].
    + rewrite List.Forall_forall in Ha.
      specialize (Ha a (or_introl eq_refl)). cbv beta in Ha.
      specialize (IH a Hs a (or_introl eq_refl)). lia.
    + apply IH; assumption.
Qed.

Lemma nth_map_seq {A : Type} (h : nat -> A) (a n i : nat) (d : A) :
  (i < n)%nat -> nth i (List.map h (seq a n)) d = h (a + i)%nat.
Proof.
  intros Hi. rewrite (nth_indep _ d (h 0%nat)) by (rewrite length_map, length_seq; lia).
  rewrite map_nth, seq_nth by lia. reflexivity.
Qed.

Lemma resample_time (delta : Z) (o0 : Obs) (rest : list Obs) (i : nat) :
  (i < length (resample delta (o0 :: rest)))%nat ->
  nth i (List.map (fun c => fst (fst c)) (resample delta (o0 :: rest))) 0
  = grid_start delta (o_time o0) + Z.of_nat i * delta.
Proof.
  rewrite length_resample. intros Hi. unfold resample.
  rewrite List.map_map. cbn [fst].
  unfold grid_labels. rewrite !length_map, !length_seq.
  rewrite nth_map_seq by exact Hi. cbn [Nat.add].
  rewrite nth_map_seq by exact Hi. reflexivity.
Qed.

Lemma In_concat_tails (cfg : Config) (lon0 lat0 : float) (offset : nat)
    (groups : list (Z * list Obs)) (r : RegRow) :
  In r (concat_tails cfg lon0 lat0 offset groups) ->
  exists sid s off, In (sid, s) groups /\
                    In r (tl (grid_rows cfg lon0 lat0 off sid s)).
Proof.
  revert offset. induction groups as [|[sid s] groups IH]; intros offset;
    [intros []|].
  cbn [concat_tails]. cbv zeta. intros Hin.
  apply in_app_or in Hin as [Hin|Hin].
  - exists sid, s, offset. split; [left; reflexivity | exact Hin].
  - destruct (IH _ Hin) as (sid' & s' & off & Hg & Hr).
    exists sid', s', off. split; [right; exact Hg | exact Hr].
Qed.

Lemma later_grid_row (cfg : Config) (lon0 lat0 : float) (offset : nat)
    (sid : Z) (s : list Obs) (r : RegRow) :
  In r (tl (grid_rows cfg lon0 lat0 offset sid s)) ->
  r_id r = sid /\
  exists i, (1 <= i < length (resample (dt_minutes cfg * minute_ns)
                                       (sort_by_time s)))%nat /\
            r_time r
            = nth i (List.map (fun c => fst (fst c))
                              (resample (dt_minutes cfg * minute_ns)
                                        (sort_by_time s))) 0.
Proof.
  unfold grid_rows.
  generalize (resample (dt_minutes cfg * minute_ns) (sort_by_time s)).
  intros g. destruct (length g) as [|n] eqn:En; [intros []|].
  cbn [seq List.map tl]. intros Hin.
  apply in_map_iff in Hin as (i & <- & Hi). apply in_seq in Hi.
  cbn [r_id r_time]. split; [reflexivity|].
  exists i. split; [lia | reflexivity].
Qed.

Lemma carry_sex_row (cfg : Config) (df : list Fix) (reg : list RegRow)
    (r : RegRow) :
  In r (carry_sex cfg df reg) ->
  exists r', In r' reg /\ r_id r = r_id r' /\ r_time r = r_time r'.
Proof.
  unfold carry_sex. destruct (sex_col cfg).
  - intros Hin. apply in_map_iff in Hin as (r' & <- & Hr'). eauto.
  - eauto.
Qed.

(** X18: every row that [regularize] returns is stamped on the grid of its
    individual, which is anchored at midnight of the day of the
    individual's earliest usable fix: the timestamp is the grid start plus
    a positive multiple of the interval, later than the earliest fix and
    not later than the latest one. *)
Theorem regularize_times_on_grid (df : list Fix) (cfg : Config)
    (reg : list RegRow) :
  regularize df cfg = inr reg ->
  Forall
    (fun r =>
       let s := Frame.group_at o_id (r_id r) (omap usable df) in
       let delta := dt_minutes cfg * minute_ns in
       exists o1 o2 j,
         In o1 s /\ In o2 s /\
         (forall o, In o s -> o_time o1 <= o_time o <= o_time o2) /\
         1 <= j /\
         r_time r = grid_start delta (o_time o1) + j * delta /\
         o_time o1 < r_time r <= o_time o2)
    reg.
Proof.
  intros Hreg. apply regularize_returns in Hreg as [Hdt ->].
  apply List.Forall_forall. intros r Hr.
  rewrite filter_carry_sex, filter_concat_tails, <- filter_carry_sex in Hr.
  apply filter_In in Hr as [Hr _].
  apply carry_sex_row in Hr as (r' & Hr' & -> & ->).
  apply In_concat_tails in Hr' as (sid & s & off & Hg & Hr').
  apply In_groupby in Hg.
  apply later_grid_row in Hr' as (-> & i & Hi & ->).
  rewrite <- Hg. cbv zeta.
  assert (Hdelta : 0 < dt_minutes cfg * minute_ns) by (unfold minute_ns; lia).
  set (delta := dt_minutes cfg * minute_ns) in *.
  pose proof (sort_by_time_sorted s) as Hsorted.
  destruct (sort_by_time s) as [|o0 rest] eqn:Es; [cbn in Hi; lia|].
  rewrite resample_time by lia.
  rewrite length_resample in Hi. unfold grid_length in Hi.
  set (last := List.last (o0 :: rest) o0) in *.
  exists o0, last, (Z.of_nat i).
  assert (Hin : forall o, In o s <-> In o (o0 :: rest))
    by (intros o; rewrite <- Es; symmetry; apply In_sort_by_time).
  split; [apply Hin; left; reflexivity|].
  split; [apply Hin; apply last_In; discriminate|].
  split.
  { intros o Ho. apply Hin in Ho. split.
    - destruct Ho as [<- | Ho]; [lia|].
      apply Sorted.StronglySorted_inv in Hsorted as [_ Hall].
      rewrite List.Forall_forall in Hall. apply Hall, Ho.
    - apply sorted_last; assumption. }
  split; [lia|]. split; [reflexivity|].
  unfold grid_start.
  pose proof (Z.mod_pos_bound (o_time o0 - normalize (o_time o0)) delta Hdelta)
    as Hm.
  set (m := (o_time o0 - normalize (o_time o0)) mod delta) in *.
  unfold grid_start in Hi. fold m in Hi.
  set (q := (o_time last - (o_time o0 - m)) / delta) in *.
  pose proof (Z.mul_div_le (o_time last - (o_time o0 - m)) delta Hdelta) as Hq.
  fold q in Hq.
  assert (Hlast : o_time o0 <= o_time last)
    by (apply sorted_last; [exact Hsorted | left; reflexivity]).
  assert (0 <= q) by (apply Z.div_pos; lia).
  split; nia.
Qed.

(** *** Row order *)

Lemma insert_key_In (k x : Z) (ks : list Z) :
  In x (Frame.insert_key k ks) -> x = k \/ In x ks.
Proof.
  induction ks as [|k' ks IH]; cbn [Frame.insert_key].
  - intros [<- | []]. left. reflexivity.
  - destruct (k <? k'); [intros [<- | Hx]; auto|].
    destruct (k =? k'); [auto|].
    intros [<- | Hx]; [right; left; reflexivity|].
    destruct (IH Hx); [left | right; right]; assumption.
Qed.

Lemma insert_key_sorted (k : Z) (ks : list Z) :
  Sorted.StronglySorted Z.lt ks ->
  Sorted.StronglySorted Z.lt (Frame.insert_key k ks).
Proof.
  induction 1 as [|k' ks Hs IH Hk']; cbn [Frame.insert_key].
  - repeat constructor.
  - destruct (Z.ltb_spec k k').
    + constructor; [constructor; assumption|].
      constructor; [assumption|].
      rewrite List.Forall_forall in Hk' |- *. intros x Hx.
      specialize (Hk' x Hx). lia.
    + destruct (Z.eqb_spec k k'); [constructor; assumption|].
      constructor; [exact IH|].
      apply List.Forall_forall. intros x Hx.
      apply insert_key_In in Hx as [-> | Hx]; [lia|].
      rewrite List.Forall_forall in Hk'. apply Hk', Hx.
Qed.

Lemma group_keys_sorted (l : list Z) :
  Sorted.StronglySorted Z.lt (Frame.group_keys l).
Proof.
  induction l as [|k l IH]; [constructor|].
  apply insert_key_sorted, IH.
Qed.

Lemma sorted_app {A : Type} (R : A -> A -> Prop) (l1 l2 : list A) :
  Sorted.StronglySorted R l1 -> Sorted.StronglySorted R l2 ->
  (forall a b, In a l1 -> In b l2 -> R a b) ->
  Sorted.StronglySorted R (l1 ++ l2).
Proof.
  induction 1 as [|a l1 Hs IH Ha]; intros H2 Hcross; [exact H2|].
  cbn. constructor.
  - apply IH; [exact H2|]. intros x y Hx Hy. apply Hcross; [right|]; assumption.
  - apply Forall_app_2; [exact Ha|].
    apply List.Forall_forall. intros b Hb. apply Hcross; [left; reflexivity|].
    exact Hb.
Qed.

Lemma sorted_map_seq {A : Type} (R : A -> A -> Prop) (F : nat -> A)
    (a n : nat) :
  (forall i j, (a <= i < j)%nat -> (j < a + n)%nat -> R (F i) (F j)) ->
  Sorted.StronglySorted R (List.map F (seq a n)).
Proof.
  revert a. induction n as [|n IH]; intros a HR; cbn; constructor.
  - apply IH. intros i j Hij Hj. apply HR; lia.
  - apply List.Forall_forall. intros x Hx.
    apply in_map_iff in Hx as (j & <- & Hj). apply in_seq in Hj.
    apply HR; lia.
Qed.

Lemma sorted_filter_any {A : Type} (R : A -> A -> Prop) (P : A -> bool)
    (l : list A) :
  Sorted.StronglySorted R l -> Sorted.StronglySorted R (List.filter P l).
Proof.
  induction 1 as [|a l Hs IH Ha]; cbn; [constructor|].
  destruct (P a); [|exact IH]. constructor; [exact IH|].
  rewrite List.Forall_forall in Ha |- *. intros x Hx.
  apply filter_In in Hx as [Hx _]. apply Ha, Hx.
Qed.

Lemma sorted_map_rel {A : Type} (R : A -> A -> Prop) (f : A -> A)
    (l : list A) :
  (forall a b, R a b -> R (f a) (f b)) ->
  Sorted.StronglySorted R l -> Sorted.StronglySorted R (List.map f l).
Proof.
  intros Hf. induction 1 as [|a l Hs IH Ha]; cbn; constructor; [exact IH|].
  apply List.Forall_forall. intros x Hx.
  apply in_map_iff in Hx as (b & <- & Hb).
  rewrite List.Forall_forall in Ha. apply Hf, Ha, Hb.
Qed.

Lemma grid_rows_sorted (cfg : Config) (lon0 lat0 : float) (offset : nat)
    (sid : Z) (s : list Obs) :
  0 < dt_minutes cfg ->
  Sorted.StronglySorted row_before (grid_rows cfg lon0 lat0 offset sid s).
Proof.
  intros Hdt.
  assert (Hdelta : 0 < dt_minutes cfg * minute_ns) by (unfold minute_ns; lia).
  unfold grid_rows.
  destruct (sort_by_time s) as [|o0 rest] eqn:Es; [constructor|].
  apply sorted_map_seq. intros i j Hij Hj. right. cbn [r_id r_time].
  split; [reflexivity|].
  rewrite !resample_time by lia. nia.
Qed.

Lemma concat_groups_sorted (cfg : Config) (lon0 lat0 : float) (offset : nat)
    (groups : list (Z * list Obs)) :
  0 < dt_minutes cfg ->
  Sorted.StronglySorted Z.lt (List.map fst groups) ->
  Sorted.StronglySorted row_before (concat_groups cfg lon0 lat0 offset groups).
Proof.
  intros Hdt. revert offset.
  induction groups as [|[sid s] groups IH]; intros offset Hkeys;
    [constructor|].
  cbn [concat_groups]. cbv zeta. cbn [List.map fst] in Hkeys.
  apply Sorted.StronglySorted_inv in Hkeys as [Hkeys Hsid].
  apply sorted_app.
  - apply grid_rows_sorted, Hdt.
  - apply IH, Hkeys.
  - intros a b Ha Hb. left.
    apply grid_rows_id in Ha.
    apply In_concat_groups in Hb as (sid' & s' & off & Hg & Hb).
    apply grid_rows_id in Hb. rewrite Ha, Hb.
    rewrite List.Forall_forall in Hsid. apply Hsid.
    apply in_map_iff. exists (sid', s'). split; [reflexivity | exact Hg].
Qed.

(** X19: the table that [regularize] returns is ordered by individual and,
    for one individual, by strictly increasing time: no individual has two
    rows with the same timestamp. *)
Theorem regularize_sorted_by_id_time (df : list Fix) (cfg : Config)
    (reg : list RegRow) :
  regularize df cfg = inr reg ->
  Sorted.StronglySorted row_before reg.
Proof.
  intros Hreg. apply regularize_returns in Hreg as [Hdt ->].
  apply sorted_filter_any. unfold carry_sex.
  assert (Hs : Sorted.StronglySorted row_before
                 (concat_groups cfg
                    (median (List.map o_lon (omap usable df)))
                    (median (List.map o_lat (omap usable df)))
                    0 (Frame.groupby o_id (omap usable df)))).
  { apply concat_groups_sorted; [exact Hdt|].
    unfold Frame.groupby. rewrite List.map_map. cbn [fst].
    rewrite List.map_id. apply group_keys_sorted. }
  destruct (sex_col cfg); [|exact Hs].
  apply sorted_map_rel; [|exact Hs].
  intros a b Hab. exact Hab.
Qed.

End RegularizedTable.

(** ** The turn angle on binary64 numbers (regularize.py) *)

Section TurnAngleFloat.
Import Num.

Lemma isfinite_Prim2SF (h : float) :
  isfinite h = match Prim2SF h with
               | S754_zero _ | S754_finite _ _ _ => true
               | _ => false
               end.
Proof.
  unfold isfinite, is_finite, is_nan, is_infinity.
  rewrite !FloatAxioms.eqb_spec, abs_spec.
  change (Prim2SF infinity) with (S754_infinity false).
  destruct (Prim2SF h) as [s|s| |s m e] eqn:E.
  - reflexivity.
  - destruct s; reflexivity.
  - reflexivity.
  - rewrite SFeqb_refl by discriminate. reflexivity.
Qed.

Lemma float_sub_self (h : float) :
  PrimFloat.sub h h = if isfinite h then 0%float else nan.
Proof.
  apply Prim2SF_inj. rewrite sub_spec, isfinite_Prim2SF.
  destruct (Prim2SF h) as [s|s| |s m e].
  - destruct s; reflexivity.
  - destruct s; reflexivity.
  - reflexivity.
  - unfold SF64sub, SFsub. zfold. rewrite Z.sub_diag. reflexivity.
Qed.

Lemma float_sub_nan_r (h : float) : PrimFloat.sub h nan = nan.
Proof.
  apply Prim2SF_inj. rewrite sub_spec.
  change (Prim2SF nan) with S754_nan.
  destruct (Prim2SF h) as [s|s| |s m e]; reflexivity.
Qed.

Lemma float_sub_nan_l (h : float) : PrimFloat.sub nan h = nan.
Proof.
  apply Prim2SF_inj. rewrite sub_spec.
  change (Prim2SF nan) with S754_nan. reflexivity.
Qed.

(** X20: a heading equal to the previous one gives the turn 0 exactly, as long
    as it is finite; a missing heading, on either side, gives a missing
    turn, and so does an infinite one against itself. *)
Theorem turn_angle_straight_or_missing (h : float) :
  turn_angle h h = (if isfinite h then 0%float else nan) /\
  turn_angle h nan = nan /\
  turn_angle nan h = nan.
Proof.
  unfold turn_angle. cbn [a_sub a_add a_mod a_pi a_two_pi float_angle].
  rewrite (float_sub_self h), (float_sub_nan_r h), (float_sub_nan_l h).
  split; [|split]; [destruct (isfinite h)| |]; vm_compute; reflexivity.
Qed.

End TurnAngleFloat.

(** ** The post-hoc lead/follow table (analysis_social.py) *)

Section LeadFollow.
Import Num Social AnalysisSocial.
Context `{Libm}.

Lemma In_omap {A B : Type} (f : A -> option B) (l : list A) (y : B) :
  In y (omap f l) <-> exists x, In x l /\ f x = Some y.
Proof.
  induction l as [|a l IH].
  - split; [intros [] | intros (x & [] & _)].
  - change (omap f (a :: l))
      with (match f a with Some b => b :: omap f l | None => omap f l end).
    destruct (f a) as [b|] eqn:Ea.
    + split.
      * intros [<- | Hy]; [exists a; split; [left; reflexivity | exact Ea]|].
        apply IH in Hy as (x & Hx & Hf). exists x. split; [right|]; assumption.
      * intros (x & [<- | Hx] & Hf).
        -- left. congruence.
        -- right. apply IH. exists x. split; assumption.
    + rewrite IH. split.
      * intros (x & Hx & Hf). exists x. split; [right|]; assumption.
      * intros (x & [<- | Hx] & Hf); [congruence|].
        exists x. split; assumption.
Qed.

Lemma In_tl {A : Type} (x : A) (l : list A) : In x (tl l) -> In x l.
Proof. destruct l; [intros [] | intros Hx; right; exact Hx]. Qed.

Lemma lead_row_Some (cfg : Config) (reg : list RegRow) (sid : Z)
    (row : RegRow) (l : LeadRow) :
  lead_row cfg reg sid row = Some l ->
  l_id l = sid /\ l_time l = r_time row /\
  (lead_future l = 0 \/ lead_future l = 1) /\
  isfinite (heading_rad row) = true /\
  exists o, In o reg /\ r_id o <> sid /\
            r_time o = r_time row + dt_minutes cfg * Regularize.minute_ns.
Proof.
  unfold lead_row. cbv zeta.
  destruct (isfinite (heading_rad row)); cbn [negb]; [|discriminate].
  destruct (others_at reg _ sid) as [|o others] eqn:Eo; [discriminate|].
  intros [= <-]. cbn [l_id l_time lead_future].
  repeat split.
  - destruct (negb _); [left; reflexivity|].
    destruct (existsb _ _); [right | left]; reflexivity.
  - assert (Ho : In o (others_at reg
                         (r_time row + dt_minutes cfg * Regularize.minute_ns)
                         sid)) by (rewrite Eo; left; reflexivity).
    apply filter_In in Ho as [Ho Hc].
    apply andb_true_iff in Hc as [Ht Hi].
    apply Z.eqb_eq in Ht. apply negb_true_iff, Z.eqb_neq in Hi.
    exists o. repeat split; assumption.
Qed.

Lemma lead_follow_In (reg : list RegRow) (cfg : Config) (l : LeadRow) :
  In l (lead_follow_posthoc reg cfg) ->
  (lead_future l = 0 \/ lead_future l = 1) /\
  exists r, In r reg /\ r_id r = l_id l /\ r_time r = l_time l /\
            isfinite (heading_rad r) = true /\
            exists o, In o reg /\ r_id o <> l_id l /\
                      r_time o
                      = l_time l + dt_minutes cfg * Regularize.minute_ns.
Proof.
  unfold lead_follow_posthoc. intros Hl.
  apply in_flat_map in Hl as ([sid g] & Hg & Hl). cbn [fst snd] in Hl.
  apply In_omap in Hl as (row & Hrow & Hl).
  apply lead_row_Some in Hl as (Hid & Ht & Hlf & Hfin & o & Ho & Hoid & Hot).
  apply In_tl in Hrow.
  unfold Frame.groupby in Hg.
  apply in_map_iff in Hg as (k & [= <- <-] & _).
  apply filter_In in Hrow as [Hrow Hk]. apply Z.eqb_eq in Hk.
  apply (Permutation_in _ (sort_values_perm r_id r_time reg)) in Hrow.
  split; [exact Hlf|].
  exists row. rewrite Hid, Ht. repeat split; try assumption.
  exists o. repeat split; assumption.
Qed.

(** X21: every row of the table stands for a step of the input with a finite
    heading, for which another individual has a row exactly one grid
    interval later; its [lead_future] is 0 or 1. *)
Theorem lead_follow_rows (reg : list RegRow) (cfg : Config) :
  Forall
    (fun l =>
       (lead_future l = 0 \/ lead_future l = 1) /\
       exists r, In r reg /\ r_id r = l_id l /\ r_time r = l_time l /\
                 isfinite (heading_rad r) = true /\
                 exists o, In o reg /\ r_id o <> l_id l /\
                           r_time o
                           = l_time l + dt_minutes cfg * Regularize.minute_ns)
    (lead_follow_posthoc reg cfg).
Proof.
  apply List.Forall_forall. intros l Hl. apply lead_follow_In, Hl.
Qed.

(** X22: with the rows of one individual only, the table is empty. *)
Theorem lead_follow_one_individual (reg : list RegRow) (cfg : Config) :
  (forall r r', In r reg -> In r' reg -> r_id r = r_id r') ->
  lead_follow_posthoc reg cfg = [].
Proof.
  intros Hone.
  destruct (lead_follow_posthoc reg cfg) as [|l out] eqn:E; [reflexivity|].
  assert (Hl : In l (lead_follow_posthoc reg cfg))
    by (rewrite E; left; reflexivity).
  apply lead_follow_In in Hl as (_ & r & Hr & Hid & _ & _ & o & Ho & Hoid & _).
  exfalso. apply Hoid. rewrite <- Hid. apply Hone; assumption.
Qed.

End LeadFollow.

(** ** The table of the command [design] (cli/main.py) *)

Section DesignCommand.
Import Num Steps Design Props Notions.
Context `{Libm} `{Reductions} `{NumpyRandom}.

Lemma build_inversion (reg : list RegRow) (cfg : Config)
    (dsg : list DesignRow) :
  List.NoDup (List.map r_index reg) ->
  build_used_available reg cfg = inr dsg ->
  exists avail,
    sample_loop (K_available cfg) (dropna (List.map step_len_m reg))
                (dropna (List.map turn_rad reg)) (default_rng (seed cfg)) reg
    = inr avail /\
    avail <> [] /\
    dsg = List.map (used_row cfg) reg ++ List.map (design_of cfg reg) avail.
Proof.
  intros Hnd Hb.
  destruct (sample (K_available cfg) (seed cfg) reg) as [e|avail] eqn:Hs;
    [unfold build_used_available in Hb; rewrite Hs in Hb; discriminate|].
  destruct avail as [|a0 avail'];
    [unfold build_used_available in Hb; rewrite Hs in Hb; discriminate|].
  assert (Hloop : sample_loop (K_available cfg)
                    (dropna (List.map step_len_m reg))
                    (dropna (List.map turn_rad reg))
                    (default_rng (seed cfg)) reg = inr (a0 :: avail')).
  { unfold sample in Hs.
    destruct (dropna (List.map step_len_m reg)); [discriminate|].
    destruct (dropna (List.map turn_rad reg)); [discriminate|]. exact Hs. }
  exists (a0 :: avail'). split; [exact Hloop|]. split; [discriminate|].
  pose proof (sample_loop_labels _ _ _ _ _ _ Hloop) as Hlab.
  rewrite (build_returns reg cfg a0 avail' Hnd Hs Hlab) in Hb.
  apply (inj inr) in Hb. symmetry. exact Hb.
Qed.

Lemma map_const_repeat {A B : Type} (b : B) (l : list A) :
  List.map (fun _ => b) l = repeat b (length l).
Proof. induction l as [|a l IH]; cbn; [|rewrite IH]; reflexivity. Qed.

Lemma sample_row_flags (K : nat) (pl pt : list float) (rng : Generator)
    (r : RegRow) (cfg : Config) (reg : list RegRow) :
  List.map is_used
    (List.map (design_of cfg reg) (fst (sample_row K pl pt rng r)))
  = repeat 0 K.
Proof.
  unfold sample_row; simpl. rewrite !List.map_map.
  rewrite (List.map_ext _ (fun _ => 0)) by reflexivity.
  rewrite map_const_repeat, length_seq. reflexivity.
Qed.

(** The flags [is_used] of one stratum of the table that
    [build_used_available] returns, read down the table. *)
Lemma build_stratum_flags (reg : list RegRow) (cfg : Config)
    (dsg : list DesignRow) (s : Z) :
  List.NoDup (List.map r_index reg) ->
  build_used_available reg cfg = inr dsg ->
  1 <= K_available cfg /\
  (List.map is_used (List.filter (in_stratum s) dsg) = [] \/
   List.map is_used (List.filter (in_stratum s) dsg) = [1] \/
   List.map is_used (List.filter (in_stratum s) dsg)
   = 1 :: repeat 0 (Z.to_nat (K_available cfg))).
Proof.
  intros Hnd Hb.
  destruct (build_inversion reg cfg dsg Hnd Hb) as (avail & Hloop & Hne & ->).
  split.
  { destruct (sample_loop_length _ _ _ _ _ _ Hloop) as [Hlen _].
    destruct avail; [congruence|]. cbn [length] in Hlen. lia. }
  rewrite List.filter_app, List.map_app.
  rewrite (filter_map_commute (in_stratum s) (has_label s)) by reflexivity.
  rewrite (filter_map_commute (in_stratum s) (avail_in_stratum s))
    by reflexivity.
  destruct (in_dec Z.eq_dec s (List.map r_index reg)) as [Hin|Hout].
  - apply in_map_iff in Hin as (r & <- & Hr).
    rewrite (filter_label_unique reg r Hnd Hr).
    destruct (sample_loop_stratum _ _ _ _ _ _ r Hnd Hr Hloop) as (rng' & ->).
    destruct (isfinite (heading_rad r)).
    + right. right. cbn [List.map app is_used used_row].
      rewrite sample_row_flags. reflexivity.
    + right. left. reflexivity.
  - left. rewrite (filter_label_absent s reg Hout).
    rewrite filter_none; [reflexivity|].
    intros a Ha. unfold avail_in_stratum.
    apply Z.eqb_neq. intros E. apply Hout. rewrite <- E.
    exact (sample_loop_labels _ _ _ _ _ _ Hloop a Ha).
Qed.

Lemma filter_key_kept {A : Type} (key : A -> Z) (bad : Z -> bool)
    (l : list A) (s : Z) :
  List.filter (fun a => key a =? s)
    (List.filter (fun a => negb (bad (key a))) l)
  = (if bad s then [] else List.filter (fun a => key a =? s) l).
Proof.
  induction l as [|x l IHl]; cbn [List.filter].
  - destruct (bad s); reflexivity.
  - destruct (bad (key x)) eqn:Eb; cbn [negb List.filter];
      destruct (key x =? s) eqn:Ex; rewrite IHl; try reflexivity;
      apply Z.eqb_eq in Ex; rewrite <- Ex, Eb; reflexivity.
Qed.

Lemma flags_of_identity (s : Z) (l1 : list SocialRow) (l2 : list DesignRow) :
  List.map (fun r => identity (base r)) l1 = List.map identity l2 ->
  List.map (fun r => is_used (base r)) (List.filter (stratum_is s) l1)
  = List.map is_used (List.filter (in_stratum s) l2).
Proof.
  revert l2. induction l1 as [|r l1 IH]; intros [|d l2] E; try discriminate;
    [reflexivity|].
  cbn [List.map] in E.
  assert (Ei : identity (base r) = identity d) by congruence.
  assert (El : List.map (fun r => identity (base r)) l1 = List.map identity l2)
    by congruence.
  clear E. rename El into E.
  assert (Hs : stratum_id (base r) = stratum_id d)
    by (unfold identity in Ei; congruence).
  assert (Hu : is_used (base r) = is_used d)
    by (unfold identity in Ei; congruence).
  cbn [List.filter]. unfold stratum_is at 1, in_stratum at 1.
  rewrite Hs. destruct (stratum_id d =? s); cbn [List.map];
    rewrite (IH l2 E); [rewrite Hu|]; reflexivity.
Qed.

(** X23: whenever the command computes a table, [K_available] is at least 1
    and every stratum of the table is the used row of a step followed by
    [K_available] rows that are not used, or the used row alone: the index
    labels that [regularize] gives are distinct, [build_used_available]
    writes one used row per label, and [add_social] drops strata whole. *)
Theorem design_strata_shape (have_kdtree : bool) (raw : list Regularize.Fix)
    (c : Config) (out : list SocialRow) (s : Z) :
  Cli.design have_kdtree raw c = inr out ->
  1 <= K_available c /\
  let flags :=
    List.map (fun r => is_used (base r)) (List.filter (stratum_is s) out) in
  flags = [] \/ flags = [1] \/
  flags = 1 :: repeat 0 (Z.to_nat (K_available c)).
Proof.
  unfold Cli.design.
  destruct (Regularize.regularize raw c) as [e|reg] eqn:Hreg; [discriminate|].
  destruct (build_used_available reg c) as [e|dsg] eqn:Hb; [discriminate|].
  intros Hout. apply (inj inr) in Hout. subst out.
  assert (Hnd : List.NoDup (List.map r_index reg))
    by (apply increasing_NoDup, (regularize_labels raw c), Hreg).
  destruct (build_stratum_flags reg c dsg s Hnd Hb) as [HK Hflags].
  split; [exact HK|]. cbv zeta.
  rewrite (flags_of_identity s _ _ (add_social_identity have_kdtree dsg reg c)).
  set (bad := fun z => existsb
                       (fun d' => negb (isfinite (cos_turn d'))
                                  && (stratum_id d' =? z)) dsg).
  change (List.map is_used
            (List.filter (fun d => stratum_id d =? s)
               (List.filter (fun d => negb (bad (stratum_id d))) dsg))
          = [] \/
          List.map is_used
            (List.filter (fun d => stratum_id d =? s)
               (List.filter (fun d => negb (bad (stratum_id d))) dsg))
          = [1] \/
          List.map is_used
            (List.filter (fun d => stratum_id d =? s)
               (List.filter (fun d => negb (bad (stratum_id d))) dsg))
          = 1 :: repeat 0 (Z.to_nat (K_available c))).
  rewrite (filter_key_kept stratum_id bad dsg s).
  destruct (bad s); [left; reflexivity | exact Hflags].
Qed.

End DesignCommand.

(** ** The theorems at work on small tables *)

Section Instances.
Import Num Social Design Steps Validate Regularize Props Examples Reference.

(** C1 on a table of two timestamps: moving the rows of the later one does
    not change the answer at the earlier one. *)
Lemma query_social_time_exact_witness :
  Forall2 (same_outside 0) two_times later_moved /\
  query_social (build true (init 50 90) two_times) 0 0 0 0 1
  = query_social (build true (init 50 90) later_moved) 0 0 0 0 1.
Proof.
  assert (Hsame : Forall2 (same_outside 0) two_times later_moved).
  { unfold two_times, later_moved.
    repeat (constructor;
            [split; [reflexivity|split; [reflexivity|]];
             first [intros _; reflexivity | intros E; vm_compute in E; discriminate E]|]).
    constructor. }
  split; [exact Hsame|].
  apply (query_social_time_exact true 50 90 two_times later_moved 0 0 0 0 1 Hsame).
Defined.

(** C10 with one conspecific exactly 50 m away and a radius of 50 m. *)
Lemma radius_boundary_inclusive_witness :
  In at_radius [at_radius] /\
  r_id at_radius <> 1 /\
  isfinite 50 = true /\
  hypot (PrimFloat.sub (x_m at_radius) 0) (PrimFloat.sub (y_m at_radius) 0)
  = 50%float /\
  isnan (nn_dist (query_social (build true (init 50 90) [at_radius])
                               (r_time at_radius) 0 0 0 1)) = false.
Proof.
  assert (Hin : In at_radius [at_radius]) by (left; reflexivity).
  assert (Hid : r_id at_radius <> 1) by (vm_compute; discriminate).
  assert (Hfin : isfinite 50 = true) by reflexivity.
  assert (Hd : hypot (PrimFloat.sub (x_m at_radius) 0)
                     (PrimFloat.sub (y_m at_radius) 0) = 50%float)
    by (vm_compute; reflexivity).
  repeat (split; [assumption|]).
  exact (proj1 (proj2
    (radius_boundary_inclusive true 50 90 [at_radius] at_radius 0 0 0 1
       (base (design_row 0 1 0 0)) None Hin Hid Hfin Hd))).
Defined.

(** The same table evaluated: the conspecific at 50 m is neither ahead nor
    behind a step heading north, and after the missing-value pass the row
    is the one of a query that found nobody. *)
Example boundary_neighbour_looks_absent :
  nn_dist (query_social (build true (init 50 90) [at_radius]) 0 0 0 0 1)
  = 50%float /\
  fill_social 50
    [query_row (build true (init 50 90) [at_radius]) (base (design_row 0 1 0 1))]
  = fill_social 50
      [query_row (build true (init 50 90) []) (base (design_row 0 1 0 1))].
Proof. vm_compute. split; reflexivity. Qed.




(** With no alternative per step the sampler returns an empty frame, and
    reading its column [x_end] raises. *)
Example build_with_no_alternative :
  build_used_available (firstn 2 two_times)
    {| dt_minutes := 10; K_available := 0;
       neighbor_radius_m := 50; cone_half_angle_deg := 90;
       include_cos_turn := true; include_log_l := true; include_log_l2 := true;
       seed := 42; sex_col := false |}
  = inl (KeyError "x_end").
Proof. vm_compute. reflexivity. Qed.


Example fold_labels_interleave :
  List.map (fun l => (row l, t_rank l, t_fold l))
           (fold_labels fst snd id_time_rows 2)
  = [((1, 10), 1, 1); ((1, 20), 2, 0); ((1, 30), 3, 1);
     ((2, 5), 1, 1); ((2, 7), 2, 0)].
Proof. vm_compute. reflexivity. Qed.



Example two_fixes_in_one_bin_give_no_row :
  regularize two_fixes_one_bin cfg = inr [].
Proof. vm_compute. reflexivity. Qed.


(** C8 evaluated: the column (-1, 1) has mean 0 and standard deviation 1
    and is returned as it is. *)
Example zscore_unit_column :
  nanmean [(-1)%float; 1%float] = 0%float /\
  nanstd [(-1)%float; 1%float] = 1%float /\
  _zscore (Some (NumSeries [(-1)%float; 1%float]))
  = Some (NumSeries [(-1)%float; 1%float]).
Proof. vm_compute. repeat split. Qed.

End Instances.

(** ** The further theorems at work on small tables *)

Section MoreInstances.
Import Num Social Design Steps Validate Regularize AnalysisSocial.
Import Props Notions Examples MoreExamples Reference.

(** X1 on the table of two timestamps, asked about a time in between. *)
Lemma query_social_absent_time_witness :
  ~ In (minutes 5) (List.map r_time two_times) /\
  query_social (build true (init 50 90) two_times) (minutes 5) 0 0 0 1
  = no_neighbours.
Proof.
  assert (Hn : ~ In (minutes 5) (List.map r_time two_times)).
  { vm_compute. intros [E|[E|[E|[E|[]]]]]; discriminate E. }
  split; [exact Hn|].
  exact (query_social_absent_time true 50 90 two_times (minutes 5) 0 0 0 1 Hn).
Defined.

(** X4 with one conspecific at 50 m. *)
Lemma nn_dist_is_least_witness :
  within_radius 50 (List.map point_of (Frame.group_at r_time 0 [at_radius]))
                0 0 1 <> [] /\
  exists n,
    In n (within_radius 50
            (List.map point_of (Frame.group_at r_time 0 [at_radius])) 0 0 1) /\
    nn_dist (query_social (build true (init 50 90) [at_radius]) 0 0 0 0 1)
    = nb_dist n.
Proof.
  assert (Hne : within_radius 50
                  (List.map point_of (Frame.group_at r_time 0 [at_radius]))
                  0 0 1 <> []) by (vm_compute; discriminate).
  split; [exact Hne|].
  exact (proj1 (nn_dist_is_least true 50 90 [at_radius] 0 0 0 0 1 Hne)).
Defined.

(** X9 on two steps with two alternatives each: six rows. *)
Lemma build_row_count_witness :
  exists out,
    build_used_available (firstn 2 two_times) cfg = inr out /\
    length out = 6%nat.
Proof.
  destruct (build_used_available (firstn 2 two_times) cfg) as [e|out] eqn:E;
    [vm_compute in E; discriminate E|].
  exists out. split; [reflexivity|].
  exact (proj1 (proj2 (build_row_count (firstn 2 two_times) cfg out E))).
Defined.

(** X10 on the same steps with no alternative per step. *)
Lemma build_without_alternatives_witness :
  dropna (List.map step_len_m (firstn 2 two_times)) <> [] /\
  dropna (List.map turn_rad (firstn 2 two_times)) <> [] /\
  (K_available cfg_no_alternative = 0
   \/ List.filter has_heading (firstn 2 two_times) = []) /\
  build_used_available (firstn 2 two_times) cfg_no_alternative
  = inl (KeyError "x_end").
Proof.
  assert (Hl : dropna (List.map step_len_m (firstn 2 two_times)) <> [])
    by (vm_compute; discriminate).
  assert (Ht : dropna (List.map turn_rad (firstn 2 two_times)) <> [])
    by (vm_compute; discriminate).
  assert (HK : K_available cfg_no_alternative = 0
               \/ List.filter has_heading (firstn 2 two_times) = [])
    by (left; reflexivity).
  repeat (split; [assumption|]).
  exact (build_without_alternatives (firstn 2 two_times) cfg_no_alternative
           Hl Ht HK).
Defined.

(** X11 on five rows of two individuals and two folds. *)
Lemma consecutive_rows_change_fold_witness :
  0 < 2 /\
  List.NoDup
    (List.map t_fold
       (firstn (Z.to_nat 2)
          (skipn 1 (List.filter (labeled_id fst 1)
                                (fold_labels fst snd id_time_rows 2))))).
Proof.
  assert (Hk : 0 < 2) by lia.
  split; [exact Hk|].
  exact (consecutive_rows_change_fold fst snd id_time_rows 2 1 1 Hk).
Defined.

(** X12 on two rows and two folds. *)
Lemma folds_hold_out_once_witness :
  0 < 2 /\
  Permutation (flat_map (test_rows (cv_labels cv_design 2)) (range 2))
              cv_design.
Proof.
  assert (Hk : 0 < 2) by lia.
  split; [exact Hk|].
  exact (proj1 (folds_hold_out_once cv_design [LogL] 2 Hk)).
Defined.

(** X13 on two used rows: both folds are fitted. *)
Lemma all_folds_fitted_witness :
  statsmodels_available = true /\
  cv_design_fitted <> [] /\
  0 < 2 /\
  exists out calls,
    kfold_time_cv_run cv_design_fitted [LogL] 2 = inr (out, calls) /\
    errors out = None /\
    length calls = 2%nat.
Proof.
  assert (Hav : statsmodels_available = true) by reflexivity.
  assert (Hne : cv_design_fitted <> []) by (vm_compute; discriminate).
  assert (Hk : 0 < 2) by lia.
  assert (Hall : forall j, 0 <= j < 2 ->
                           fits [LogL] (cv_labels cv_design_fitted 2) j).
  { intros j Hj. assert (Hcases : j = 0 \/ j = 1) by lia.
    destruct Hcases as [-> | ->]; eexists; vm_compute; reflexivity. }
  repeat (split; [assumption|]).
  eexists _, _.
  split; [exact (all_folds_fitted cv_design_fitted [LogL] 2 Hav Hne Hk Hall)|].
  split; reflexivity.
Defined.

(** X14 with minus one fold. *)
Lemma negative_folds_give_nothing_witness :
  statsmodels_available = true /\
  -1 < 0 /\
  kfold_time_cv_run cv_design [LogL] (-1)
  = inr ({| log_score := None; rank_mean := None; rank_top1 := None;
            errors := None |}, []).
Proof.
  assert (Hav : statsmodels_available = true) by reflexivity.
  assert (Hk : -1 < 0) by lia.
  repeat (split; [assumption|]).
  exact (negative_folds_give_nothing cv_design [LogL] (-1) Hav Hk).
Defined.

(** X15 on three rows of two strata. *)
Lemma softmax_by_stratum_local_witness :
  length [0%float; 0%float; 0%float] = length [1; 2; 1] /\
  select (List.map (fun s' => s' =? 1) [1; 2; 1])
         (softmax_by_stratum [0%float; 0%float; 0%float] [1; 2; 1])
  = softmax_by_stratum
      (select (List.map (fun s' => s' =? 1) [1; 2; 1])
              [0%float; 0%float; 0%float])
      (select (List.map (fun s' => s' =? 1) [1; 2; 1]) [1; 2; 1]).
Proof.
  assert (Hlen : length [0%float; 0%float; 0%float] = length [1; 2; 1])
    by reflexivity.
  split; [exact Hlen|].
  exact (softmax_by_stratum_local [0%float; 0%float; 0%float] [1; 2; 1] 1 Hlen).
Defined.

(** X16 on one fix without identifier. *)
Lemma regularize_nothing_usable_witness :
  (forall f, In f [fix_without_id] ->
             fix_id f = None \/ fix_time f = None \/
             isnan (fix_lon f) = true \/ isnan (fix_lat f) = true) /\
  regularize [fix_without_id] cfg
  = inl (ValueError "No objects to concatenate").
Proof.
  assert (Hdf : forall f, In f [fix_without_id] ->
                          fix_id f = None \/ fix_time f = None \/
                          isnan (fix_lon f) = true \/ isnan (fix_lat f) = true).
  { intros f [<- | []]. left. reflexivity. }
  split; [exact Hdf|].
  exact (regularize_nothing_usable [fix_without_id] cfg Hdf).
Defined.

(** X17 on two individuals with two fixes each. *)
Lemma regularize_index_increasing_witness :
  exists reg,
    regularize two_sharks cfg = inr reg /\
    List.NoDup (List.map r_index reg).
Proof.
  destruct (regularize two_sharks cfg) as [e|reg] eqn:E;
    [vm_compute in E; discriminate E|].
  exists reg. split; [reflexivity|].
  exact (proj2 (regularize_index_increasing two_sharks cfg reg E)).
Defined.

(** X18 on the same table. *)
Lemma regularize_times_on_grid_witness :
  exists reg,
    regularize two_sharks cfg = inr reg /\
    Forall
      (fun r =>
         let s := Frame.group_at o_id (r_id r) (omap usable two_sharks) in
         let delta := dt_minutes cfg * minute_ns in
         exists o1 o2 j,
           In o1 s /\ In o2 s /\
           (forall o, In o s -> o_time o1 <= o_time o <= o_time o2) /\
           1 <= j /\
           r_time r = grid_start delta (o_time o1) + j * delta /\
           o_time o1 < r_time r <= o_time o2)
      reg.
Proof.
  destruct (regularize two_sharks cfg) as [e|reg] eqn:E;
    [vm_compute in E; discriminate E|].
  exists reg. split; [reflexivity|].
  exact (regularize_times_on_grid two_sharks cfg reg E).
Defined.

(** X19 on the same table. *)
Lemma regularize_sorted_by_id_time_witness :
  exists reg,
    regularize two_sharks cfg = inr reg /\
    Sorted.StronglySorted row_before reg.
Proof.
  destruct (regularize two_sharks cfg) as [e|reg] eqn:E;
    [vm_compute in E; discriminate E|].
  exists reg. split; [reflexivity|].
  exact (regularize_sorted_by_id_time two_sharks cfg reg E).
Defined.

Example two_sharks_regularized :
  option_map (List.map (fun r => (r_index r, r_id r, r_time r)))
             (match regularize two_sharks cfg with
              | inr reg => Some reg
              | inl _ => None
              end)
  = Some [(1, 1, minutes 10); (2, 1, minutes 20);
          (4, 2, minutes 10); (5, 2, minutes 20)].
Proof. vm_compute. reflexivity. Qed.

(** X22 on the two rows of one individual. *)
Lemma lead_follow_one_individual_witness :
  (forall r r', In r heading_missing -> In r' heading_missing ->
                r_id r = r_id r') /\
  lead_follow_posthoc heading_missing cfg = [].
Proof.
  assert (Hone : forall r r', In r heading_missing -> In r' heading_missing ->
                              r_id r = r_id r').
  { intros r r' [<- | [<- | []]] [<- | [<- | []]]; reflexivity. }
  split; [exact Hone|].
  exact (lead_follow_one_individual heading_missing cfg Hone).
Defined.

(** Two individuals on three timestamps: each has one row in the table,
    for its step that ends at the second timestamp. *)
Example lead_follow_three_times :
  List.map (fun l => (l_id l, l_time l))
           (lead_follow_posthoc three_times cfg)
  = [(1, minutes 10); (2, minutes 10)].
Proof. vm_compute. reflexivity. Qed.

(** X23 on an individual with three fixes: the stratum of the last step
    is its used row and two alternatives. *)
Lemma design_strata_shape_witness :
  exists out,
    Cli.design true three_fixes cfg = inr out /\
    1 <= K_available cfg /\
    List.map (fun r => is_used (base r)) (List.filter (stratum_is 2) out)
    = [1; 0; 0].
Proof.
  destruct (Cli.design true three_fixes cfg) as [e|out] eqn:E;
    [vm_compute in E; discriminate E|].
  exists out. split; [reflexivity|].
  split; [exact (proj1 (design_strata_shape true three_fixes cfg out 2 E))|].
  assert (Eout : inr out = Cli.design true three_fixes cfg)
    by (symmetry; exact E).
  vm_compute in Eout. injection Eout as ->. reflexivity.
Defined.

End MoreInstances.
